(** * TRTS engines: rational triad, microtick cycle, prime trigger

    A shallow embedding of the TRTS ("Transformative Reciprocal Triadic
    Structure") programs of the repository, and the properties their
    specification states about them.

    The repository holds several generations of the same engine:

    - the C prototypes, with a two-field [int64_t] rational and hand-written
      arithmetic ("PURE RATIONAL ARITHMETIC - NO GCD"): module [PureCli] for
      the command-line engine, module [CompleteSpec] for the struct-based
      "complete specification" engine;
    - the first C++ engine ([C++/trts.h] and [C++/TRTS_Engine.cpp~]), with
      the Miller-Rabin test: module [Hardcore];
    - the intermediate C++ engine of [FIAT_LUX/TRTS_Engine.cpp]: module
      [FiatLux];
    - the last C++ engine (the "trts-c" program with its header), which has
      the unreduced shadow numerators, the four propagation engines and the
      positional override of the koppa mode: module [TrtsC].

    The C++ engines compute with [boost::rational<cpp_int>]; module
    [BoostRational] models that library type.  Module [SmModel] is the
    earliest C engine ([model1/trtssm.c]), module [Cli] the output helper of
    the command-line programs. *)

From Stdlib Require Import ZArith QArith List Bool Lia Zpow_facts.
From Stdlib Require String Ascii DecimalString Decimal DecimalNat.
Import ListNotations.

Local Open Scope Z_scope.

(** ** Machine integers *)

(** C++ [int]: 32-bit two's complement; arithmetic results are wrapped. *)
Definition int_wrap (z : Z) : Z := (z + 2 ^ 31) mod 2 ^ 32 - 2 ^ 31.

Definition int_range (z : Z) : Prop := - 2 ^ 31 <= z < 2 ^ 31.

(** C [int64_t]. *)
Definition int64_wrap (z : Z) : Z := (z + 2 ^ 63) mod 2 ^ 64 - 2 ^ 63.

Definition int64_range (z : Z) : Prop := - 2 ^ 63 <= z < 2 ^ 63.

(** [z] lies within [B] of zero. *)
Definition within (B z : Z) : Prop := - B <= z <= B.

(** ** The C command-line engine: rationals without normalisation *)

Module PureCli.

(** [typedef struct { int64_t num; int64_t den; } Rational;] *)
Record Rational : Type := mkRational { num : Z; den : Z }.

Definition mul64 (x y : Z) : Z := int64_wrap (x * y).
Definition add64 (x y : Z) : Z := int64_wrap (x + y).

(** [return (Rational){a.num * b.den + b.num * a.den, a.den * b.den};] *)
Definition r_add (a b : Rational) : Rational :=
  mkRational (add64 (mul64 (num a) (den b)) (mul64 (num b) (den a)))
             (mul64 (den a) (den b)).

(** [return (Rational){a.num * b.num, a.den * b.den};] *)
Definition r_mul (a b : Rational) : Rational :=
  mkRational (mul64 (num a) (num b)) (mul64 (den a) (den b)).

(** [return (Rational){a.num * b.den, a.den * b.num};] *)
Definition r_div (a b : Rational) : Rational :=
  mkRational (mul64 (num a) (den b)) (mul64 (den a) (num b)).

(** [for (int64_t i = 5; i * i <= n; i += 6)] of [is_prime_preserve_sign],
    entered with [i]: [false] at the first [i] or [i + 2] that divides [n],
    [true] when the loop is left.  The test [i * i <= n] ends the loop
    within sqrt(n) iterations; [bound] is that number. *)
Fixpoint wheel_loop (bound : nat) (n i : Z) : bool :=
  match bound with
  | O => true
  | S bound' =>
      if mul64 i i <=? n then
        if (Z.rem n i =? 0) || (Z.rem n (add64 i 2) =? 0) then false
        else wheel_loop bound' n (add64 i 6)
      else true
  end.

(** [is_prime_preserve_sign(n)] *)
Definition is_prime_preserve_sign (n : Z) : bool :=
  let n := if n <? 0 then int64_wrap (- n) else n in
  if n <=? 1 then false
  else if n <=? 3 then true
  else if (Z.rem n 2 =? 0) || (Z.rem n 3 =? 0) then false
  else wheel_loop (Z.to_nat (Z.sqrt n)) n 5.

(** [TRTS_Config] *)
Record TRTS_Config : Type := mkConfig {
  seed_u : Rational;
  seed_b : Rational;
  seed_k : Rational;
  psi_behavior : Z;
  koppa_mode : Z;
  engine_type : Z;
  total_ticks : Z;
  verbose : Z;
  symbolic_output : Z
}.

(** The locals [u], [b], [k] and [rho] of [run_trts()]. *)
Record Locals : Type := mkLocals {
  u : Rational;
  b : Rational;
  k : Rational;
  rho : Z
}.

Definition is_epsilon (mt : Z) : bool :=
  (mt =? 1) || (mt =? 4) || (mt =? 7) || (mt =? 10).

Definition is_mu (mt : Z) : bool :=
  (mt =? 2) || (mt =? 5) || (mt =? 8) || (mt =? 11).

Definition is_phi (mt : Z) : bool := (mt =? 3) || (mt =? 6) || (mt =? 9).

(** The condition of the EPSILON case, as written. *)
Definition epsilon_condition (config : TRTS_Config) (mt : Z) (st : Locals)
  : bool :=
  (psi_behavior config =? 0)
  || ((psi_behavior config =? 1) && is_prime_preserve_sign (num (u st)))
  || ((psi_behavior config =? 2)
      && ((mt =? 2) || (mt =? 5) || (mt =? 8) || (mt =? 11)))
  || ((psi_behavior config =? 3)
      && (is_prime_preserve_sign (num (u st)) || (mt =? 10))).

(** [switch (mt)]: EPSILON, MU and PHI. *)
Definition role_switch (config : TRTS_Config) (mt : Z) (st : Locals) : Locals :=
  if is_epsilon mt then
    if epsilon_condition config mt st
    then mkLocals (u st) (b st) (k st) (int_wrap (Z.rem (rho st) 4 + 1))
    else st
  else if is_mu mt then
    if rho st >? 0 then
      if engine_type config =? 0
      then mkLocals (r_add (u st) (k st)) (b st) (k st) (rho st)
      else if engine_type config =? 1
      then mkLocals (r_mul (u st) (k st)) (b st) (k st) (rho st)
      else if engine_type config =? 2
      then mkLocals (r_div (r_add (u st) (k st)) (mkRational 2 1))
                    (b st) (k st) (rho st)
      else st
    else st
  else if is_phi mt then
    if engine_type config =? 0
    then mkLocals (u st) (r_add (u st) (b st)) (k st) (rho st)
    else if engine_type config =? 1
    then mkLocals (u st) (r_mul (u st) (b st)) (k st) (rho st)
    else if engine_type config =? 2
    then mkLocals (u st) (r_div (r_add (u st) (b st)) (mkRational 2 1))
                  (k st) (rho st)
    else st
  else st.

(** [switch (config.koppa_mode)] *)
Definition koppa_switch (config : TRTS_Config) (mt : Z) (st : Locals) : Locals :=
  if koppa_mode config =? 0 then
    if mt =? 11 then mkLocals (u st) (b st) (seed_k config) (rho st) else st
  else if koppa_mode config =? 1 then st
  else if koppa_mode config =? 2 then
    if (mt =? 11) && (rho st >? 0)
    then mkLocals (u st) (b st) (r_add (k st) (mkRational (rho st) 1)) (rho st)
    else st
  else st.

(** The body of [for (int mt = 1; mt <= 11; mt++)]; what it prints is left
    out. *)
Definition microtick_body (config : TRTS_Config) (mt : Z) (st : Locals)
  : Locals :=
  koppa_switch config mt (role_switch config mt st).

(** One tick: the eleven microticks in order. *)
Definition tick (config : TRTS_Config) (st : Locals) : Locals :=
  fold_left (fun st mt => microtick_body config mt st)
            [1; 2; 3; 4; 5; 6; 7; 8; 9; 10; 11] st.

(** [for (int tick = 0; tick < ticks; tick++)] *)
Fixpoint ticks_loop (ticks : nat) (config : TRTS_Config) (st : Locals)
  : Locals :=
  match ticks with
  | O => st
  | S ticks' => ticks_loop ticks' config (tick config st)
  end.

(** [run_trts(config)]: the locals when the loops are left. *)
Definition run_trts (config : TRTS_Config) : Locals :=
  ticks_loop (Z.to_nat (total_ticks config)) config
             (mkLocals (seed_u config) (seed_b config) (seed_k config) 0).

(** The configuration with another koppa mode (option [-o]). *)
Definition with_koppa_mode (mode : Z) (config : TRTS_Config) : TRTS_Config :=
  mkConfig (seed_u config) (seed_b config) (seed_k config)
           (psi_behavior config) mode (engine_type config)
           (total_ticks config) (verbose config) (symbolic_output config).

End PureCli.

(** ** [boost::rational<cpp_int>] *)

(** The library type, by its documented behaviour.  An object always holds
    the normalised representative of its value: the two-argument
    constructor normalises, and every operator returns a normalised result.
    So on the operands the class can hold, each operator returns the
    normalised value of the fraction that cross-multiplication writes; that
    is how the operators are defined here.  The integers are [cpp_int]:
    unbounded. *)
Module BoostRational.

(** The only exception the rational type raises:
    [boost::bad_rational] ("bad rational: zero denominator"). *)
Inductive exn : Type := bad_rational.

(** A computation that returns or throws. *)
Inductive except (A : Type) : Type :=
| Ok (a : A)
| Raise (e : exn).
Arguments Ok {A} a.
Arguments Raise {A} e.

(** The two fields read by [numerator()] and [denominator()]. *)
Record Rational : Type := mkRational { numerator : Z; denominator : Z }.

(** The class invariant of [boost::rational]: positive denominator, no
    common factor. *)
Definition normalized (r : Rational) : Prop :=
  0 < denominator r /\ Z.gcd (numerator r) (denominator r) = 1.

(** [rational::normalize()] for a non-zero denominator: zero becomes 0/1,
    the common factor is divided out, the sign moves to the numerator. *)
Definition normalize (n d : Z) : Rational :=
  if n =? 0 then mkRational 0 1
  else
    let g := Z.gcd n d in
    let n' := Z.quot n g in
    let d' := Z.quot d g in
    if d' <? 0 then mkRational (- n') (- d') else mkRational n' d'.

(** [Rational(n, d)]: throws on a zero denominator, normalises otherwise. *)
Definition make (n d : Z) : except Rational :=
  if d =? 0 then Raise bad_rational else Ok (normalize n d).

(** [Rational(n)], [Rational(n, 1)]. *)
Definition of_int (n : Z) : Rational := mkRational n 1.

(** The arithmetic operators return the normalised value of the
    cross-multiplied fraction. *)
Definition add (a b : Rational) : Rational :=
  normalize (numerator a * denominator b + numerator b * denominator a)
            (denominator a * denominator b).

Definition sub (a b : Rational) : Rational :=
  normalize (numerator a * denominator b - numerator b * denominator a)
            (denominator a * denominator b).

Definition mul (a b : Rational) : Rational :=
  normalize (numerator a * numerator b) (denominator a * denominator b).

(** [operator/]: throws [bad_rational] when the divisor's numerator is
    zero. *)
Definition div (a b : Rational) : except Rational :=
  if numerator b =? 0 then Raise bad_rational
  else Ok (normalize (numerator a * denominator b)
                     (denominator a * numerator b)).

(** [r == i] for an integer [i]. *)
Definition eq_int (r : Rational) (i : Z) : bool :=
  (numerator r =? i) && (denominator r =? 1).

(** What arithmetic without normalisation gives: the fraction exactly as
    cross-multiplication writes it. *)
Definition structural_add (a b : Rational) : Rational :=
  mkRational (numerator a * denominator b + numerator b * denominator a)
             (denominator a * denominator b).

Definition structural_sub (a b : Rational) : Rational :=
  mkRational (numerator a * denominator b - numerator b * denominator a)
             (denominator a * denominator b).

(** The number a rational stands for. *)
Definition value (r : Rational) : Q :=
  Qmake (numerator r) (Z.to_pos (denominator r)).

End BoostRational.

(** ** Member functions: state and exceptions *)

(** A member function of an engine runs on the object's state [S]; it either
    returns, or throws with the state as the statements before the throw
    left it. *)
Module Eff.

Import BoostRational.

Inductive outcome (S A : Type) : Type :=
| Returned (a : A) (s : S)
| Thrown (e : exn) (s : S).
Arguments Returned {S A} a s.
Arguments Thrown {S A} e s.

Definition M (S A : Type) : Type := S -> outcome S A.

Definition ret {S A : Type} (a : A) : M S A := fun s => Returned a s.

Definition bind {S A B : Type} (c : M S A) (k : A -> M S B) : M S B :=
  fun s =>
    match c s with
    | Returned a s' => k a s'
    | Thrown e s' => Thrown e s'
    end.

Definition gets {S A : Type} (f : S -> A) : M S A := fun s => Returned (f s) s.

Definition modify {S : Type} (f : S -> S) : M S unit := fun s => Returned tt (f s).

(** A rational operation evaluated inside a member function. *)
Definition lift {S A : Type} (x : except A) : M S A :=
  fun s =>
    match x with
    | Ok a => Returned a s
    | Raise e => Thrown e s
    end.

(** [if (c) { body }] *)
Definition when {S : Type} (c : bool) (body : M S unit) : M S unit :=
  if c then body else ret tt.

(** The object after the call, whether it returned or threw. *)
Definition final_state {S A : Type} (o : outcome S A) : S :=
  match o with
  | Returned _ s => s
  | Thrown _ s => s
  end.

Definition returned {S A : Type} (o : outcome S A) : bool :=
  match o with
  | Returned _ _ => true
  | Thrown _ _ => false
  end.

(** [for (i = 0; i < n; ++i) body] *)
Fixpoint repeat_m {S : Type} (n : nat) (body : M S unit) : M S unit :=
  match n with
  | O => ret tt
  | Datatypes.S n' => bind body (fun _ => repeat_m n' body)
  end.

(** The outcome with [f] applied to the object. *)
Definition map_state {S A : Type} (f : S -> S) (o : outcome S A) : outcome S A :=
  match o with
  | Returned a s => Returned a (f s)
  | Thrown e s => Thrown e (f s)
  end.

(** [c] leaves the observation [f] of the object as it was, whether it
    returns or throws. *)
Definition preserves {S A B : Type} (f : S -> A) (c : M S B) : Prop :=
  forall s, f (final_state (c s)) = f s.

(** [c] does not read what [g] changes: run on the changed object it does
    the same, on the changed object. *)
Definition commutes_with {S B : Type} (g : S -> S) (c : M S B) : Prop :=
  forall s, c (g s) = map_state g (c s).

(** [c] keeps the invariant [I] of the object, whether it returns or
    throws. *)
Definition maintains {S B : Type} (I : S -> Prop) (c : M S B) : Prop :=
  forall s, I s -> I (final_state (c s)).

Declare Scope eff_scope.
Delimit Scope eff_scope with eff.
Notation "x <- c1 ;; c2" := (bind c1 (fun x => c2))
  (at level 61, c1 at next level, right associativity) : eff_scope.
Notation "c1 ;; c2" := (bind c1 (fun _ => c2))
  (at level 61, right associativity) : eff_scope.

End Eff.

(** ** The trts-c engine *)

Module TrtsC.

Import BoostRational Eff.
Local Open Scope eff_scope.

(** [enum PsiMode { PSI_F, PSI_R, PSI_D, PSI_C };]  Forced, Rho, Dual,
    Critical. *)
Inductive PsiMode : Type := PSI_F | PSI_R | PSI_D | PSI_C.

(** [enum KappaMode { KAPPA_A, KAPPA_D, KAPPA_F };]  Accumulate, Dump,
    Ratio_Feed. *)
Inductive KappaMode : Type := KAPPA_A | KAPPA_D | KAPPA_F.

(** [enum EngineType { ENG_A, ENG_M, ENG_R, ENG_Q };]  Additive, Multi,
    Rotational, Quiet. *)
Inductive EngineType : Type := ENG_A | ENG_M | ENG_R | ENG_Q.

Definition PsiMode_eqb (a b : PsiMode) : bool :=
  match a, b with
  | PSI_F, PSI_F | PSI_R, PSI_R | PSI_D, PSI_D | PSI_C, PSI_C => true
  | _, _ => false
  end.

Definition KappaMode_eqb (a b : KappaMode) : bool :=
  match a, b with
  | KAPPA_A, KAPPA_A | KAPPA_D, KAPPA_D | KAPPA_F, KAPPA_F => true
  | _, _ => false
  end.

Definition EngineType_eqb (a b : EngineType) : bool :=
  match a, b with
  | ENG_A, ENG_A | ENG_M, ENG_M | ENG_R, ENG_R | ENG_Q, ENG_Q => true
  | _, _ => false
  end.

(** The data members of [class TRTS_Engine]. *)
Record TRTS_Engine : Type := mkEngine {
  upsilon : Rational;
  beta : Rational;
  koppa : Rational;
  upsilon_num_unreduced : Z;
  beta_num_unreduced : Z;
  rho : Z;
  microtick : Z;
  step : Z;
  psi_mode : PsiMode;
  kappa_mode_default : KappaMode;
  engine_mode : EngineType
}.

Definition set_upsilon (v : Rational) (s : TRTS_Engine) : TRTS_Engine :=
  mkEngine v (beta s) (koppa s) (upsilon_num_unreduced s) (beta_num_unreduced s)
           (rho s) (microtick s) (step s) (psi_mode s) (kappa_mode_default s)
           (engine_mode s).

Definition set_beta (v : Rational) (s : TRTS_Engine) : TRTS_Engine :=
  mkEngine (upsilon s) v (koppa s) (upsilon_num_unreduced s) (beta_num_unreduced s)
           (rho s) (microtick s) (step s) (psi_mode s) (kappa_mode_default s)
           (engine_mode s).

Definition set_koppa (v : Rational) (s : TRTS_Engine) : TRTS_Engine :=
  mkEngine (upsilon s) (beta s) v (upsilon_num_unreduced s) (beta_num_unreduced s)
           (rho s) (microtick s) (step s) (psi_mode s) (kappa_mode_default s)
           (engine_mode s).

Definition set_upsilon_num_unreduced (v : Z) (s : TRTS_Engine) : TRTS_Engine :=
  mkEngine (upsilon s) (beta s) (koppa s) v (beta_num_unreduced s)
           (rho s) (microtick s) (step s) (psi_mode s) (kappa_mode_default s)
           (engine_mode s).

Definition set_beta_num_unreduced (v : Z) (s : TRTS_Engine) : TRTS_Engine :=
  mkEngine (upsilon s) (beta s) (koppa s) (upsilon_num_unreduced s) v
           (rho s) (microtick s) (step s) (psi_mode s) (kappa_mode_default s)
           (engine_mode s).

Definition set_rho (v : Z) (s : TRTS_Engine) : TRTS_Engine :=
  mkEngine (upsilon s) (beta s) (koppa s) (upsilon_num_unreduced s)
           (beta_num_unreduced s) v (microtick s) (step s) (psi_mode s)
           (kappa_mode_default s) (engine_mode s).

Definition set_microtick (v : Z) (s : TRTS_Engine) : TRTS_Engine :=
  mkEngine (upsilon s) (beta s) (koppa s) (upsilon_num_unreduced s)
           (beta_num_unreduced s) (rho s) v (step s) (psi_mode s)
           (kappa_mode_default s) (engine_mode s).

Definition set_step (v : Z) (s : TRTS_Engine) : TRTS_Engine :=
  mkEngine (upsilon s) (beta s) (koppa s) (upsilon_num_unreduced s)
           (beta_num_unreduced s) (rho s) (microtick s) v (psi_mode s)
           (kappa_mode_default s) (engine_mode s).

(** The configuration with another default koppa mode. *)
Definition set_kappa_mode_default (v : KappaMode) (s : TRTS_Engine) : TRTS_Engine :=
  mkEngine (upsilon s) (beta s) (koppa s) (upsilon_num_unreduced s)
           (beta_num_unreduced s) (rho s) (microtick s) (step s) (psi_mode s)
           v (engine_mode s).

(** The configuration with another propagation engine. *)
Definition set_engine_mode (v : EngineType) (s : TRTS_Engine) : TRTS_Engine :=
  mkEngine (upsilon s) (beta s) (koppa s) (upsilon_num_unreduced s)
           (beta_num_unreduced s) (rho s) (microtick s) (step s) (psi_mode s)
           (kappa_mode_default s) v.

(** The placeholder the program links as its primality test:
    [bool is_miller_rabin_prime(const HighPrecisionInt& n) { return true; }] *)
Definition is_miller_rabin_prime (n : Z) : bool := true.

(** The constructor: counters at zero, the three rationals at [Rational(1)],
    the two [cpp_int] members default-constructed. *)
Definition construct (psi : PsiMode) (kappa : KappaMode) (engine : EngineType)
  : TRTS_Engine :=
  mkEngine (of_int 1) (of_int 1) (of_int 1) 0 0 0 0 0 psi kappa engine.

(** [initialize_state(u_seed, b_seed)] *)
Definition initialize_state (u_seed b_seed : Rational) : M TRTS_Engine unit :=
  modify (set_upsilon u_seed) ;;
  modify (set_beta b_seed) ;;
  modify (set_koppa (of_int 1)) ;;
  modify (set_upsilon_num_unreduced (numerator u_seed)) ;;
  modify (set_beta_num_unreduced (numerator b_seed)).

(** [update_koppa(trigger)]: the local [current_kappa_mode] starts as the
    configured default and is overridden by the microtick position. *)
Definition update_koppa (trigger : Z) : M TRTS_Engine unit :=
  if trigger =? 0 then ret tt
  else
    m <- gets microtick ;;
    configured <- gets kappa_mode_default ;;
    let current_kappa_mode :=
      if m =? 7 then KAPPA_F
      else if m =? 10 then KAPPA_D
      else if (m =? 1) || (m =? 4) then KAPPA_A
      else configured in
    if KappaMode_eqb current_kappa_mode KAPPA_F then
      k <- gets koppa ;;
      when (eq_int k 0) (modify (set_koppa (of_int 1))) ;;
      u <- gets upsilon ;;
      b <- gets beta ;;
      q <- lift (div u b) ;;
      k <- gets koppa ;;
      modify (set_koppa (mul k q))
    else if KappaMode_eqb current_kappa_mode KAPPA_A then
      k <- gets koppa ;;
      u <- gets upsilon ;;
      b <- gets beta ;;
      modify (set_koppa (add k (sub u b)))
    else if KappaMode_eqb current_kappa_mode KAPPA_D then
      u <- gets upsilon ;;
      b <- gets beta ;;
      q <- lift (div u b) ;;
      modify (set_koppa q)
    else ret tt.

(** [apply_propagation_engine()] *)
Definition apply_propagation_engine : M TRTS_Engine unit :=
  u <- gets upsilon ;;
  b <- gets beta ;;
  let diff := sub u b in
  let eleven := of_int 11 in
  delta <- lift (div diff eleven) ;;
  e <- gets engine_mode ;;
  (if EngineType_eqb e ENG_Q then
     modify (fun s => set_upsilon (add (upsilon s) delta) s) ;;
     modify (fun s => set_beta (sub (beta s) delta) s)
   else if EngineType_eqb e ENG_A then
     modify (fun s => set_upsilon (add (upsilon s) diff) s) ;;
     modify (fun s => set_beta (sub (beta s) diff) s)
   else if EngineType_eqb e ENG_M then
     modify (fun s => set_upsilon (add (upsilon s) (mul (upsilon s) delta)) s) ;;
     modify (fun s => set_beta (sub (beta s) (mul (beta s) delta)) s)
   else if EngineType_eqb e ENG_R then
     temp <- gets upsilon ;;
     modify (fun s => set_upsilon (beta s) s) ;;
     modify (set_beta temp)
   else ret tt) ;;
  when (EngineType_eqb e ENG_Q)
    (modify (fun s => set_upsilon_num_unreduced
                        (upsilon_num_unreduced s + numerator delta) s) ;;
     modify (fun s => set_beta_num_unreduced
                        (beta_num_unreduced s - numerator delta) s)).

(** [psi_transform()]: [temp = upsilon; upsilon = koppa / beta;
    beta = temp / koppa;] *)
Definition psi_transform : M TRTS_Engine unit :=
  temp <- gets upsilon ;;
  k <- gets koppa ;;
  b <- gets beta ;;
  q <- lift (div k b) ;;
  modify (set_upsilon q) ;;
  k <- gets koppa ;;
  q' <- lift (div temp k) ;;
  modify (set_beta q').

Definition is_emission_point (m : Z) : bool :=
  (m =? 1) || (m =? 4) || (m =? 7) || (m =? 10).

Definition is_propagation_point (m : Z) : bool :=
  (m =? 3) || (m =? 6) || (m =? 9).

Definition is_transformation_point (m : Z) : bool :=
  (m =? 2) || (m =? 5) || (m =? 8) || (m =? 11).

Section Engine.

(** The primality test the engine is linked with. *)
Variable isPrime : Z -> bool.

(** [is_prime_trigger()]: the test on the absolute value of the unreduced
    upsilon numerator. *)
Definition is_prime_trigger : M TRTS_Engine bool :=
  num <- gets upsilon_num_unreduced ;;
  let num := if num <? 0 then - num else num in
  ret (isPrime num).

(** The three assignments that open [process_microtick()]. *)
Definition advance_counters : M TRTS_Engine unit :=
  modify (fun s => set_microtick (int_wrap (Z.rem (microtick s) 11 + 1)) s) ;;
  modify (fun s => set_step (Z.quot (int_wrap (microtick s - 1)) 3) s) ;;
  modify (set_rho 0).

(** E-Role: emission check. *)
Definition emission_phase : M TRTS_Engine unit :=
  m <- gets microtick ;;
  when (is_emission_point m)
    (p <- is_prime_trigger ;;
     when p (modify (set_rho 1)) ;;
     r <- gets rho ;;
     when (r >? 0) (update_koppa r)).

(** M-Role: propagation engine. *)
Definition propagation_phase : M TRTS_Engine unit :=
  m <- gets microtick ;;
  when (is_propagation_point m) apply_propagation_engine.

(** The value of the local [should_transform] after its four tests. *)
Definition should_transform (s : TRTS_Engine) : bool :=
  let st := false in
  let st := if PsiMode_eqb (psi_mode s) PSI_F && (microtick s =? 11)
            then true else st in
  let st := if PsiMode_eqb (psi_mode s) PSI_R && (rho s >? 0)
            then true else st in
  let st := if PsiMode_eqb (psi_mode s) PSI_D
               && ((microtick s =? 11) || (rho s >? 0))
            then true else st in
  if PsiMode_eqb (psi_mode s) PSI_C
  then (if negb (numerator (koppa s) =? denominator (koppa s)) then true else st)
  else st.

(** R-Role: reciprocal transform. *)
Definition transformation_phase : M TRTS_Engine unit :=
  m <- gets microtick ;;
  when (is_transformation_point m)
    (st <- gets should_transform ;;
     when st psi_transform).

(** [process_microtick()] *)
Definition process_microtick : M TRTS_Engine unit :=
  advance_counters ;;
  emission_phase ;;
  propagation_phase ;;
  transformation_phase.

(** [execute_tick(total_microticks)]: the loop runs [total_microticks]
    times, none when the count is not positive. *)
Definition execute_tick (total_microticks : Z) : M TRTS_Engine unit :=
  repeat_m (Z.to_nat total_microticks) process_microtick.

End Engine.

(** The engine as the three opening assignments of [process_microtick()]
    leave it. *)
Definition advanced (s : TRTS_Engine) : TRTS_Engine :=
  let m := int_wrap (Z.rem (microtick s) 11 + 1) in
  set_rho 0 (set_step (Z.quot (int_wrap (m - 1)) 3) (set_microtick m s)).

(** [microtick = (microtick % 11) + 1] as a function of the old value. *)
Definition next_microtick (m : Z) : Z := int_wrap (Z.rem m 11 + 1).

(** The engine [main] builds from the default options: seeds 19/7 and
    89/11, psi D, kappa A, engine Q. *)
Definition default_engine : TRTS_Engine :=
  final_state
    (initialize_state (mkRational 19 7) (mkRational 89 11)
       (construct PSI_D KAPPA_A ENG_Q)).

(** The engine [main] builds from the options [-u 1 -b 2 -p C]. *)
Definition critical_engine : TRTS_Engine :=
  final_state
    (initialize_state (of_int 1) (of_int 2) (construct PSI_C KAPPA_A ENG_Q)).

(** The engine with the counters as [process_microtick()] sets them at
    microtick [k]. *)
Definition at_microtick (k : Z) (s : TRTS_Engine) : TRTS_Engine :=
  set_rho 0 (set_step (Z.quot (k - 1) 3) (set_microtick k s)).

(** A primality test configured to always return false. *)
Definition never_prime (n : Z) : bool := false.

(** The three rationals of the engine satisfy the invariant of their
    class; in particular no denominator is zero. *)
Definition rationals_normalized (s : TRTS_Engine) : Prop :=
  normalized (upsilon s) /\ normalized (beta s) /\ normalized (koppa s).

(** What the specification says of the koppa update: the effective mode as
    a function of the microtick and the configured mode. *)
Definition effective_mode (m : Z) (configured : KappaMode) : KappaMode :=
  if m =? 7 then KAPPA_F
  else if m =? 10 then KAPPA_D
  else if (m =? 1) || (m =? 4) then KAPPA_A
  else configured.

(** What the specification says each mode does, with
    differential = upsilon - beta:
    ACCUMULATE: koppa += differential;
    DUMP: koppa = upsilon / beta;
    RATIO_FEED: a zero koppa is reset to 1/1, then koppa *= upsilon / beta. *)
Definition koppa_update_in_mode (mode : KappaMode) : M TRTS_Engine unit :=
  match mode with
  | KAPPA_A =>
      modify (fun s => set_koppa (add (koppa s) (sub (upsilon s) (beta s))) s)
  | KAPPA_D =>
      s <- gets (fun s => s) ;;
      q <- lift (div (upsilon s) (beta s)) ;;
      modify (set_koppa q)
  | KAPPA_F =>
      modify (fun s => if eq_int (koppa s) 0 then set_koppa (of_int 1) s else s) ;;
      s <- gets (fun s => s) ;;
      q <- lift (div (upsilon s) (beta s)) ;;
      modify (set_koppa (mul (koppa s) q))
  end.

(** The configuration with another psi mode. *)
Definition set_psi_mode (v : PsiMode) (s : TRTS_Engine) : TRTS_Engine :=
  mkEngine (upsilon s) (beta s) (koppa s) (upsilon_num_unreduced s)
           (beta_num_unreduced s) (rho s) (microtick s) (step s) v
           (kappa_mode_default s) (engine_mode s).

(** The integer that [get_psi_precursor_str()] prints:
    [upsilon_num_unreduced - beta_num_unreduced]. *)
Definition psi_precursor (s : TRTS_Engine) : Z :=
  upsilon_num_unreduced s - beta_num_unreduced s.

End TrtsC.

(** ** The first C++ engine: Miller-Rabin *)

Module Hardcore.

Import BoostRational Eff.
Local Open Scope eff_scope.

Inductive PsiBehavior : Type :=
  PSI_FORCED | PSI_RHO_TRIGGERED | PSI_DUAL_RECIPROCAL.

Inductive KoppaMode : Type := KOPPA_ACCUMULATE | KOPPA_DUMP | KOPPA_RATIO_FEED.

Inductive EngineType : Type :=
  ENGINE_ADDITIVE | ENGINE_MULTIPLICATIVE | ENGINE_ROTATIONAL
| ENGINE_QUIET_ADDITIVE.

Record TRTS_Engine : Type := mkEngine {
  upsilon : Rational;
  beta : Rational;
  koppa : Rational;
  rho : Z;
  microtick : Z;
  step : Z;
  psi_mode : PsiBehavior;
  koppa_mode : KoppaMode;
  engine_mode : EngineType
}.

(** [boost::multiprecision::powm(a, d, n)]: a to the d modulo n, by
    repeated squaring. *)
Definition powm (a d n : Z) : Z := Zpow_mod a d n.

(** [const std::vector<int> test_bases] *)
Definition test_bases : list Z := [2; 3; 5; 7; 11; 13; 17; 19; 23; 29].

(** [while (d % 2 == 0) { d /= 2; s++; }] on a positive [d]: an even
    positive number is its half with a zero bit appended. *)
Fixpoint halve_while_even (d : positive) (s : nat) : Z * nat :=
  match d with
  | xO d' => halve_while_even d' (Datatypes.S s)
  | _ => (Zpos d, s)
  end.

(** [for (int r = 1; r < s; ++r)]: the value of [is_composite] after
    [rounds] more squarings, [false] as soon as one gives n - 1. *)
Fixpoint squaring_loop (rounds : nat) (x abs_n n_minus_1 : Z) : bool :=
  match rounds with
  | O => true
  | Datatypes.S rounds' =>
      let x := powm x 2 abs_n in
      if x =? n_minus_1 then false
      else squaring_loop rounds' x abs_n n_minus_1
  end.

(** [for (int base_int : test_bases)] with its [break], [continue] and
    [return false]; falling out of the loop returns [true]. *)
Fixpoint base_loop (bases : list Z) (d : Z) (s : nat) (abs_n n_minus_1 : Z)
  : bool :=
  match bases with
  | [] => true
  | base_int :: rest =>
      if base_int >=? abs_n then true
      else
        let x := powm base_int d abs_n in
        if (x =? 1) || (x =? n_minus_1)
        then base_loop rest d s abs_n n_minus_1
        else if squaring_loop (Nat.pred s) x abs_n n_minus_1 then false
             else base_loop rest d s abs_n n_minus_1
  end.

(** [is_miller_rabin_prime(n, k = 10)]; [k] is not read. *)
Definition is_miller_rabin_prime (n : Z) : bool :=
  let abs_n := Z.abs n in
  if abs_n <=? 1 then false
  else if abs_n <=? 3 then true
  else if Z.rem abs_n 2 =? 0 then false
  else
    let n_minus_1 := abs_n - 1 in
    let '(d, s) :=
      match n_minus_1 with
      | Zpos p => halve_while_even p O
      | _ => (n_minus_1, O)
      end in
    base_loop test_bases d s abs_n n_minus_1.

(** [is_prime_trigger()] of this engine: the test on the numerator or the
    denominator of upsilon itself. *)
Definition is_prime_trigger (e : TRTS_Engine) : bool :=
  is_miller_rabin_prime (numerator (upsilon e))
  || is_miller_rabin_prime (denominator (upsilon e)).

(** [initialize_state(u_num, b_num)]: [Rational(u_num, 7)] and
    [Rational(b_num, 11)] are normalised by the constructor; [step++]. *)
Definition initialize_state (u_num b_num : Z) (e : TRTS_Engine) : TRTS_Engine :=
  mkEngine (normalize u_num 7) (normalize b_num 11) (of_int 1)
           0 0 (int_wrap (step e + 1))
           (psi_mode e) (koppa_mode e) (engine_mode e).

(** The reference the test is compared with: [n] is at least 2 and none of
    2, 3, ..., n - 1 divides it. *)
Fixpoint no_divisor_from (count : nat) (k n : Z) : bool :=
  match count with
  | O => true
  | Datatypes.S count' =>
      if n mod k =? 0 then false else no_divisor_from count' (k + 1) n
  end.

Definition trial_division (n : Z) : bool :=
  (2 <=? n) && no_divisor_from (Z.to_nat (n - 2)) 2 n.

(** *** The member functions of [TRTS_Engine.cpp~] *)

Definition PsiBehavior_eqb (a b : PsiBehavior) : bool :=
  match a, b with
  | PSI_FORCED, PSI_FORCED => true
  | PSI_RHO_TRIGGERED, PSI_RHO_TRIGGERED => true
  | PSI_DUAL_RECIPROCAL, PSI_DUAL_RECIPROCAL => true
  | _, _ => false
  end.

Definition KoppaMode_eqb (a b : KoppaMode) : bool :=
  match a, b with
  | KOPPA_ACCUMULATE, KOPPA_ACCUMULATE => true
  | KOPPA_DUMP, KOPPA_DUMP => true
  | KOPPA_RATIO_FEED, KOPPA_RATIO_FEED => true
  | _, _ => false
  end.

Definition set_upsilon (v : Rational) (s : TRTS_Engine) : TRTS_Engine :=
  mkEngine v (beta s) (koppa s) (rho s) (microtick s) (step s)
           (psi_mode s) (koppa_mode s) (engine_mode s).

Definition set_beta (v : Rational) (s : TRTS_Engine) : TRTS_Engine :=
  mkEngine (upsilon s) v (koppa s) (rho s) (microtick s) (step s)
           (psi_mode s) (koppa_mode s) (engine_mode s).

Definition set_koppa (v : Rational) (s : TRTS_Engine) : TRTS_Engine :=
  mkEngine (upsilon s) (beta s) v (rho s) (microtick s) (step s)
           (psi_mode s) (koppa_mode s) (engine_mode s).

Definition set_rho (v : Z) (s : TRTS_Engine) : TRTS_Engine :=
  mkEngine (upsilon s) (beta s) (koppa s) v (microtick s) (step s)
           (psi_mode s) (koppa_mode s) (engine_mode s).

Definition set_microtick (v : Z) (s : TRTS_Engine) : TRTS_Engine :=
  mkEngine (upsilon s) (beta s) (koppa s) (rho s) v (step s)
           (psi_mode s) (koppa_mode s) (engine_mode s).

(** The configuration with another koppa mode. *)
Definition set_koppa_mode (v : KoppaMode) (s : TRTS_Engine) : TRTS_Engine :=
  mkEngine (upsilon s) (beta s) (koppa s) (rho s) (microtick s) (step s)
           (psi_mode s) v (engine_mode s).

(** The constructor: koppa starts at 0/1. *)
Definition construct (psi : PsiBehavior) (kp : KoppaMode) (engine : EngineType)
  : TRTS_Engine :=
  mkEngine (of_int 1) (of_int 1) (of_int 0) 0 0 0 psi kp engine.

(** [psi_transform()]: the dual-reciprocal branch builds the two inverses
    first ([1 / r] throws on a zero [r]) and crosses their fields; the
    other branch is [Rational(beta.den, upsilon.den)] and
    [Rational(upsilon.num, beta.den)]. *)
Definition psi_transform : M TRTS_Engine unit :=
  p <- gets psi_mode ;;
  if PsiBehavior_eqb p PSI_DUAL_RECIPROCAL then
    u <- gets upsilon ;;
    u_inv <- lift (div (of_int 1) u) ;;
    b <- gets beta ;;
    b_inv <- lift (div (of_int 1) b) ;;
    nu <- lift (make (numerator u_inv) (denominator b_inv)) ;;
    modify (set_upsilon nu) ;;
    nb <- lift (make (numerator b_inv) (denominator u_inv)) ;;
    modify (set_beta nb) ;;
    km <- gets koppa_mode ;;
    k <- gets koppa ;;
    when (KoppaMode_eqb km KOPPA_RATIO_FEED && negb (eq_int k 0))
      (feed_ratio <- lift (div k (of_int 7)) ;;
       modify (fun s => set_upsilon (add (upsilon s) feed_ratio) s) ;;
       modify (fun s => set_beta (sub (beta s) feed_ratio) s))
  else
    u <- gets upsilon ;;
    b <- gets beta ;;
    new_upsilon <- lift (make (denominator b) (denominator u)) ;;
    new_beta <- lift (make (numerator u) (denominator b)) ;;
    modify (set_upsilon new_upsilon) ;;
    modify (set_beta new_beta).

(** [apply_propagation_engine()]: QUIET adds and subtracts a eleventh of
    the difference, every other engine type the difference itself. *)
Definition apply_propagation_engine : M TRTS_Engine unit :=
  u <- gets upsilon ;;
  b <- gets beta ;;
  let diff := sub u b in
  e <- gets engine_mode ;;
  match e with
  | ENGINE_QUIET_ADDITIVE =>
      q <- lift (div diff (of_int 11)) ;;
      modify (fun s => set_upsilon (add (upsilon s) q) s) ;;
      q' <- lift (div diff (of_int 11)) ;;
      modify (fun s => set_beta (sub (beta s) q') s)
  | _ =>
      modify (fun s => set_upsilon (add (upsilon s) diff) s) ;;
      modify (fun s => set_beta (sub (beta s) diff) s)
  end.

(** [update_koppa(trigger)]: the case label of DUMP falls into the
    statement of ACCUMULATE. *)
Definition update_koppa (trigger : Z) : M TRTS_Engine unit :=
  u <- gets upsilon ;;
  b <- gets beta ;;
  let differential := sub u b in
  km <- gets koppa_mode ;;
  match km with
  | KOPPA_ACCUMULATE | KOPPA_DUMP =>
      modify (fun s => set_koppa (add (koppa s) differential) s)
  | KOPPA_RATIO_FEED =>
      k <- gets koppa ;;
      when (eq_int k 0) (modify (set_koppa (of_int 1))) ;;
      u <- gets upsilon ;;
      b <- gets beta ;;
      q <- lift (div u b) ;;
      k <- gets koppa ;;
      modify (set_koppa (mul k q))
  end.

(** The value of the local [should_transform] after its three tests. *)
Definition should_transform (s : TRTS_Engine) : bool :=
  let st := false in
  let st := if PsiBehavior_eqb (psi_mode s) PSI_FORCED && (microtick s =? 11)
            then true else st in
  let st := if PsiBehavior_eqb (psi_mode s) PSI_RHO_TRIGGERED && (rho s >? 0)
            then true else st in
  if PsiBehavior_eqb (psi_mode s) PSI_DUAL_RECIPROCAL
     && ((microtick s =? 11) || (rho s >? 0))
  then true else st.

(** The three blocks of [process_microtick()], each under its flag; the
    flags are computed once from the incremented microtick [m]. *)
Definition emission_block (m : Z) : M TRTS_Engine unit :=
  let is_emission := (m =? 1) || (m =? 4) || (m =? 7) || (m =? 10) in
  when is_emission
    (p <- gets is_prime_trigger ;;
     when p (modify (set_rho 1)) ;;
     r <- gets rho ;;
     when (r >? 0) (update_koppa r)).

Definition propagation_block (m : Z) : M TRTS_Engine unit :=
  let is_propagation := (m =? 3) || (m =? 6) || (m =? 9) in
  when is_propagation apply_propagation_engine.

Definition transformation_block (m : Z) : M TRTS_Engine unit :=
  let is_transformation_point :=
    (m =? 2) || (m =? 5) || (m =? 8) || (m =? 11) in
  when is_transformation_point
    (st <- gets should_transform ;;
     when st psi_transform).

(** [process_microtick()]: [microtick++] with no wrap to 1. *)
Definition process_microtick : M TRTS_Engine unit :=
  modify (fun s => set_microtick (int_wrap (microtick s + 1)) s) ;;
  modify (set_rho 0) ;;
  m <- gets microtick ;;
  emission_block m ;;
  propagation_block m ;;
  transformation_block m.

(** [execute_step(total_microticks = 11)] *)
Definition execute_step (total_microticks : Z) : M TRTS_Engine unit :=
  repeat_m (Z.to_nat total_microticks) process_microtick.

(** The loop of the command-line program: [ticks] calls of
    [execute_step()] after one [initialize_state()]. *)
Definition run_ticks (ticks : nat) : M TRTS_Engine unit :=
  repeat_m ticks (execute_step 11).

(** [c] does on the engine configured DUMP what it does on the engine
    configured ACCUMULATE. *)
Definition dump_as_accumulate {B : Type} (c : M TRTS_Engine B) : Prop :=
  forall s,
    c (set_koppa_mode KOPPA_DUMP s)
    = map_state (set_koppa_mode KOPPA_DUMP)
        (c (set_koppa_mode KOPPA_ACCUMULATE s)).

End Hardcore.

(** ** The engine of FIAT_LUX *)

Module FiatLux.

Import BoostRational Eff.
Local Open Scope eff_scope.

Inductive PsiBehavior : Type :=
  PSI_FORCED | PSI_RHO_TRIGGERED | PSI_DUAL_RECIPROCAL
| PSI_CRITICAL_IMBALANCE.

Inductive KoppaMode : Type := KOPPA_ACCUMULATE | KOPPA_DUMP | KOPPA_RATIO_FEED.

Inductive EngineType : Type :=
  ENGINE_ADDITIVE | ENGINE_MULTIPLICATIVE | ENGINE_ROTATIONAL
| ENGINE_QUIET_ADDITIVE.

Record TRTS_Engine : Type := mkEngine {
  upsilon : Rational;
  beta : Rational;
  koppa : Rational;
  upsilon_numerator_unreduced : Z;
  beta_numerator_unreduced : Z;
  rho : Z;
  microtick : Z;
  step : Z;
  psi_mode : PsiBehavior;
  koppa_mode : KoppaMode;
  engine_mode : EngineType
}.

Definition set_upsilon (v : Rational) (s : TRTS_Engine) : TRTS_Engine :=
  mkEngine v (beta s) (koppa s) (upsilon_numerator_unreduced s)
           (beta_numerator_unreduced s) (rho s) (microtick s) (step s)
           (psi_mode s) (koppa_mode s) (engine_mode s).

Definition set_beta (v : Rational) (s : TRTS_Engine) : TRTS_Engine :=
  mkEngine (upsilon s) v (koppa s) (upsilon_numerator_unreduced s)
           (beta_numerator_unreduced s) (rho s) (microtick s) (step s)
           (psi_mode s) (koppa_mode s) (engine_mode s).

Definition set_koppa (v : Rational) (s : TRTS_Engine) : TRTS_Engine :=
  mkEngine (upsilon s) (beta s) v (upsilon_numerator_unreduced s)
           (beta_numerator_unreduced s) (rho s) (microtick s) (step s)
           (psi_mode s) (koppa_mode s) (engine_mode s).

Definition set_upsilon_numerator_unreduced (v : Z) (s : TRTS_Engine)
  : TRTS_Engine :=
  mkEngine (upsilon s) (beta s) (koppa s) v
           (beta_numerator_unreduced s) (rho s) (microtick s) (step s)
           (psi_mode s) (koppa_mode s) (engine_mode s).

Definition set_rho (v : Z) (s : TRTS_Engine) : TRTS_Engine :=
  mkEngine (upsilon s) (beta s) (koppa s) (upsilon_numerator_unreduced s)
           (beta_numerator_unreduced s) v (microtick s) (step s)
           (psi_mode s) (koppa_mode s) (engine_mode s).

Definition set_microtick (v : Z) (s : TRTS_Engine) : TRTS_Engine :=
  mkEngine (upsilon s) (beta s) (koppa s) (upsilon_numerator_unreduced s)
           (beta_numerator_unreduced s) (rho s) v (step s)
           (psi_mode s) (koppa_mode s) (engine_mode s).

Definition set_step (v : Z) (s : TRTS_Engine) : TRTS_Engine :=
  mkEngine (upsilon s) (beta s) (koppa s) (upsilon_numerator_unreduced s)
           (beta_numerator_unreduced s) (rho s) (microtick s) v
           (psi_mode s) (koppa_mode s) (engine_mode s).

(** [update_koppa()]: the configured mode, no override; DUMP resets koppa
    to 1/1. *)
Definition update_koppa : M TRTS_Engine unit :=
  mode <- gets koppa_mode ;;
  match mode with
  | KOPPA_RATIO_FEED =>
      k <- gets koppa ;;
      when (eq_int k 0) (modify (set_koppa (of_int 1))) ;;
      u <- gets upsilon ;;
      b <- gets beta ;;
      q <- lift (div u b) ;;
      k <- gets koppa ;;
      modify (set_koppa (mul k q))
  | KOPPA_ACCUMULATE =>
      modify (fun s => set_koppa (add (koppa s) (sub (upsilon s) (beta s))) s)
  | KOPPA_DUMP => modify (set_koppa (of_int 1))
  end.

(** [apply_propagation_engine()]; the divisions of the [cpp_int] expression
    truncate. *)
Definition apply_propagation_engine : M TRTS_Engine unit :=
  u <- gets upsilon ;;
  b <- gets beta ;;
  let diff := sub u b in
  q <- lift (div diff (of_int 11)) ;;
  modify (fun s => set_upsilon (add (upsilon s) q) s) ;;
  q <- lift (div diff (of_int 11)) ;;
  modify (fun s => set_beta (sub (beta s) q) s) ;;
  modify (fun s =>
            set_upsilon_numerator_unreduced
              (Z.quot (upsilon_numerator_unreduced s * 11
                       + Z.quot (numerator diff * 11) (denominator diff))
                      11) s).

Section Engine.

(** The file declares these two and does not define them. *)
Variable is_miller_rabin_prime : Z -> bool.
Variable psi_transform : M TRTS_Engine unit.

Definition is_prime_trigger : M TRTS_Engine bool :=
  num <- gets upsilon_numerator_unreduced ;;
  let num := if num <? 0 then - num else num in
  ret (is_miller_rabin_prime num).

(** The emission block, under the flag [is_emission]. *)
Definition emission_block (m : Z) : M TRTS_Engine unit :=
  let is_emission := (m =? 1) || (m =? 4) || (m =? 7) || (m =? 10) in
  when is_emission
    (p <- is_prime_trigger ;;
     when p (modify (set_rho 1)) ;;
     r <- gets rho ;;
     when (r >? 0) update_koppa).

(** The propagation block, under the flag [is_propagation]. *)
Definition propagation_block (m : Z) : M TRTS_Engine unit :=
  let is_propagation := (m =? 3) || (m =? 6) || (m =? 9) in
  when is_propagation apply_propagation_engine.

(** The transformation block, under the flag [is_transformation_point]. *)
Definition transformation_block (m : Z) : M TRTS_Engine unit :=
  let is_transformation_point :=
    (m =? 2) || (m =? 5) || (m =? 8) || (m =? 11) in
  when is_transformation_point
    (r <- gets rho ;;
     if r >? 0 then psi_transform
     else m' <- gets microtick ;; when (m' =? 11) psi_transform).

(** [if (microtick == 11) { microtick = 0; step++; }] *)
Definition close_tick : M TRTS_Engine unit :=
  m' <- gets microtick ;;
  when (m' =? 11)
    (modify (set_microtick 0) ;;
     modify (fun s => set_step (int_wrap (step s + 1)) s)).

(** [process_microtick()]: the three flags are computed once, from the
    microtick after the increment. *)
Definition process_microtick : M TRTS_Engine unit :=
  modify (fun s => set_microtick (int_wrap (microtick s + 1)) s) ;;
  modify (set_rho 0) ;;
  m <- gets microtick ;;
  emission_block m ;;
  propagation_block m ;;
  transformation_block m ;;
  close_tick.

End Engine.

(** The dual-reciprocal transform as the trts-c engine writes it, for runs
    of this engine. *)
Definition psi_dual : M TRTS_Engine unit :=
  temp <- gets upsilon ;;
  k <- gets koppa ;;
  b <- gets beta ;;
  q <- lift (div k b) ;;
  modify (set_upsilon q) ;;
  k <- gets koppa ;;
  q' <- lift (div temp k) ;;
  modify (set_beta q').

(** An engine at the start of a tick, seeds 19/7 and 89/11. *)
Definition seeded_engine : TRTS_Engine :=
  mkEngine (mkRational 19 7) (mkRational 89 11) (of_int 1) 19 89 0 0 0
           PSI_DUAL_RECIPROCAL KOPPA_RATIO_FEED ENGINE_QUIET_ADDITIVE.

End FiatLux.

(** ** The C engine of the "complete specification" *)

Module CompleteSpec.

(** [typedef struct { int64_t num; int64_t den; } Rational;] *)
Record Rational : Type := mkRational { num : Z; den : Z }.

Inductive PsiBehavior : Type := PSI_FORCED | PSI_RHO | PSI_MU | PSI_RHO_MSTEP.
Inductive KoppaMode : Type := KOPPA_DUMP | KOPPA_ACCUMULATE | KOPPA_POP.
Inductive EngineType : Type :=
  ENGINE_ADDITIVE | ENGINE_MULTIPLICATIVE | ENGINE_ROTATIONAL.

(** [TRTS_State] *)
Record TRTS_State : Type := mkState {
  upsilon : Rational;
  beta : Rational;
  koppa : Rational;
  rho : Z;
  microtick : Z;
  step : Z;
  current_role : Z;
  emission_count : list Z;
  psi_behavior : PsiBehavior;
  koppa_mode : KoppaMode;
  engine_type : EngineType
}.

Definition with_pair (u b : Rational) (s : TRTS_State) : TRTS_State :=
  mkState u b (koppa s) (rho s) (microtick s) (step s) (current_role s)
          (emission_count s) (psi_behavior s) (koppa_mode s) (engine_type s).

(** [apply_propagation_engine(state)]: the four fields are assigned in the
    order of the source, so beta reads the new upsilon in the first two
    cases. *)
Definition apply_propagation_engine (s : TRTS_State) : TRTS_State :=
  let u := upsilon s in
  let b := beta s in
  match engine_type s with
  | ENGINE_ADDITIVE =>
      let u_num := int64_wrap (num u + num b) in
      let u_den := int64_wrap (den u + den b) in
      let b_num := int64_wrap (num b + u_num) in
      let b_den := int64_wrap (den b + u_den) in
      with_pair (mkRational u_num u_den) (mkRational b_num b_den) s
  | ENGINE_MULTIPLICATIVE =>
      let u_num := int64_wrap (num u * num b) in
      let u_den := int64_wrap (den u * den b) in
      let b_num := int64_wrap (num b * u_num) in
      let b_den := int64_wrap (den b * u_den) in
      with_pair (mkRational u_num u_den) (mkRational b_num b_den) s
  | ENGINE_ROTATIONAL =>
      let temp_num := num u in
      let temp_den := den u in
      let u_num := den b in
      let u_den := num b in
      let b_num := temp_den in
      let b_den := temp_num in
      with_pair (mkRational u_num u_den) (mkRational b_num b_den) s
  end.

Definition KoppaMode_eqb (a b : KoppaMode) : bool :=
  match a, b with
  | KOPPA_DUMP, KOPPA_DUMP => true
  | KOPPA_ACCUMULATE, KOPPA_ACCUMULATE => true
  | KOPPA_POP, KOPPA_POP => true
  | _, _ => false
  end.

Definition set_koppa (v : Rational) (s : TRTS_State) : TRTS_State :=
  mkState (upsilon s) (beta s) v (rho s) (microtick s) (step s)
          (current_role s) (emission_count s) (psi_behavior s) (koppa_mode s)
          (engine_type s).

Definition set_rho (v : Z) (s : TRTS_State) : TRTS_State :=
  mkState (upsilon s) (beta s) (koppa s) v (microtick s) (step s)
          (current_role s) (emission_count s) (psi_behavior s) (koppa_mode s)
          (engine_type s).

Definition set_microtick (v : Z) (s : TRTS_State) : TRTS_State :=
  mkState (upsilon s) (beta s) (koppa s) (rho s) v (step s)
          (current_role s) (emission_count s) (psi_behavior s) (koppa_mode s)
          (engine_type s).

Definition set_step (v : Z) (s : TRTS_State) : TRTS_State :=
  mkState (upsilon s) (beta s) (koppa s) (rho s) (microtick s) v
          (current_role s) (emission_count s) (psi_behavior s) (koppa_mode s)
          (engine_type s).

Definition set_current_role (v : Z) (s : TRTS_State) : TRTS_State :=
  mkState (upsilon s) (beta s) (koppa s) (rho s) (microtick s) (step s)
          v (emission_count s) (psi_behavior s) (koppa_mode s)
          (engine_type s).

Definition set_emission_count (v : list Z) (s : TRTS_State) : TRTS_State :=
  mkState (upsilon s) (beta s) (koppa s) (rho s) (microtick s) (step s)
          (current_role s) v (psi_behavior s) (koppa_mode s)
          (engine_type s).

(** [psi_transform_correct(&state->upsilon, &state->beta)]: the new pair
    is assigned under the product test. *)
Definition psi_transform_correct (s : TRTS_State) : TRTS_State :=
  let u := upsilon s in
  let b := beta s in
  let new_upsilon := mkRational (den b) (num u) in
  let new_beta := mkRational (den u) (num b) in
  let left_product_num := int64_wrap (num u * num b) in
  let left_product_den := int64_wrap (den u * den b) in
  let right_product_num := int64_wrap (num new_upsilon * num new_beta) in
  let right_product_den := int64_wrap (den new_upsilon * den new_beta) in
  if int64_wrap (left_product_num * right_product_num)
     =? int64_wrap (left_product_den * right_product_den)
  then with_pair new_upsilon new_beta s
  else s.

(** [for (int64_t i = 3; i * i <= abs_n; i += 2)] of [external_is_prime],
    entered with [i]: [false] at the first [i] that divides [abs_n], [true]
    when the loop is left.  The test [i * i <= abs_n] ends the loop within
    sqrt(abs_n) iterations; [bound] is that number. *)
Fixpoint odd_divisor_loop (bound : nat) (abs_n i : Z) : bool :=
  match bound with
  | O => true
  | S bound' =>
      if int64_wrap (i * i) <=? abs_n then
        if Z.rem abs_n i =? 0 then false
        else odd_divisor_loop bound' abs_n (int64_wrap (i + 2))
      else true
  end.

(** [external_is_prime(n)]: the three early returns come before
    [llabs]. *)
Definition external_is_prime (n : Z) : bool :=
  if n <? 2 then false
  else if n =? 2 then true
  else if Z.rem n 2 =? 0 then false
  else
    let abs_n := Z.abs n in
    odd_divisor_loop (Z.to_nat (Z.sqrt abs_n)) abs_n 3.

(** [update_koppa(state, emission_value)] *)
Definition update_koppa (emission_value : Z) (s : TRTS_State) : TRTS_State :=
  let k := koppa s in
  let accumulated := mkRational (int64_wrap (num k + emission_value)) (den k) in
  let s :=
    match koppa_mode s with
    | KOPPA_DUMP =>
        if microtick s =? 1
        then set_koppa (mkRational emission_value 1) s
        else set_koppa accumulated s
    | KOPPA_ACCUMULATE => set_koppa accumulated s
    | KOPPA_POP =>
        if Z.rem (step s) 2 =? 0
        then set_koppa accumulated s
        else set_koppa
               (mkRational (Z.quot (int64_wrap (num k + emission_value)) 2)
                           (den k)) s
    end in
  if den (koppa s) =? 0
  then set_koppa (mkRational (num (koppa s)) 1) s
  else s.

(** [static const int64_t FIB_PRIMES[]] *)
Definition FIB_PRIMES : list Z := [2; 3; 5; 13; 89; 233; 1597].

Definition fib_prime (idx : Z) : Z := nth (Z.to_nat idx) FIB_PRIMES 0.

(** [initialize_state(state, step)] *)
Definition initialize_state (step_arg : Z) (s : TRTS_State) : TRTS_State :=
  let prime_idx := Z.rem step_arg 7 in
  let u := mkRational (fib_prime prime_idx)
                      (fib_prime (Z.rem (prime_idx + 1) 7)) in
  let b := mkRational (fib_prime (Z.rem (prime_idx + 2) 7))
                      (fib_prime (Z.rem (prime_idx + 3) 7)) in
  let s := with_pair u b s in
  let s := if KoppaMode_eqb (koppa_mode s) KOPPA_DUMP || (step_arg =? 0)
           then set_koppa (mkRational 1 1) s else s in
  set_step step_arg (set_rho 0 s).

(** The codes of ['E'], ['M'] and ['R']. *)
Definition role_E : Z := 69.
Definition role_M : Z := 77.
Definition role_R : Z := 82.

(** [state->emission_count[current_role == 'E' ? 0 :
    (current_role == 'M' ? 1 : 2)]++] *)
Definition count_emission (s : TRTS_State) : TRTS_State :=
  let idx := if current_role s =? role_E then 0%nat
             else if current_role s =? role_M then 1%nat else 2%nat in
  let counts := emission_count s in
  set_emission_count
    (firstn idx counts
     ++ match nth_error counts idx with
        | Some c => int_wrap (c + 1) :: skipn (Datatypes.S idx) counts
        | None => []
        end) s.

(** The EPSILON block: prime detection, forced emission at microtick 10,
    koppa update. *)
Definition epsilon_block (s : TRTS_State) : TRTS_State :=
  let prime_num := external_is_prime (num (upsilon s)) in
  let prime_den := external_is_prime (den (upsilon s)) in
  let s :=
    if prime_num || prime_den
    then count_emission
           (set_rho (if prime_num && prime_den then 3
                     else if prime_num then 1 else 2) s)
    else s in
  let s :=
    if (microtick s =? 10) && (rho s =? 0)
    then count_emission (set_rho 4 s)
    else s in
  if rho s >? 0 then update_koppa (rho s) s else s.

(** Rho after the EPSILON block, as its two assignments compute it from
    the two tests, the microtick and the old rho. *)
Definition epsilon_rho (prime_num prime_den : bool) (m r : Z) : Z :=
  let r := if prime_num || prime_den
           then (if prime_num && prime_den then 3
                 else if prime_num then 1 else 2)
           else r in
  if (m =? 10) && (r =? 0) then 4 else r.

(** The MU block; its [printf] at microtick 11 changes nothing of the
    state. *)
Definition mu_block (s : TRTS_State) : TRTS_State :=
  let should_transform :=
    match psi_behavior s with
    | PSI_FORCED => microtick s =? 11
    | PSI_RHO => rho s >? 0
    | PSI_MU => true
    | PSI_RHO_MSTEP =>
        (rho s >? 0) || ((microtick s =? 5) || (microtick s =? 8))
    end in
  if should_transform then psi_transform_correct s else s.

(** [process_microtick_complete(state)] *)
Definition process_microtick_complete (s : TRTS_State) : TRTS_State :=
  let s :=
    set_current_role
      (if microtick s <=? 4 then role_E
       else if microtick s <=? 8 then role_M else role_R) s in
  let m := microtick s in
  let is_epsilon := (m =? 1) || (m =? 4) || (m =? 7) || (m =? 10) in
  let is_mu := (m =? 2) || (m =? 5) || (m =? 8) || (m =? 11) in
  let is_phi := (m =? 3) || (m =? 6) || (m =? 9) in
  let s := if is_epsilon then epsilon_block s else s in
  let s := if is_phi then apply_propagation_engine s else s in
  if is_mu then mu_block s else s.

(** [for (state.microtick = 1; state.microtick <= 11; state.microtick++)
    process_microtick_complete(&state);] entered after the assignment of 1;
    the body leaves the microtick alone, so eleven iterations leave the
    loop. *)
Fixpoint microtick_loop (count : nat) (s : TRTS_State) : TRTS_State :=
  match count with
  | O => s
  | S count' =>
      if microtick s <=? 11
      then
        let s := process_microtick_complete s in
        microtick_loop count' (set_microtick (int_wrap (microtick s + 1)) s)
      else s
  end.

(** One tick of [main] and of the test suite: [initialize_state(&state,
    tick)] and the loop over the microticks. *)
Definition run_tick (tick : Z) (s : TRTS_State) : TRTS_State :=
  microtick_loop 11 (set_microtick 1 (initialize_state tick s)).

End CompleteSpec.

(** ** The C engine of [trtssm.c] *)

Module SmModel.

Import CompleteSpec.

(** [TRTS_State] of this file: no emission counts, no configuration. *)
Record TRTS_State : Type := mkState {
  upsilon : Rational;
  beta : Rational;
  koppa : Rational;
  rho : Z;
  microtick : Z;
  step : Z;
  current_role : Z
}.

(** [psi_transform(&state->upsilon, &state->beta)]: the four new fields
    are assigned under the product test. *)
Definition psi_transform (s : TRTS_State) : TRTS_State :=
  let u := upsilon s in
  let b := beta s in
  let new_upsilon_num := int64_wrap (int64_wrap (num u * 2) + den b) in
  let new_upsilon_den := int64_wrap (den u * 2) in
  let new_beta_num := int64_wrap (num b * 2) in
  let new_beta_den := int64_wrap (int64_wrap (den b * 2) + num u) in
  let orig_product_num := int64_wrap (num u * num b) in
  let orig_product_den := int64_wrap (den u * den b) in
  let new_product_num := int64_wrap (new_upsilon_num * new_beta_num) in
  let new_product_den := int64_wrap (new_upsilon_den * new_beta_den) in
  if int64_wrap (orig_product_num * new_product_den)
     =? int64_wrap (new_product_num * orig_product_den)
  then mkState (mkRational new_upsilon_num new_upsilon_den)
               (mkRational new_beta_num new_beta_den)
               (koppa s) (rho s) (microtick s) (step s) (current_role s)
  else s.

(** [initialize_fibonacci_prime_seeds(state)] *)
Definition initialize_fibonacci_prime_seeds (s : TRTS_State) : TRTS_State :=
  let prime_idx := Z.rem (step s) 7 in
  mkState (mkRational (fib_prime prime_idx)
                      (fib_prime (Z.rem (prime_idx + 1) 7)))
          (mkRational (fib_prime (Z.rem (prime_idx + 2) 7))
                      (fib_prime (Z.rem (prime_idx + 3) 7)))
          (mkRational 1 1) 0 (microtick s) (step s) (current_role s).

Definition set_rho (v : Z) (s : TRTS_State) : TRTS_State :=
  mkState (upsilon s) (beta s) (koppa s) v (microtick s) (step s)
          (current_role s).

Definition set_koppa (v : Rational) (s : TRTS_State) : TRTS_State :=
  mkState (upsilon s) (beta s) v (rho s) (microtick s) (step s)
          (current_role s).

Definition set_microtick (v : Z) (s : TRTS_State) : TRTS_State :=
  mkState (upsilon s) (beta s) (koppa s) (rho s) v (step s)
          (current_role s).

Definition set_step (v : Z) (s : TRTS_State) : TRTS_State :=
  mkState (upsilon s) (beta s) (koppa s) (rho s) (microtick s) v
          (current_role s).

(** [process_microtick(state)]; what it prints is left out.  The test is
    [external_is_prime] of this file, the same text as in the "complete
    specification" engine. *)
Definition process_microtick (s : TRTS_State) : TRTS_State :=
  let s :=
    mkState (upsilon s) (beta s) (koppa s) (rho s) (microtick s) (step s)
            (if microtick s <=? 4 then role_E
             else if microtick s <=? 8 then role_M else role_R) in
  let m := microtick s in
  let is_epsilon := (m =? 1) || (m =? 4) || (m =? 7) || (m =? 10) in
  let is_mu := (m =? 2) || (m =? 5) || (m =? 8) || (m =? 11) in
  let is_phi := (m =? 3) || (m =? 6) || (m =? 9) in
  let s :=
    if is_epsilon then
      let prime_num := external_is_prime (num (upsilon s)) in
      let prime_den := external_is_prime (den (upsilon s)) in
      let s :=
        if prime_num || prime_den
        then set_rho (if prime_num && prime_den then 3
                      else if prime_num then 1 else 2) s
        else s in
      if (microtick s =? 10) && (rho s =? 0) then set_rho 4 s else s
    else s in
  let s :=
    if microtick s =? 11 then
      let s := psi_transform s in
      set_koppa (mkRational (int64_wrap (int64_wrap (num (koppa s) * 2) + rho s))
                            (int64_wrap (den (koppa s) * 2))) s
    else s in
  if is_mu || is_phi
  then set_koppa (mkRational (int64_wrap (num (koppa s) + rho s))
                             (den (koppa s))) s
  else s.

(** The microtick loop of [trts_propagation_loop()]. *)
Fixpoint microtick_loop (count : nat) (s : TRTS_State) : TRTS_State :=
  match count with
  | O => s
  | S count' =>
      if microtick s <=? 11
      then
        let s := process_microtick s in
        microtick_loop count' (set_microtick (int_wrap (microtick s + 1)) s)
      else s
  end.

(** One step of [trts_propagation_loop()], up to the line that prints the
    final values: [state.step = tick], the seeds, the eleven microticks. *)
Definition run_step (tick : Z) (s : TRTS_State) : TRTS_State :=
  microtick_loop 11
    (set_microtick 1 (initialize_fibonacci_prime_seeds (set_step tick s))).

End SmModel.

(** ** The output helper of the command-line programs *)

Module Cli.

Import Stdlib.Strings.String.
Local Open Scope string_scope.

(** [std::to_string] of a [size_t]: the decimal digits. *)
Definition to_string (n : nat) : string :=
  DecimalString.NilEmpty.string_of_uint (Nat.to_uint n).

(** [truncate(s)] *)
Definition truncate (s : string) : string :=
  if (60 <? length s)%nat
  then substring 0 30 s ++ "...(" ++ to_string (length s - 60)%nat
       ++ " digits)..." ++ substring (length s - 30)%nat 30 s
  else s.

End Cli.

(** * Properties *)

(** ** Wrap-around is the identity in range *)

Lemma int_wrap_id (z : Z) : int_range z -> int_wrap z = z.
Proof.
  unfold int_range, int_wrap. intros H.
  rewrite Z.mod_small by lia. lia.
Qed.

Lemma int64_wrap_id (z : Z) : int64_range z -> int64_wrap z = z.
Proof.
  unfold int64_range, int64_wrap. intros H.
  rewrite Z.mod_small by lia. lia.
Qed.

Lemma int_range_small (z : Z) : -1000 <= z <= 1000 -> int_range z.
Proof.
  unfold int_range. change (2 ^ 31) with 2147483648. lia.
Qed.

(** ** Frame and independence rules for member functions *)

Section EffFacts.

Import BoostRational Eff.

Context {S : Type}.

Lemma preserves_ret {A B : Type} (f : S -> A) (b : B) : preserves f (ret b).
Proof. intros s. reflexivity. Qed.

Lemma preserves_gets {A B : Type} (f : S -> A) (g : S -> B) :
  preserves f (gets g).
Proof. intros s. reflexivity. Qed.

Lemma preserves_lift {A B : Type} (f : S -> A) (x : except B) :
  preserves f (lift x).
Proof. intros s. destruct x; reflexivity. Qed.

Lemma preserves_modify {A : Type} (f : S -> A) (g : S -> S) :
  (forall s, f (g s) = f s) -> preserves f (modify g).
Proof. intros H s. apply H. Qed.

Lemma preserves_bind {A B C : Type} (f : S -> A) (c : M S B) (k : B -> M S C) :
  preserves f c -> (forall b, preserves f (k b)) -> preserves f (bind c k).
Proof.
  intros Hc Hk s. unfold bind.
  specialize (Hc s). destruct (c s) as [b s1 | e s1]; simpl in *.
  - rewrite Hk. exact Hc.
  - exact Hc.
Qed.

Lemma preserves_when {A : Type} (f : S -> A) (c : bool) (body : M S unit) :
  preserves f body -> preserves f (when c body).
Proof. intros H. destruct c; [exact H | apply preserves_ret]. Qed.

Lemma preserves_repeat_m {A : Type} (f : S -> A) (n : nat) (body : M S unit) :
  preserves f body -> preserves f (repeat_m n body).
Proof.
  intros H. induction n as [|n IH]; simpl.
  - apply preserves_ret.
  - apply preserves_bind; [exact H | intros _; exact IH].
Qed.

Lemma commutes_ret {B : Type} (g : S -> S) (b : B) : commutes_with g (ret b).
Proof. intros s. reflexivity. Qed.

Lemma commutes_gets {B : Type} (g : S -> S) (h : S -> B) :
  (forall s, h (g s) = h s) -> commutes_with g (gets h).
Proof. intros H s. unfold gets. simpl. rewrite H. reflexivity. Qed.

Lemma commutes_lift {B : Type} (g : S -> S) (x : except B) :
  commutes_with g (lift x).
Proof. intros s. destruct x; reflexivity. Qed.

Lemma commutes_modify (g h : S -> S) :
  (forall s, h (g s) = g (h s)) -> commutes_with g (modify h).
Proof. intros H s. unfold modify. simpl. rewrite H. reflexivity. Qed.

Lemma commutes_bind {B C : Type} (g : S -> S) (c : M S B) (k : B -> M S C) :
  commutes_with g c -> (forall b, commutes_with g (k b)) ->
  commutes_with g (bind c k).
Proof.
  intros Hc Hk s. unfold bind. rewrite Hc.
  destruct (c s) as [b s1 | e s1]; simpl.
  - apply Hk.
  - reflexivity.
Qed.

Lemma commutes_when (g : S -> S) (c : bool) (body : M S unit) :
  commutes_with g body -> commutes_with g (when c body).
Proof. intros H. destruct c; [exact H | apply commutes_ret]. Qed.

Lemma commutes_repeat_m (g : S -> S) (n : nat) (body : M S unit) :
  commutes_with g body -> commutes_with g (repeat_m n body).
Proof.
  intros H. induction n as [|n IH]; simpl.
  - apply commutes_ret.
  - apply commutes_bind; [exact H | intros _; exact IH].
Qed.

Lemma maintains_ret {B : Type} (I : S -> Prop) (b : B) : maintains I (ret b).
Proof. intros s H. exact H. Qed.

Lemma maintains_gets {B : Type} (I : S -> Prop) (g : S -> B) :
  maintains I (gets g).
Proof. intros s H. exact H. Qed.

Lemma maintains_modify (I : S -> Prop) (g : S -> S) :
  (forall s, I s -> I (g s)) -> maintains I (modify g).
Proof. intros Hg s H. apply Hg, H. Qed.

Lemma maintains_bind {B C : Type} (I : S -> Prop) (c : M S B) (k : B -> M S C) :
  maintains I c -> (forall b, maintains I (k b)) -> maintains I (bind c k).
Proof.
  intros Hc Hk s H. unfold bind. specialize (Hc s H).
  destruct (c s) as [b s1 | e s1]; simpl in *.
  - apply Hk, Hc.
  - exact Hc.
Qed.

Lemma maintains_when (I : S -> Prop) (c : bool) (body : M S unit) :
  maintains I body -> maintains I (when c body).
Proof. intros H. destruct c; [exact H | apply maintains_ret]. Qed.

Lemma maintains_repeat_m (I : S -> Prop) (n : nat) (body : M S unit) :
  maintains I body -> maintains I (repeat_m n body).
Proof.
  intros H. induction n as [|n IH]; simpl.
  - apply maintains_ret.
  - apply maintains_bind; [exact H | intros _; exact IH].
Qed.

End EffFacts.

(** Unfolds the plumbing of member functions, leaving the rational
    operations and the tests. *)
Ltac run :=
  cbv beta iota zeta delta
    [Eff.bind Eff.ret Eff.gets Eff.modify Eff.lift Eff.when Eff.final_state
     Eff.returned Eff.map_state].

(** Proves that a member function built from reads, writes of other
    members and rational operations leaves an observation alone. *)
Ltac frame :=
  repeat first
    [ apply preserves_ret
    | apply preserves_gets
    | apply preserves_lift
    | apply preserves_when
    | apply preserves_bind; [| intros ?]
    | apply preserves_modify; intros []; reflexivity
    | match goal with
      | |- Eff.preserves _ (if ?c then _ else _) => destruct c
      end ].

(** Proves that a member function does not read what [g] changes. *)
Ltac indep :=
  repeat first
    [ apply commutes_ret
    | apply commutes_lift
    | apply commutes_when
    | apply commutes_gets; intros []; reflexivity
    | apply commutes_modify; intros []; reflexivity
    | apply commutes_bind; [| intros ?]
    | match goal with
      | |- Eff.commutes_with _ (if ?c then _ else _) => destruct c
      end ].

(** ** The trts-c engine *)

Section TrtsCFacts.

Import BoostRational Eff TrtsC.
Local Open Scope eff_scope.

Variable isPrime : Z -> bool.

Lemma KappaMode_eqb_eq (a b : KappaMode) : KappaMode_eqb a b = true <-> a = b.
Proof. destruct a, b; simpl; split; congruence. Qed.

(** Division by [Rational(11, 1)] never throws. *)
Lemma div_eleven (r : Rational) :
  div r (of_int 11)
  = Ok (normalize (numerator r * 1) (denominator r * 11)).
Proof. reflexivity. Qed.

(** *** What each member function leaves alone *)

Lemma update_koppa_frame {A : Type} (f : TRTS_Engine -> A) (trigger : Z) :
  (forall v s, f (set_koppa v s) = f s) -> preserves f (update_koppa trigger).
Proof.
  intros Hf. unfold update_koppa.
  destruct (trigger =? 0); [apply preserves_ret|].
  repeat first
    [ apply preserves_ret | apply preserves_gets | apply preserves_lift
    | apply preserves_when
    | apply preserves_bind; [| intros ?]
    | apply preserves_modify; intros s; apply Hf
    | match goal with
      | |- preserves _ (if ?c then _ else _) => destruct c
      end ].
Qed.

Lemma apply_propagation_engine_rho : preserves rho apply_propagation_engine.
Proof. unfold apply_propagation_engine. frame. Qed.

Lemma apply_propagation_engine_microtick :
  preserves microtick apply_propagation_engine.
Proof. unfold apply_propagation_engine. frame. Qed.

Lemma apply_propagation_engine_step : preserves step apply_propagation_engine.
Proof. unfold apply_propagation_engine. frame. Qed.

Lemma apply_propagation_engine_kappa :
  preserves kappa_mode_default apply_propagation_engine.
Proof. unfold apply_propagation_engine. frame. Qed.

Lemma psi_transform_rho : preserves rho psi_transform.
Proof. unfold psi_transform. frame. Qed.

Lemma psi_transform_microtick : preserves microtick psi_transform.
Proof. unfold psi_transform. frame. Qed.

Lemma psi_transform_step : preserves step psi_transform.
Proof. unfold psi_transform. frame. Qed.

Lemma psi_transform_kappa : preserves kappa_mode_default psi_transform.
Proof. unfold psi_transform. frame. Qed.

Lemma propagation_phase_frame {A : Type} (f : TRTS_Engine -> A) :
  preserves f apply_propagation_engine -> preserves f propagation_phase.
Proof.
  intros H. unfold propagation_phase.
  apply preserves_bind; [apply preserves_gets | intros m].
  apply preserves_when, H.
Qed.

Lemma transformation_phase_frame {A : Type} (f : TRTS_Engine -> A) :
  preserves f psi_transform -> preserves f transformation_phase.
Proof.
  intros H. unfold transformation_phase.
  apply preserves_bind; [apply preserves_gets | intros m].
  apply preserves_when.
  apply preserves_bind; [apply preserves_gets | intros st].
  apply preserves_when, H.
Qed.

Lemma emission_phase_frame {A : Type} (f : TRTS_Engine -> A) :
  (forall v s, f (set_koppa v s) = f s) ->
  (forall v s, f (set_rho v s) = f s) ->
  preserves f (emission_phase isPrime).
Proof.
  intros Hk Hr. unfold emission_phase, is_prime_trigger.
  repeat first
    [ apply preserves_ret | apply preserves_gets
    | apply preserves_when
    | apply update_koppa_frame; exact Hk
    | apply preserves_bind; [| intros ?]
    | apply preserves_modify; intros s; apply Hr ].
Qed.

(** *** The opening assignments *)

Lemma advance_counters_run (s : TRTS_Engine) :
  advance_counters s = Returned tt (advanced s).
Proof. reflexivity. Qed.

Lemma final_bind_preserved {A B C : Type} (f : TRTS_Engine -> A)
      (c : M TRTS_Engine B) (k : B -> M TRTS_Engine C) (s : TRTS_Engine) :
  (forall b, preserves f (k b)) ->
  f (final_state (bind c k s)) = f (final_state (c s)).
Proof.
  intros Hk. unfold bind. destruct (c s) as [b s1 | e s1]; simpl.
  - apply Hk.
  - reflexivity.
Qed.

Lemma abs_by_negation (z : Z) : (if z <? 0 then - z else z) = Z.abs z.
Proof. destruct (Z.ltb_spec z 0); lia. Qed.

(** *** The three phases exclude each other *)

Lemma emission_not_propagation (m : Z) :
  is_emission_point m = true -> is_propagation_point m = false.
Proof.
  unfold is_emission_point, is_propagation_point. intros H.
  repeat (apply orb_true_iff in H; destruct H as [H | H]);
    apply Z.eqb_eq in H; subst m; reflexivity.
Qed.

Lemma emission_not_transformation (m : Z) :
  is_emission_point m = true -> is_transformation_point m = false.
Proof.
  unfold is_emission_point, is_transformation_point. intros H.
  repeat (apply orb_true_iff in H; destruct H as [H | H]);
    apply Z.eqb_eq in H; subst m; reflexivity.
Qed.

Lemma is_emission_point_spec (m : Z) :
  is_emission_point m = true <-> m = 1 \/ m = 4 \/ m = 7 \/ m = 10.
Proof.
  unfold is_emission_point. rewrite !orb_true_iff, !Z.eqb_eq. tauto.
Qed.

(** *** The koppa update *)

Lemma update_koppa_refines (trigger : Z) (s : TRTS_Engine) :
  trigger <> 0 ->
  update_koppa trigger s
  = koppa_update_in_mode
      (effective_mode (microtick s) (kappa_mode_default s)) s.
Proof.
  intros Ht. unfold update_koppa, effective_mode.
  apply Z.eqb_neq in Ht. rewrite Ht. run.
  destruct (microtick s =? 7); [|destruct (microtick s =? 10);
    [|destruct ((microtick s =? 1) || (microtick s =? 4));
      [|destruct (kappa_mode_default s)]]];
    simpl; run;
    try destruct (eq_int (koppa s) 0); simpl;
    try destruct (div (upsilon s) (beta s)); reflexivity.
Qed.

Lemma effective_mode_at_emission (m : Z) (c c' : KappaMode) :
  is_emission_point m = true -> effective_mode m c = effective_mode m c'.
Proof.
  intros H. apply is_emission_point_spec in H.
  destruct H as [H | [H | [H | H]]]; subst m; reflexivity.
Qed.

Lemma koppa_update_in_mode_commutes (mode k : KappaMode) :
  commutes_with (set_kappa_mode_default k) (koppa_update_in_mode mode).
Proof.
  intros s. destruct s, mode; unfold koppa_update_in_mode; run; simpl.
  - reflexivity.
  - destruct (div _ _); reflexivity.
  - destruct (eq_int _ 0); simpl; destruct (div _ _); reflexivity.
Qed.

Lemma update_koppa_commutes_at_emission (trigger : Z) (k : KappaMode)
      (s : TRTS_Engine) :
  is_emission_point (microtick s) = true ->
  update_koppa trigger (set_kappa_mode_default k s)
  = map_state (set_kappa_mode_default k) (update_koppa trigger s).
Proof.
  intros He. destruct (Z.eq_dec trigger 0) as [-> | Ht].
  - reflexivity.
  - rewrite !update_koppa_refines by exact Ht.
    rewrite <- koppa_update_in_mode_commutes.
    destruct s; simpl in *.
    rewrite (effective_mode_at_emission _ k kappa_mode_default0 He).
    reflexivity.
Qed.

(** *** The emission phase *)

Lemma is_prime_trigger_run (s : TRTS_Engine) :
  is_prime_trigger isPrime s
  = Returned (isPrime (Z.abs (upsilon_num_unreduced s))) s.
Proof.
  unfold is_prime_trigger. run. do 2 f_equal.
  destruct (Z.ltb_spec (upsilon_num_unreduced s) 0); lia.
Qed.

Lemma emission_phase_off (s : TRTS_Engine) :
  is_emission_point (microtick s) = false ->
  emission_phase isPrime s = Returned tt s.
Proof. intros H. unfold emission_phase. run. rewrite H. reflexivity. Qed.

Lemma emission_phase_prime (s : TRTS_Engine) :
  is_emission_point (microtick s) = true ->
  isPrime (Z.abs (upsilon_num_unreduced s)) = true ->
  emission_phase isPrime s = update_koppa 1 (set_rho 1 s).
Proof.
  intros He Hp. unfold emission_phase.
  unfold bind, gets. rewrite He. unfold when at 1.
  rewrite is_prime_trigger_run, Hp. reflexivity.
Qed.

Lemma emission_phase_not_prime (s : TRTS_Engine) :
  isPrime (Z.abs (upsilon_num_unreduced s)) = false ->
  rho s = 0 ->
  emission_phase isPrime s = Returned tt s.
Proof.
  intros Hp Hr. unfold emission_phase.
  unfold bind, gets. destruct (is_emission_point (microtick s)); [|reflexivity].
  unfold when at 1. rewrite is_prime_trigger_run, Hp. simpl.
  rewrite Hr. reflexivity.
Qed.

(** *** One microtick *)

Lemma process_microtick_unfold (s : TRTS_Engine) :
  process_microtick isPrime s
  = (emission_phase isPrime ;; propagation_phase ;; transformation_phase)
      (advanced s).
Proof. reflexivity. Qed.

Lemma later_phases_microtick :
  preserves microtick
    (emission_phase isPrime ;; propagation_phase ;; transformation_phase).
Proof.
  apply preserves_bind; [apply emission_phase_frame; intros v []; reflexivity|].
  intros _. apply preserves_bind.
  - apply propagation_phase_frame, apply_propagation_engine_microtick.
  - intros _. apply transformation_phase_frame, psi_transform_microtick.
Qed.

Lemma later_phases_step :
  preserves step
    (emission_phase isPrime ;; propagation_phase ;; transformation_phase).
Proof.
  apply preserves_bind; [apply emission_phase_frame; intros v []; reflexivity|].
  intros _. apply preserves_bind.
  - apply propagation_phase_frame, apply_propagation_engine_step.
  - intros _. apply transformation_phase_frame, psi_transform_step.
Qed.

Lemma later_phases_kappa :
  preserves kappa_mode_default
    (emission_phase isPrime ;; propagation_phase ;; transformation_phase).
Proof.
  apply preserves_bind; [apply emission_phase_frame; intros v []; reflexivity|].
  intros _. apply preserves_bind.
  - apply propagation_phase_frame, apply_propagation_engine_kappa.
  - intros _. apply transformation_phase_frame, psi_transform_kappa.
Qed.

Lemma after_emission_rho :
  preserves rho (propagation_phase ;; transformation_phase).
Proof.
  apply preserves_bind.
  - apply propagation_phase_frame, apply_propagation_engine_rho.
  - intros _. apply transformation_phase_frame, psi_transform_rho.
Qed.

Lemma process_microtick_microtick (s : TRTS_Engine) :
  microtick (final_state (process_microtick isPrime s))
  = int_wrap (Z.rem (microtick s) 11 + 1).
Proof.
  rewrite process_microtick_unfold, later_phases_microtick. reflexivity.
Qed.

Lemma process_microtick_step (s : TRTS_Engine) :
  step (final_state (process_microtick isPrime s))
  = Z.quot (int_wrap (int_wrap (Z.rem (microtick s) 11 + 1) - 1)) 3.
Proof.
  rewrite process_microtick_unfold, later_phases_step. reflexivity.
Qed.

Lemma process_microtick_kappa (s : TRTS_Engine) :
  kappa_mode_default (final_state (process_microtick isPrime s))
  = kappa_mode_default s.
Proof.
  rewrite process_microtick_unfold, later_phases_kappa. reflexivity.
Qed.

(** At an emission microtick the two later phases do nothing. *)
Lemma process_microtick_at_emission (s : TRTS_Engine) :
  is_emission_point (microtick (advanced s)) = true ->
  process_microtick isPrime s = emission_phase isPrime (advanced s).
Proof.
  intros He. rewrite process_microtick_unfold. unfold bind at 1.
  pose proof (emission_phase_frame microtick
                (fun v s => match s with mkEngine _ _ _ _ _ _ _ _ _ _ _ => eq_refl end)
                (fun v s => match s with mkEngine _ _ _ _ _ _ _ _ _ _ _ => eq_refl end)
                (advanced s)) as Hm.
  destruct (emission_phase isPrime (advanced s)) as [[] s1 | e s1];
    [|reflexivity].
  change (microtick s1 = microtick (advanced s)) in Hm. rewrite <- Hm in He.
  unfold propagation_phase, transformation_phase. run.
  rewrite (emission_not_propagation _ He).
  rewrite (emission_not_transformation _ He). reflexivity.
Qed.

(** The value of rho when [process_microtick()] is over. *)
Lemma process_microtick_rho (s : TRTS_Engine) :
  rho (final_state (process_microtick isPrime s))
  = if is_emission_point (microtick (advanced s))
       && isPrime (Z.abs (upsilon_num_unreduced s))
    then 1 else 0.
Proof.
  rewrite process_microtick_unfold.
  rewrite final_bind_preserved by (intros _; apply after_emission_rho).
  destruct (is_emission_point (microtick (advanced s))) eqn:He.
  - change (upsilon_num_unreduced s)
      with (upsilon_num_unreduced (advanced s)).
    destruct (isPrime (Z.abs (upsilon_num_unreduced (advanced s)))) eqn:Hp.
    + rewrite (emission_phase_prime _ He Hp).
      rewrite update_koppa_frame by (intros v []; reflexivity).
      reflexivity.
    + rewrite (emission_phase_not_prime _ Hp eq_refl). reflexivity.
  - rewrite (emission_phase_off _ He). reflexivity.
Qed.

(** *** The configured koppa mode is not read *)

Lemma advance_counters_commutes (k : KappaMode) :
  commutes_with (set_kappa_mode_default k) advance_counters.
Proof. unfold advance_counters. indep. Qed.

Lemma apply_propagation_engine_commutes (k : KappaMode) :
  commutes_with (set_kappa_mode_default k) apply_propagation_engine.
Proof. unfold apply_propagation_engine. indep. Qed.

Lemma psi_transform_commutes (k : KappaMode) :
  commutes_with (set_kappa_mode_default k) psi_transform.
Proof. unfold psi_transform. indep. Qed.

Lemma propagation_phase_commutes (k : KappaMode) :
  commutes_with (set_kappa_mode_default k) propagation_phase.
Proof.
  unfold propagation_phase.
  apply commutes_bind; [apply commutes_gets; intros []; reflexivity|].
  intros m. apply commutes_when, apply_propagation_engine_commutes.
Qed.

Lemma transformation_phase_commutes (k : KappaMode) :
  commutes_with (set_kappa_mode_default k) transformation_phase.
Proof.
  unfold transformation_phase.
  apply commutes_bind; [apply commutes_gets; intros []; reflexivity|].
  intros m. apply commutes_when.
  apply commutes_bind; [apply commutes_gets; intros []; reflexivity|].
  intros st. apply commutes_when, psi_transform_commutes.
Qed.

Lemma emission_phase_run (s : TRTS_Engine) :
  emission_phase isPrime s
  = if is_emission_point (microtick s)
    then if isPrime (Z.abs (upsilon_num_unreduced s))
         then update_koppa 1 (set_rho 1 s)
         else if rho s >? 0 then update_koppa (rho s) s else Returned tt s
    else Returned tt s.
Proof.
  unfold emission_phase. unfold bind at 1. unfold gets at 1.
  destruct (is_emission_point (microtick s)); [|reflexivity].
  unfold when at 1. unfold bind at 1. rewrite is_prime_trigger_run.
  destruct (isPrime (Z.abs (upsilon_num_unreduced s))); [reflexivity|].
  run. destruct (rho s >? 0); reflexivity.
Qed.

Lemma emission_phase_commutes (k : KappaMode) :
  commutes_with (set_kappa_mode_default k) (emission_phase isPrime).
Proof.
  intros s. rewrite !emission_phase_run.
  change (microtick (set_kappa_mode_default k s)) with (microtick s).
  change (upsilon_num_unreduced (set_kappa_mode_default k s))
    with (upsilon_num_unreduced s).
  change (rho (set_kappa_mode_default k s)) with (rho s).
  destruct (is_emission_point (microtick s)) eqn:He; [|reflexivity].
  destruct (isPrime (Z.abs (upsilon_num_unreduced s))).
  - change (set_rho 1 (set_kappa_mode_default k s))
      with (set_kappa_mode_default k (set_rho 1 s)).
    apply update_koppa_commutes_at_emission. exact He.
  - destruct (rho s >? 0); [|reflexivity].
    apply update_koppa_commutes_at_emission. exact He.
Qed.

Lemma process_microtick_commutes (k : KappaMode) :
  commutes_with (set_kappa_mode_default k) (process_microtick isPrime).
Proof.
  unfold process_microtick.
  apply commutes_bind; [apply advance_counters_commutes | intros _].
  apply commutes_bind; [apply emission_phase_commutes | intros _].
  apply commutes_bind; [apply propagation_phase_commutes | intros _].
  apply transformation_phase_commutes.
Qed.

(** *** Rho and the prime trigger *)

(** C2. Whatever the starting engine and whether the call returns or
    throws: [process_microtick()] first moves the microtick and resets rho to
    zero, and then runs the three phases; at an emission microtick (1, 4, 7,
    10) rho ends non-zero (equal to 1) exactly when the primality test holds
    of the absolute value of the unreduced upsilon numerator, and only the
    emission phase writes it; at any other microtick the emission phase does
    nothing and rho is zero when the call is over. *)
Theorem rho_is_the_prime_trigger (s : TRTS_Engine) :
  let s' := final_state (process_microtick isPrime s) in
  let prime := isPrime (Z.abs (upsilon_num_unreduced s)) in
  (process_microtick isPrime s
   = (emission_phase isPrime ;; propagation_phase ;; transformation_phase)
       (advanced s)
   /\ rho (advanced s) = 0
   /\ microtick s' = microtick (advanced s)
   /\ preserves rho (propagation_phase ;; transformation_phase))
  /\ (is_emission_point (microtick s') = true ->
      rho s' = (if prime then 1 else 0)
      /\ (rho s' <> 0 <-> prime = true))
  /\ (is_emission_point (microtick s') = false ->
      emission_phase isPrime (advanced s) = Returned tt (advanced s)
      /\ rho s' = 0).
Proof.
  intros s' prime.
  assert (Hm : microtick s' = microtick (advanced s)).
  { unfold s'. rewrite process_microtick_microtick. reflexivity. }
  pose proof (process_microtick_rho s) as Hr. fold s' prime in Hr.
  rewrite <- Hm in Hr.
  split; [|split].
  - split; [reflexivity|]. split; [reflexivity|].
    split; [exact Hm | apply after_emission_rho].
  - intros He. rewrite Hr, He. simpl. split; [reflexivity|].
    destruct prime; split; congruence.
  - intros He. split.
    + apply emission_phase_off. rewrite <- Hm. exact He.
    + rewrite Hr, He. reflexivity.
Qed.

(** *** The effective koppa mode *)

(** C6. The koppa update called with a non-zero trigger is the update of the
    effective mode, a function of the microtick and the configured mode that
    is RATIO_FEED at 7, DUMP at 10 and ACCUMULATE at 1 and 4; a microtick
    that is an emission point with a prime trigger is exactly that update, on
    the engine with rho set; and neither the update nor the microtick
    changes the configured mode. *)
Theorem koppa_update_runs_under_effective_mode :
  (forall c,
      effective_mode 7 c = KAPPA_F /\ effective_mode 10 c = KAPPA_D
      /\ effective_mode 1 c = KAPPA_A /\ effective_mode 4 c = KAPPA_A)
  /\ (forall trigger s,
         trigger <> 0 ->
         update_koppa trigger s
         = koppa_update_in_mode
             (effective_mode (microtick s) (kappa_mode_default s)) s)
  /\ (forall s,
         is_emission_point (microtick (advanced s)) = true ->
         isPrime (Z.abs (upsilon_num_unreduced s)) = true ->
         process_microtick isPrime s
         = koppa_update_in_mode
             (effective_mode (microtick (advanced s)) (kappa_mode_default s))
             (set_rho 1 (advanced s)))
  /\ (forall trigger s,
         kappa_mode_default (final_state (update_koppa trigger s))
         = kappa_mode_default s)
  /\ (forall s,
         kappa_mode_default (final_state (process_microtick isPrime s))
         = kappa_mode_default s).
Proof.
  split; [intros c; repeat split|].
  split; [exact update_koppa_refines|].
  split.
  { intros s He Hp. rewrite (process_microtick_at_emission s He).
    rewrite (emission_phase_prime _ He Hp).
    rewrite update_koppa_refines by discriminate. reflexivity. }
  split.
  - intros trigger s. apply update_koppa_frame. intros v []; reflexivity.
  - exact process_microtick_kappa.
Qed.

(** *** DUMP *)

Lemma dump_run (trigger : Z) (s : TRTS_Engine) :
  trigger <> 0 ->
  effective_mode (microtick s) (kappa_mode_default s) = KAPPA_D ->
  update_koppa trigger s
  = match div (upsilon s) (beta s) with
    | Ok q => Returned tt (set_koppa q s)
    | Raise e => Thrown e s
    end.
Proof.
  intros Ht Hd. rewrite (update_koppa_refines _ _ Ht), Hd.
  unfold koppa_update_in_mode. run.
  destruct (div (upsilon s) (beta s)); reflexivity.
Qed.

(** C7. When the effective mode is DUMP: with a zero beta numerator the
    update throws [bad_rational] and the engine, koppa included, is as it
    was; with a non-zero one it returns, koppa of the engine after the call
    is upsilon / beta, every other member is as it was, and the result is
    the same whatever koppa held before. *)
Theorem dump_koppa_update (trigger : Z) (s : TRTS_Engine) :
  trigger <> 0 ->
  effective_mode (microtick s) (kappa_mode_default s) = KAPPA_D ->
  (numerator (beta s) = 0 ->
   update_koppa trigger s = Thrown bad_rational s
   /\ koppa (final_state (update_koppa trigger s)) = koppa s)
  /\ (numerator (beta s) <> 0 ->
      exists q s',
        div (upsilon s) (beta s) = Ok q
        /\ q = normalize (numerator (upsilon s) * denominator (beta s))
                         (denominator (upsilon s) * numerator (beta s))
        /\ update_koppa trigger s = Returned tt s'
        /\ koppa s' = q
        /\ upsilon s' = upsilon s
        /\ beta s' = beta s
        /\ upsilon_num_unreduced s' = upsilon_num_unreduced s
        /\ beta_num_unreduced s' = beta_num_unreduced s
        /\ rho s' = rho s
        /\ microtick s' = microtick s
        /\ step s' = step s
        /\ psi_mode s' = psi_mode s
        /\ kappa_mode_default s' = kappa_mode_default s
        /\ engine_mode s' = engine_mode s
        /\ s' = set_koppa q s
        /\ forall k,
            update_koppa trigger
              (mkEngine (upsilon s) (beta s) k (upsilon_num_unreduced s)
                        (beta_num_unreduced s) (rho s) (microtick s) (step s)
                        (psi_mode s) (kappa_mode_default s) (engine_mode s))
            = Returned tt s').
Proof.
  intros Ht Hd. split.
  - intros Hb.
    assert (Hrun : update_koppa trigger s = Thrown bad_rational s).
    { rewrite (dump_run _ _ Ht Hd). unfold div.
      apply Z.eqb_eq in Hb. rewrite Hb. reflexivity. }
    split; [exact Hrun | rewrite Hrun; reflexivity].
  - intros Hb. apply Z.eqb_neq in Hb.
    exists (normalize (numerator (upsilon s) * denominator (beta s))
                      (denominator (upsilon s) * numerator (beta s))).
    exists (mkEngine (upsilon s) (beta s)
              (normalize (numerator (upsilon s) * denominator (beta s))
                         (denominator (upsilon s) * numerator (beta s)))
              (upsilon_num_unreduced s) (beta_num_unreduced s) (rho s)
              (microtick s) (step s) (psi_mode s) (kappa_mode_default s)
              (engine_mode s)).
    split; [unfold div; rewrite Hb; reflexivity|].
    split; [reflexivity|].
    split; [rewrite (dump_run _ _ Ht Hd); unfold div; rewrite Hb;
            reflexivity|].
    do 12 (split; [reflexivity|]).
    intros k. rewrite dump_run; [| exact Ht | exact Hd].
    cbn [upsilon beta]. unfold div. rewrite Hb. reflexivity.
Qed.

Lemma dump_koppa_update_witness :
  let s := set_microtick 10 default_engine in
  let s0 := set_beta (mkRational 0 1) s in
  (1 <> 0
   /\ effective_mode (microtick s) (kappa_mode_default s) = KAPPA_D
   /\ numerator (beta s) <> 0 /\ numerator (beta s0) = 0)
  /\ (exists s',
         update_koppa 1 s = Returned tt s'
         /\ koppa s = mkRational 1 1
         /\ koppa s' = mkRational 209 623
         /\ upsilon s' = upsilon s /\ beta s' = beta s)
  /\ update_koppa 1 s0 = Thrown bad_rational s0.
Proof.
  intros s s0.
  split; [repeat split; discriminate|]. split.
  - destruct (dump_koppa_update 1 s) as [_ H];
      [discriminate | reflexivity |].
    destruct H as (q & s' & Hq & _ & Hrun & Hk & Hu & Hb & _);
      [discriminate|].
    exists s'. split; [exact Hrun|]. split; [reflexivity|].
    split; [|split; [exact Hu | exact Hb]].
    rewrite Hk. vm_compute in Hq. congruence.
  - apply (dump_koppa_update 1 s0); [discriminate | reflexivity | reflexivity].
Defined.

(** *** The configured koppa mode does not matter *)

(** C10. The configured default koppa mode is never read: run on the
    engine with any other configured mode, [process_microtick()], and any
    number of microticks, give the same return or the same exception and
    the same engine, up to that field; so two engines that differ only in
    the configured mode (equal once the field is set to the same value) end
    a microtick in engines that differ only in it. *)
Theorem configured_koppa_mode_is_never_read (k : KappaMode) (s : TRTS_Engine) :
  process_microtick isPrime (set_kappa_mode_default k s)
  = map_state (set_kappa_mode_default k) (process_microtick isPrime s)
  /\ (forall n,
         execute_tick isPrime n (set_kappa_mode_default k s)
         = map_state (set_kappa_mode_default k) (execute_tick isPrime n s))
  /\ (forall s2,
         set_kappa_mode_default k s = set_kappa_mode_default k s2 ->
         map_state (set_kappa_mode_default k) (process_microtick isPrime s)
         = map_state (set_kappa_mode_default k)
             (process_microtick isPrime s2)).
Proof.
  split; [|split].
  - apply process_microtick_commutes.
  - intros n. unfold execute_tick.
    apply commutes_repeat_m, process_microtick_commutes.
  - intros s2 H. rewrite <- !process_microtick_commutes, H. reflexivity.
Qed.

(** *** ROTATIONAL propagation *)

Lemma rotational_swaps (s : TRTS_Engine) :
  engine_mode s = ENG_R ->
  apply_propagation_engine s
  = Returned tt (set_beta (upsilon s) (set_upsilon (beta s) s)).
Proof.
  intros He. unfold apply_propagation_engine. run.
  rewrite div_eleven, He. reflexivity.
Qed.

(** C9. ROTATIONAL propagation always returns, with upsilon and beta
    exchanged and nothing else touched; two consecutive applications give
    back the starting engine, so the original (upsilon, beta) pair. *)
Theorem rotational_propagation_involution (s : TRTS_Engine) :
  engine_mode s = ENG_R ->
  (exists s1,
      apply_propagation_engine s = Returned tt s1
      /\ upsilon s1 = beta s /\ beta s1 = upsilon s
      /\ s1 = set_beta (upsilon s) (set_upsilon (beta s) s))
  /\ (apply_propagation_engine ;; apply_propagation_engine) s = Returned tt s.
Proof.
  intros He. split.
  - eexists. split; [apply (rotational_swaps s He)|]. repeat split.
  - unfold bind at 1. rewrite (rotational_swaps s He).
    rewrite rotational_swaps by exact He.
    destruct s; reflexivity.
Qed.

Lemma rotational_propagation_involution_witness :
  let s := set_engine_mode ENG_R default_engine in
  engine_mode s = ENG_R
  /\ (exists s1,
         apply_propagation_engine s = Returned tt s1
         /\ upsilon s1 = mkRational 89 11 /\ beta s1 = mkRational 19 7
         /\ s1 = set_beta (upsilon s) (set_upsilon (beta s) s))
  /\ (apply_propagation_engine ;; apply_propagation_engine) s = Returned tt s.
Proof.
  split; [reflexivity|].
  apply (rotational_propagation_involution
           (set_engine_mode ENG_R default_engine)).
  reflexivity.
Defined.

(** *** Initialisation *)

(** The claim of C5 fails as stated: on the engine the constructor builds,
    [initialize_state()] leaves step at 0 instead of incrementing it; and on
    an engine that has run a microtick it leaves microtick and rho at 1
    instead of zeroing them. *)
Lemma initialize_state_leaves_the_counters :
  let fresh := construct PSI_D KAPPA_A ENG_Q in
  let used := final_state (process_microtick is_miller_rabin_prime fresh) in
  let init := initialize_state (mkRational 19 7) (mkRational 89 11) in
  (step (final_state (init fresh)) = step fresh
   /\ step (final_state (init fresh)) <> step fresh + 1)
  /\ (microtick (final_state (init used)) = 1
      /\ rho (final_state (init used)) = 1
      /\ step (final_state (init used)) <> step used + 1).
Proof. vm_compute. repeat split; discriminate. Qed.

(** C5, amended. [initialize_state(u_seed, b_seed)] always returns; after
    it upsilon and beta are the seeds, koppa is 1/1 and the unreduced
    numerators are the seeds' numerators; microtick, rho, step and the three
    modes are what they were before the call, which on the engine the
    constructor builds means microtick 0, rho 0 and step 0. *)
Theorem initialize_state_postcondition
        (u_seed b_seed : Rational) (s : TRTS_Engine) :
  exists s',
    initialize_state u_seed b_seed s = Returned tt s'
    /\ upsilon s' = u_seed /\ beta s' = b_seed
    /\ koppa s' = mkRational 1 1
    /\ upsilon_num_unreduced s' = numerator u_seed
    /\ beta_num_unreduced s' = numerator b_seed
    /\ microtick s' = microtick s /\ rho s' = rho s /\ step s' = step s
    /\ psi_mode s' = psi_mode s
    /\ kappa_mode_default s' = kappa_mode_default s
    /\ engine_mode s' = engine_mode s
    /\ forall psi kappa engine,
        s = construct psi kappa engine ->
        microtick s' = 0 /\ rho s' = 0 /\ step s' = 0.
Proof.
  eexists. split; [reflexivity|].
  repeat (split; [reflexivity|]).
  intros psi kappa engine ->. repeat split.
Qed.

(** *** The microtick cycle *)

Lemma next_microtick_cycle (m : Z) :
  0 <= m <= 11 ->
  next_microtick m = (if m =? 11 then 1 else m + 1)
  /\ 1 <= next_microtick m <= 11.
Proof.
  intros Hm. unfold next_microtick.
  assert (Hr : Z.rem m 11 = if m =? 11 then 0 else m).
  { destruct (Z.eqb_spec m 11) as [-> | Hne]; [reflexivity|].
    apply Z.rem_small. lia. }
  rewrite Hr. destruct (Z.eqb_spec m 11).
  - split; [reflexivity | vm_compute; split; discriminate].
  - rewrite int_wrap_id by (apply int_range_small; lia). lia.
Qed.

Lemma execute_tick_counters (n : nat) (s s' : TRTS_Engine) :
  repeat_m n (process_microtick isPrime) s = Returned tt s' ->
  microtick s' = Nat.iter n next_microtick (microtick s)
  /\ (n <> O -> step s' = Z.quot (int_wrap (microtick s' - 1)) 3).
Proof.
  revert s. induction n as [|n IH]; intros s Hrun.
  - inversion Hrun. subst s'. split; [reflexivity | congruence].
  - simpl in Hrun. unfold bind in Hrun.
    pose proof (process_microtick_microtick s) as Hm.
    pose proof (process_microtick_step s) as Hs.
    destruct (process_microtick isPrime s) as [[] s1 | e s1];
      [|discriminate].
    simpl in Hm, Hs. destruct (IH s1 Hrun) as [IHm IHs].
    split.
    + rewrite IHm, Hm. fold (next_microtick (microtick s)).
      clear. induction n as [|n IHn]; [reflexivity|].
      simpl. rewrite IHn. reflexivity.
    + intros _. destruct n as [|n].
      * inversion Hrun. subst s'. rewrite Hs, Hm. reflexivity.
      * apply IHs. congruence.
Qed.

Lemma eleven_microticks_come_back (m : Z) :
  1 <= m <= 11 -> Nat.iter 11 next_microtick m = m.
Proof.
  intros Hm.
  assert (H : m = 1 \/ m = 2 \/ m = 3 \/ m = 4 \/ m = 5 \/ m = 6 \/ m = 7
              \/ m = 8 \/ m = 9 \/ m = 10 \/ m = 11) by lia.
  repeat (destruct H as [-> | H]; [vm_compute; reflexivity|]).
  subst m. vm_compute. reflexivity.
Qed.

(** The claim of C3 fails as stated: from the default engine, eleven
    microticks return with step 3, and twenty-two with step 3 again; step
    does not grow by one per eleven microticks. *)
Lemma step_is_not_a_tick_counter :
  exists s11 s22,
    execute_tick is_miller_rabin_prime 11 default_engine = Returned tt s11
    /\ execute_tick is_miller_rabin_prime 11 s11 = Returned tt s22
    /\ step default_engine = 0 /\ step s11 = 3 /\ step s22 = 3
    /\ step s11 <> step default_engine + 1
    /\ step s22 <> step s11 + 1.
Proof.
  eexists. eexists. split; [vm_compute; reflexivity|].
  split; [vm_compute; reflexivity|].
  vm_compute. repeat split; discriminate.
Qed.

(** From the constructor's 0 the eleventh microtick is 11. *)
Lemma eleven_microticks_from_zero : Nat.iter 11 next_microtick 0 = 11.
Proof. vm_compute. reflexivity. Qed.

(** C3, amended. From an engine whose microtick is in 0..11, one
    [process_microtick()], returning or throwing, moves microtick to the next
    value of the cycle 1, 2, ..., 11, 1 and sets step to (microtick - 1) / 3
    of the new microtick, a number in 0..3; eleven microticks that return
    bring microtick back to where it was when that was in 1..11, and to 11
    from the constructor's 0, and step to (microtick - 1) / 3 of that
    microtick, so step counts nothing. *)
Theorem microtick_cycles_and_step_follows (s : TRTS_Engine) :
  0 <= microtick s <= 11 ->
  let s' := final_state (process_microtick isPrime s) in
  microtick s' = (if microtick s =? 11 then 1 else microtick s + 1)
  /\ 1 <= microtick s' <= 11
  /\ step s' = Z.quot (microtick s' - 1) 3
  /\ 0 <= step s' <= 3
  /\ forall s11,
      execute_tick isPrime 11 s = Returned tt s11 ->
      microtick s11 = (if microtick s =? 0 then 11 else microtick s)
      /\ step s11 = Z.quot (microtick s11 - 1) 3.
Proof.
  intros Hm s'.
  destruct (next_microtick_cycle _ Hm) as [Hnext Hrange].
  assert (Hm' : microtick s' = next_microtick (microtick s))
    by apply process_microtick_microtick.
  assert (Hs' : step s' = Z.quot (microtick s' - 1) 3).
  { unfold s'. rewrite process_microtick_step.
    fold (next_microtick (microtick s)). rewrite <- Hm'.
    rewrite int_wrap_id by (apply int_range_small; lia). reflexivity. }
  split; [congruence|]. split; [lia|]. split; [exact Hs'|]. split.
  - rewrite Hs'. split.
    + apply Z.quot_pos; lia.
    + assert (Z.quot (microtick s' - 1) 3 < 4)
        by (apply Z.quot_lt_upper_bound; lia).
      lia.
  - intros s11 Hrun. unfold execute_tick in Hrun.
    destruct (execute_tick_counters _ _ _ Hrun) as [Hm11 Hs11].
    change (Z.to_nat 11) with 11%nat in Hm11.
    assert (Hback : microtick s11
                    = (if microtick s =? 0 then 11 else microtick s)).
    { destruct (Z.eqb_spec (microtick s) 0) as [E | E].
      - rewrite Hm11, E. exact eleven_microticks_from_zero.
      - rewrite Hm11. apply eleven_microticks_come_back. lia. }
    split; [exact Hback|].
    rewrite Hs11 by discriminate.
    rewrite int_wrap_id; [reflexivity|].
    apply int_range_small. rewrite Hback.
    destruct (microtick s =? 0); lia.
Qed.

(** *** A propagation or a transformation microtick *)

Lemma propagation_not_emission (m : Z) :
  is_propagation_point m = true -> is_emission_point m = false.
Proof.
  unfold is_emission_point, is_propagation_point. intros H.
  repeat (apply orb_true_iff in H; destruct H as [H | H]);
    apply Z.eqb_eq in H; subst m; reflexivity.
Qed.

Lemma propagation_not_transformation (m : Z) :
  is_propagation_point m = true -> is_transformation_point m = false.
Proof.
  unfold is_transformation_point, is_propagation_point. intros H.
  repeat (apply orb_true_iff in H; destruct H as [H | H]);
    apply Z.eqb_eq in H; subst m; reflexivity.
Qed.

Lemma transformation_not_emission (m : Z) :
  is_transformation_point m = true -> is_emission_point m = false.
Proof.
  unfold is_emission_point, is_transformation_point. intros H.
  repeat (apply orb_true_iff in H; destruct H as [H | H]);
    apply Z.eqb_eq in H; subst m; reflexivity.
Qed.

Lemma transformation_not_propagation (m : Z) :
  is_transformation_point m = true -> is_propagation_point m = false.
Proof.
  unfold is_propagation_point, is_transformation_point. intros H.
  repeat (apply orb_true_iff in H; destruct H as [H | H]);
    apply Z.eqb_eq in H; subst m; reflexivity.
Qed.

(** At a propagation microtick the call is the propagation engine. *)
Lemma process_microtick_at_propagation (s : TRTS_Engine) :
  is_propagation_point (microtick (advanced s)) = true ->
  process_microtick isPrime s = apply_propagation_engine (advanced s).
Proof.
  intros Hp. rewrite process_microtick_unfold. unfold bind at 1.
  rewrite (emission_phase_off _ (propagation_not_emission _ Hp)).
  pose proof (apply_propagation_engine_microtick (advanced s)) as Hm.
  unfold propagation_phase. run. rewrite Hp.
  destruct (apply_propagation_engine (advanced s)) as [[] s1 | e s1];
    [|reflexivity].
  change (microtick s1 = microtick (advanced s)) in Hm.
  unfold transformation_phase. run. rewrite Hm.
  rewrite (propagation_not_transformation _ Hp). reflexivity.
Qed.

(** At a transformation microtick the call is the psi transform, when the
    configured test says so. *)
Lemma process_microtick_at_transformation (s : TRTS_Engine) :
  is_transformation_point (microtick (advanced s)) = true ->
  process_microtick isPrime s
  = if should_transform (advanced s)
    then psi_transform (advanced s) else Returned tt (advanced s).
Proof.
  intros Ht. rewrite process_microtick_unfold. unfold bind at 1.
  rewrite (emission_phase_off _ (transformation_not_emission _ Ht)).
  unfold propagation_phase, transformation_phase. run.
  rewrite (transformation_not_propagation _ Ht), Ht.
  destruct (should_transform (advanced s)); reflexivity.
Qed.

Lemma apply_propagation_engine_returns (s : TRTS_Engine) :
  exists s1,
    apply_propagation_engine s = Returned tt s1 /\ psi_mode s1 = psi_mode s.
Proof.
  unfold apply_propagation_engine. run. rewrite div_eleven.
  destruct (engine_mode s); simpl; eexists; split; reflexivity.
Qed.

Lemma apply_propagation_engine_at_microtick (k : Z) :
  commutes_with (at_microtick k) apply_propagation_engine.
Proof. unfold apply_propagation_engine. indep. Qed.

Lemma psi_transform_at_microtick (k : Z) :
  commutes_with (at_microtick k) psi_transform.
Proof. unfold psi_transform. indep. Qed.

(** *** What a failing call leaves behind *)

Lemma div_fails_iff (a b : Rational) :
  div a b = Raise bad_rational <-> numerator b = 0.
Proof.
  unfold div. destruct (Z.eqb_spec (numerator b) 0); split;
    congruence || discriminate.
Qed.

Lemma update_koppa_failure (trigger : Z) (s : TRTS_Engine) (e : exn)
      (s' : TRTS_Engine) :
  update_koppa trigger s = Thrown e s' ->
  numerator (beta s) = 0
  /\ (s' = s
      \/ (effective_mode (microtick s) (kappa_mode_default s) = KAPPA_F
          /\ eq_int (koppa s) 0 = true
          /\ s' = set_koppa (of_int 1) s)).
Proof.
  destruct (Z.eq_dec trigger 0) as [-> | Ht]; [discriminate|].
  rewrite (update_koppa_refines _ _ Ht).
  destruct (effective_mode (microtick s) (kappa_mode_default s));
    unfold koppa_update_in_mode; run.
  - discriminate.
  - destruct (div (upsilon s) (beta s)) as [q | e0] eqn:Hd; [discriminate|].
    intros H; inversion H; subst. destruct e.
    apply div_fails_iff in Hd. auto.
  - destruct (eq_int (koppa s) 0) eqn:Hz.
    + change (upsilon (set_koppa (of_int 1) s)) with (upsilon s).
      change (beta (set_koppa (of_int 1) s)) with (beta s).
      destruct (div (upsilon s) (beta s)) as [q | e0] eqn:Hd; [discriminate|].
      intros H; inversion H; subst. destruct e.
      apply div_fails_iff in Hd. auto.
    + destruct (div (upsilon s) (beta s)) as [q | e0] eqn:Hd; [discriminate|].
      intros H; inversion H; subst. destruct e.
      apply div_fails_iff in Hd. auto.
Qed.

Lemma psi_transform_failure (s : TRTS_Engine) (e : exn) (s' : TRTS_Engine) :
  psi_transform s = Thrown e s' ->
  (numerator (beta s) = 0 /\ s' = s)
  \/ (numerator (beta s) <> 0 /\ numerator (koppa s) = 0
      /\ exists q, div (koppa s) (beta s) = Ok q /\ s' = set_upsilon q s).
Proof.
  unfold psi_transform. run.
  destruct (div (koppa s) (beta s)) as [q | e0] eqn:Hd.
  - change (koppa (set_upsilon q s)) with (koppa s).
    destruct (div (upsilon s) (koppa s)) as [q' | e1] eqn:Hd';
      [discriminate|].
    intros H; inversion H; subst. destruct e.
    apply div_fails_iff in Hd'. right. split; [|split; [exact Hd'|]].
    + intros Hb. apply (proj2 (div_fails_iff (koppa s) (beta s))) in Hb.
      rewrite Hd in Hb. discriminate.
    + exists q. split; reflexivity.
  - intros H; inversion H; subst. destruct e.
    apply div_fails_iff in Hd. left. auto.
Qed.

(** The claim of C8 fails as stated: with the options [-u 1 -b 2 -p C] the
    first microtick accumulates koppa to 0/1, and the second calls
    [psi_transform()], which overwrites upsilon (1/1) with koppa / beta = 0/1
    and then throws on the division by koppa. *)
Lemma psi_transform_throws_after_writing_upsilon :
  exists s1 s2,
    process_microtick is_miller_rabin_prime critical_engine = Returned tt s1
    /\ process_microtick is_miller_rabin_prime s1 = Thrown bad_rational s2
    /\ psi_transform (advanced s1) = Thrown bad_rational s2
    /\ upsilon s1 = mkRational 1 1
    /\ upsilon s2 = mkRational 0 1
    /\ upsilon s2 <> upsilon s1.
Proof.
  eexists. eexists. split; [vm_compute; reflexivity|].
  split; [vm_compute; reflexivity|].
  split; [vm_compute; reflexivity|].
  vm_compute. repeat split; discriminate.
Qed.

(** C8, amended. Rational division is a function of its operands and fails
    exactly on a zero divisor numerator.  A koppa update that throws found
    beta's numerator zero and leaves the engine as it was, except under
    RATIO_FEED with koppa == 0, where koppa has already been reset to 1/1.
    A psi transform that throws leaves beta, koppa and everything but
    upsilon as they were; upsilon too when beta's numerator is zero, but when
    it is koppa's numerator that is zero upsilon has already been overwritten
    with koppa / beta. *)
Theorem failing_calls_and_what_they_leave :
  (forall a b, div a b = Raise bad_rational <-> numerator b = 0)
  /\ (forall trigger s e s',
         update_koppa trigger s = Thrown e s' ->
         numerator (beta s) = 0
         /\ upsilon s' = upsilon s /\ beta s' = beta s
         /\ (s' = s
             \/ (effective_mode (microtick s) (kappa_mode_default s) = KAPPA_F
                 /\ eq_int (koppa s) 0 = true
                 /\ s' = set_koppa (of_int 1) s)))
  /\ (forall s e s',
         psi_transform s = Thrown e s' ->
         beta s' = beta s /\ koppa s' = koppa s
         /\ ((numerator (beta s) = 0 /\ s' = s)
             \/ (numerator (beta s) <> 0 /\ numerator (koppa s) = 0
                 /\ exists q,
                     div (koppa s) (beta s) = Ok q
                     /\ s' = set_upsilon q s))).
Proof.
  split; [exact div_fails_iff|]. split.
  - intros trigger s e s' H.
    destruct (update_koppa_failure _ _ _ _ H) as [Hb Hs].
    split; [exact Hb|].
    destruct Hs as [-> | (Hm & Hz & ->)]; repeat split; auto.
  - intros s e s' H.
    pose proof (psi_transform_failure _ _ _ H) as Hs.
    destruct Hs as [[Hb ->] | (Hb & Hk & q & Hq & ->)]; repeat split; auto.
    right. repeat split; auto. exists q. auto.
Qed.

End TrtsCFacts.

Lemma microtick_cycles_and_step_follows_witness :
  let s0 := TrtsC.default_engine in
  let s1 :=
    Eff.final_state
      (TrtsC.process_microtick TrtsC.is_miller_rabin_prime s0) in
  (TrtsC.microtick s0 = 0 /\ TrtsC.microtick s1 = 1)
  /\ (exists s11,
         TrtsC.execute_tick TrtsC.is_miller_rabin_prime 11 s0
         = Eff.Returned tt s11
         /\ TrtsC.microtick s11 = 11 /\ TrtsC.step s11 = 3)
  /\ TrtsC.microtick
       (Eff.final_state
          (TrtsC.process_microtick TrtsC.is_miller_rabin_prime s1)) = 2
  /\ exists s12,
      TrtsC.execute_tick TrtsC.is_miller_rabin_prime 11 s1
      = Eff.Returned tt s12
      /\ TrtsC.microtick s12 = 1 /\ TrtsC.step s12 = 0.
Proof.
  intros s0 s1.
  assert (Hr0 : 0 <= TrtsC.microtick s0 <= 11)
    by (vm_compute; split; discriminate).
  assert (Hr1 : 0 <= TrtsC.microtick s1 <= 11)
    by (vm_compute; split; discriminate).
  destruct (microtick_cycles_and_step_follows
              TrtsC.is_miller_rabin_prime s0 Hr0)
    as (Hm0 & _ & _ & _ & H0).
  destruct (microtick_cycles_and_step_follows
              TrtsC.is_miller_rabin_prime s1 Hr1)
    as (Hm1 & _ & _ & _ & H1).
  split; [split; [reflexivity | exact Hm0]|].
  split.
  { exists (Eff.final_state
              (TrtsC.execute_tick TrtsC.is_miller_rabin_prime 11 s0)).
    assert (Hrun : TrtsC.execute_tick TrtsC.is_miller_rabin_prime 11 s0
                   = Eff.Returned tt
                       (Eff.final_state
                          (TrtsC.execute_tick TrtsC.is_miller_rabin_prime
                             11 s0)))
      by (vm_compute; reflexivity).
    split; [exact Hrun|].
    destruct (H0 _ Hrun) as [Ha Hb]. split; [exact Ha|].
    rewrite Hb. vm_compute. reflexivity. }
  split; [exact Hm1|].
  exists (Eff.final_state
            (TrtsC.execute_tick TrtsC.is_miller_rabin_prime 11 s1)).
  assert (Hrun : TrtsC.execute_tick TrtsC.is_miller_rabin_prime 11 s1
                 = Eff.Returned tt
                     (Eff.final_state
                        (TrtsC.execute_tick TrtsC.is_miller_rabin_prime
                           11 s1)))
    by (vm_compute; reflexivity).
  split; [exact Hrun|].
  destruct (H1 _ Hrun) as [Ha Hb]. split; [exact Ha|].
  rewrite Hb. vm_compute. reflexivity.
Defined.

(** ** No rational of the engine loses its invariant *)

Section NormalizedFacts.

Import BoostRational Eff TrtsC.
Local Open Scope eff_scope.

Variable isPrime : Z -> bool.

(** [normalize] establishes the class invariant. *)
Lemma normalize_normalized (n d : Z) : d <> 0 -> normalized (normalize n d).
Proof.
  intros Hd. unfold normalize, normalized.
  destruct (Z.eqb_spec n 0) as [-> | Hn]; [simpl; split; [lia | reflexivity]|].
  set (g := Z.gcd n d).
  assert (Hg : 0 < g).
  { pose proof (Z.gcd_nonneg n d). fold g in H.
    assert (g <> 0) by (unfold g; intros E; apply Z.gcd_eq_0_l in E; lia).
    lia. }
  destruct (Z.gcd_divide_l n d) as [n' Hn'].
  destruct (Z.gcd_divide_r n d) as [d' Hd']. fold g in Hn', Hd'.
  assert (Hqn : Z.quot n g = n') by (rewrite Hn' at 1; apply Z.quot_mul; lia).
  assert (Hqd : Z.quot d g = d') by (rewrite Hd' at 1; apply Z.quot_mul; lia).
  cbv zeta. rewrite Hqn, Hqd.
  assert (Hco : Z.gcd n' d' = 1).
  { assert (Hmul : Z.gcd (n' * g) (d' * g) = Z.gcd n' d' * g).
    { rewrite Z.gcd_mul_mono_r. rewrite (Z.abs_eq g) by lia. reflexivity. }
    rewrite <- Hn', <- Hd' in Hmul. fold g in Hmul. nia. }
  assert (d' <> 0) by (intros ->; lia).
  destruct (Z.ltb_spec d' 0); simpl; split; try lia.
  rewrite Z.gcd_opp_l, Z.gcd_opp_r. exact Hco.
Qed.

Lemma add_normalized (a b : Rational) :
  normalized a -> normalized b -> normalized (add a b).
Proof. intros [Ha _] [Hb _]. apply normalize_normalized. nia. Qed.

Lemma sub_normalized (a b : Rational) :
  normalized a -> normalized b -> normalized (sub a b).
Proof. intros [Ha _] [Hb _]. apply normalize_normalized. nia. Qed.

Lemma mul_normalized (a b : Rational) :
  normalized a -> normalized b -> normalized (mul a b).
Proof. intros [Ha _] [Hb _]. apply normalize_normalized. nia. Qed.

Lemma div_normalized (a b q : Rational) :
  normalized a -> div a b = Ok q -> normalized q.
Proof.
  intros [Ha _]. unfold div.
  destruct (Z.eqb_spec (numerator b) 0) as [|Hb]; [discriminate|].
  intros H; inversion H. apply normalize_normalized. nia.
Qed.

Lemma of_int_normalized (n : Z) : normalized (of_int n).
Proof. split; [reflexivity | apply Z.gcd_1_r]. Qed.

Lemma update_koppa_normalized (trigger : Z) :
  maintains rationals_normalized (update_koppa trigger).
Proof.
  intros s (Hu & Hb & Hk).
  destruct (Z.eq_dec trigger 0) as [-> | Ht]; [exact (conj Hu (conj Hb Hk))|].
  rewrite (update_koppa_refines _ _ Ht).
  destruct (effective_mode (microtick s) (kappa_mode_default s));
    unfold koppa_update_in_mode; run.
  - refine (conj Hu (conj Hb _)).
    apply add_normalized; [exact Hk | apply sub_normalized; assumption].
  - destruct (div (upsilon s) (beta s)) as [q | e] eqn:Hd.
    + exact (conj Hu (conj Hb (div_normalized _ _ _ Hu Hd))).
    + exact (conj Hu (conj Hb Hk)).
  - destruct (eq_int (koppa s) 0).
    + change (upsilon (set_koppa (of_int 1) s)) with (upsilon s).
      change (beta (set_koppa (of_int 1) s)) with (beta s).
      destruct (div (upsilon s) (beta s)) as [q | e] eqn:Hd.
      * refine (conj Hu (conj Hb _)).
        apply mul_normalized;
          [apply of_int_normalized | apply (div_normalized _ _ _ Hu Hd)].
      * exact (conj Hu (conj Hb (of_int_normalized 1))).
    + destruct (div (upsilon s) (beta s)) as [q | e] eqn:Hd.
      * refine (conj Hu (conj Hb _)).
        apply mul_normalized;
          [exact Hk | apply (div_normalized _ _ _ Hu Hd)].
      * exact (conj Hu (conj Hb Hk)).
Qed.

Lemma apply_propagation_engine_normalized :
  maintains rationals_normalized apply_propagation_engine.
Proof.
  intros s (Hu & Hb & Hk). unfold apply_propagation_engine. run.
  destruct (div (sub (upsilon s) (beta s)) (of_int 11)) as [delta | e] eqn:Hd;
    [| rewrite div_eleven in Hd; discriminate].
  assert (Hdiff : normalized (sub (upsilon s) (beta s)))
    by (apply sub_normalized; assumption).
  pose proof (div_normalized _ _ _ Hdiff Hd) as Hdelta.
  destruct (engine_mode s); simpl;
    (split; [|split]); simpl;
    repeat first
      [ assumption
      | apply add_normalized | apply sub_normalized | apply mul_normalized ].
Qed.

Lemma psi_transform_normalized : maintains rationals_normalized psi_transform.
Proof.
  intros s (Hu & Hb & Hk). unfold psi_transform. run.
  destruct (div (koppa s) (beta s)) as [q | e] eqn:Hd.
  - change (koppa (set_upsilon q s)) with (koppa s).
    pose proof (div_normalized _ _ _ Hk Hd) as Hq.
    destruct (div (upsilon s) (koppa s)) as [q' | e] eqn:Hd'.
    + exact (conj Hq (conj (div_normalized _ _ _ Hu Hd') Hk)).
    + exact (conj Hq (conj Hb Hk)).
  - exact (conj Hu (conj Hb Hk)).
Qed.

(** X9. An engine whose three rationals satisfy the invariant of their
    class (no common factor, positive denominator, so no zero denominator)
    keeps it through the constructor, [initialize_state()] with such seeds,
    every [process_microtick()] and every [execute_tick()], returning or
    throwing. *)
Theorem rationals_stay_normalized :
  (forall psi kappa engine, rationals_normalized (construct psi kappa engine))
  /\ (forall u_seed b_seed s,
         normalized u_seed -> normalized b_seed ->
         rationals_normalized (final_state (initialize_state u_seed b_seed s)))
  /\ maintains rationals_normalized (process_microtick isPrime)
  /\ (forall n, maintains rationals_normalized (execute_tick isPrime n)).
Proof.
  assert (Hp : maintains rationals_normalized (process_microtick isPrime)).
  { unfold process_microtick, advance_counters, emission_phase,
      propagation_phase, transformation_phase, is_prime_trigger.
    repeat first
      [ apply maintains_ret | apply maintains_gets | apply maintains_when
      | apply update_koppa_normalized
      | apply apply_propagation_engine_normalized
      | apply psi_transform_normalized
      | apply maintains_bind; [| intros ?]
      | apply maintains_modify; intros [] H; exact H ]. }
  split; [|split; [|split]].
  - intros psi kappa engine.
    exact (conj (of_int_normalized 1)
             (conj (of_int_normalized 1) (of_int_normalized 1))).
  - intros u_seed b_seed s Hu Hb.
    exact (conj Hu (conj Hb (of_int_normalized 1))).
  - exact Hp.
  - intros n. apply maintains_repeat_m, Hp.
Qed.

End NormalizedFacts.

(** ** One tick without triggers *)

Section OneTickWithoutTriggers.

Import BoostRational Eff TrtsC.
Local Open Scope eff_scope.

Lemma advanced_at_microtick (k : Z) (x : TRTS_Engine) :
  0 <= k <= 10 -> advanced (at_microtick k x) = at_microtick (k + 1) x.
Proof.
  intros Hk. unfold advanced, at_microtick.
  change (microtick (set_rho 0 (set_step (Z.quot (k - 1) 3) (set_microtick k x))))
    with k.
  rewrite Z.rem_small by lia.
  rewrite (int_wrap_id (k + 1)) by (apply int_range_small; lia).
  rewrite (int_wrap_id (k + 1 - 1)) by (apply int_range_small; lia).
  destruct x; reflexivity.
Qed.

Lemma advanced_at_tick_start (s : TRTS_Engine) :
  microtick s = 0 \/ microtick s = 11 -> advanced s = at_microtick 1 s.
Proof.
  intros Hm. unfold advanced, at_microtick.
  assert (Hr : int_wrap (Z.rem (microtick s) 11 + 1) = 1)
    by (destruct Hm as [-> | ->]; reflexivity).
  rewrite Hr. reflexivity.
Qed.

Lemma quiet_emission (y : TRTS_Engine) :
  is_emission_point (microtick (advanced y)) = true ->
  process_microtick never_prime y = Returned tt (advanced y).
Proof.
  intros He. rewrite (process_microtick_at_emission never_prime y He).
  apply emission_phase_not_prime; reflexivity.
Qed.

Lemma quiet_transformation (y : TRTS_Engine) :
  is_transformation_point (microtick (advanced y)) = true ->
  microtick (advanced y) <> 11 ->
  psi_mode y = PSI_F ->
  process_microtick never_prime y = Returned tt (advanced y).
Proof.
  intros Ht H11 Hpsi.
  rewrite (process_microtick_at_transformation never_prime y Ht).
  assert (Hst : should_transform (advanced y) = false).
  { unfold should_transform.
    change (psi_mode (advanced y)) with (psi_mode y). rewrite Hpsi.
    apply Z.eqb_neq in H11. rewrite H11. reflexivity. }
  rewrite Hst. reflexivity.
Qed.

Lemma forced_transformation (y : TRTS_Engine) :
  microtick (advanced y) = 11 ->
  psi_mode y = PSI_F ->
  process_microtick never_prime y = psi_transform (advanced y).
Proof.
  intros H11 Hpsi.
  rewrite (process_microtick_at_transformation never_prime y)
    by (rewrite H11; reflexivity).
  assert (Hst : should_transform (advanced y) = true).
  { unfold should_transform.
    change (psi_mode (advanced y)) with (psi_mode y).
    rewrite Hpsi, H11. reflexivity. }
  rewrite Hst. reflexivity.
Qed.

(** X8. With a primality test that always answers false and the FORCED psi
    mode, a tick of eleven microticks started at a tick boundary is three
    propagations followed by one psi transform, with the counters of
    microtick 11: the same return or exception, the same upsilon, beta,
    koppa and unreduced numerators. *)
Theorem one_tick_without_triggers (s : TRTS_Engine) :
  microtick s = 0 \/ microtick s = 11 ->
  psi_mode s = PSI_F ->
  execute_tick never_prime 11 s
  = map_state (at_microtick 11)
      ((apply_propagation_engine ;; apply_propagation_engine ;;
        apply_propagation_engine ;; psi_transform) s).
Proof.
  intros Hm Hpsi.
  destruct (apply_propagation_engine_returns s) as (x1 & H1 & P1).
  destruct (apply_propagation_engine_returns x1) as (x2 & H2 & P2).
  destruct (apply_propagation_engine_returns x2) as (x3 & H3 & P3).
  assert (Hx1 : psi_mode x1 = PSI_F) by congruence.
  assert (Hx2 : psi_mode x2 = PSI_F) by congruence.
  assert (Hx3 : psi_mode x3 = PSI_F) by congruence.
  assert (Hrhs : (apply_propagation_engine ;; apply_propagation_engine ;;
                  apply_propagation_engine ;; psi_transform) s
                 = psi_transform x3).
  { unfold bind. rewrite H1, H2, H3. reflexivity. }
  rewrite Hrhs. clear Hrhs.
  unfold execute_tick. change (Z.to_nat 11) with 11%nat.
  cbn [repeat_m].
  (* microtick 1 *)
  unfold bind at 1. rewrite (quiet_emission s)
    by (rewrite (advanced_at_tick_start s Hm); reflexivity).
  rewrite (advanced_at_tick_start s Hm).
  (* microtick 2 *)
  unfold bind at 1. rewrite quiet_transformation;
    rewrite ?advanced_at_microtick by lia;
    [| reflexivity | discriminate | exact Hpsi].
  (* microtick 3 *)
  unfold bind at 1. rewrite process_microtick_at_propagation
    by (rewrite advanced_at_microtick by lia; reflexivity).
  rewrite advanced_at_microtick by lia.
  rewrite apply_propagation_engine_at_microtick, H1. cbn [map_state].
  (* microtick 4 *)
  unfold bind at 1. rewrite quiet_emission
    by (rewrite advanced_at_microtick by lia; reflexivity).
  rewrite advanced_at_microtick by lia.
  (* microtick 5 *)
  unfold bind at 1. rewrite quiet_transformation;
    rewrite ?advanced_at_microtick by lia;
    [| reflexivity | discriminate | exact Hx1].
  (* microtick 6 *)
  unfold bind at 1. rewrite process_microtick_at_propagation
    by (rewrite advanced_at_microtick by lia; reflexivity).
  rewrite advanced_at_microtick by lia.
  rewrite apply_propagation_engine_at_microtick, H2. cbn [map_state].
  (* microtick 7 *)
  unfold bind at 1. rewrite quiet_emission
    by (rewrite advanced_at_microtick by lia; reflexivity).
  rewrite advanced_at_microtick by lia.
  (* microtick 8 *)
  unfold bind at 1. rewrite quiet_transformation;
    rewrite ?advanced_at_microtick by lia;
    [| reflexivity | discriminate | exact Hx2].
  (* microtick 9 *)
  unfold bind at 1. rewrite process_microtick_at_propagation
    by (rewrite advanced_at_microtick by lia; reflexivity).
  rewrite advanced_at_microtick by lia.
  rewrite apply_propagation_engine_at_microtick, H3. cbn [map_state].
  (* microtick 10 *)
  unfold bind at 1. rewrite quiet_emission
    by (rewrite advanced_at_microtick by lia; reflexivity).
  rewrite advanced_at_microtick by lia.
  (* microtick 11 *)
  unfold bind at 1. rewrite forced_transformation;
    rewrite ?advanced_at_microtick by lia;
    [| reflexivity | exact Hx3].
  rewrite psi_transform_at_microtick.
  destruct (psi_transform x3) as [[] y | e y]; reflexivity.
Qed.

Lemma one_tick_without_triggers_witness :
  let s :=
    final_state
      (initialize_state (mkRational 19 7) (mkRational 89 11)
         (construct PSI_F KAPPA_A ENG_Q)) in
  (microtick s = 0 \/ microtick s = 11)
  /\ psi_mode s = PSI_F
  /\ execute_tick never_prime 11 s
     = map_state (at_microtick 11)
         ((apply_propagation_engine ;; apply_propagation_engine ;;
           apply_propagation_engine ;; psi_transform) s)
  /\ returned (execute_tick never_prime 11 s) = true.
Proof.
  intros s. split; [left; reflexivity|]. split; [reflexivity|].
  split; [|vm_compute; reflexivity].
  apply (one_tick_without_triggers s); [left; reflexivity | reflexivity].
Defined.

End OneTickWithoutTriggers.

(** ** Rational arithmetic *)

Section RationalFacts.

Import BoostRational.

(** Within the range of [int64_t] the C functions give the
    cross-multiplied fraction exactly, common factors included. *)
Lemma r_add_exact (a b : PureCli.Rational) :
  int64_range (PureCli.num a * PureCli.den b) ->
  int64_range (PureCli.num b * PureCli.den a) ->
  int64_range (PureCli.num a * PureCli.den b + PureCli.num b * PureCli.den a) ->
  int64_range (PureCli.den a * PureCli.den b) ->
  PureCli.r_add a b
  = PureCli.mkRational
      (PureCli.num a * PureCli.den b + PureCli.num b * PureCli.den a)
      (PureCli.den a * PureCli.den b).
Proof.
  intros H1 H2 H3 H4. unfold PureCli.r_add, PureCli.add64, PureCli.mul64.
  rewrite (int64_wrap_id _ H1), (int64_wrap_id _ H2).
  rewrite (int64_wrap_id _ H3), (int64_wrap_id _ H4). reflexivity.
Qed.

Lemma r_mul_exact (a b : PureCli.Rational) :
  int64_range (PureCli.num a * PureCli.num b) ->
  int64_range (PureCli.den a * PureCli.den b) ->
  PureCli.r_mul a b
  = PureCli.mkRational (PureCli.num a * PureCli.num b)
                       (PureCli.den a * PureCli.den b).
Proof.
  intros H1 H2. unfold PureCli.r_mul, PureCli.mul64.
  rewrite (int64_wrap_id _ H1), (int64_wrap_id _ H2). reflexivity.
Qed.

Lemma r_div_exact (a b : PureCli.Rational) :
  int64_range (PureCli.num a * PureCli.den b) ->
  int64_range (PureCli.den a * PureCli.num b) ->
  PureCli.r_div a b
  = PureCli.mkRational (PureCli.num a * PureCli.den b)
                       (PureCli.den a * PureCli.num b).
Proof.
  intros H1 H2. unfold PureCli.r_div, PureCli.mul64.
  rewrite (int64_wrap_id _ H1), (int64_wrap_id _ H2). reflexivity.
Qed.

(** X6. The C rationals are structural: whenever the products and the sum fit
    [int64_t], add, multiply and divide return the cross-multiplied
    numerator and denominator themselves. *)
Theorem pure_cli_arithmetic_is_structural (a b : PureCli.Rational) :
  int64_range (PureCli.num a * PureCli.den b) ->
  int64_range (PureCli.num b * PureCli.den a) ->
  int64_range (PureCli.num a * PureCli.den b + PureCli.num b * PureCli.den a) ->
  int64_range (PureCli.den a * PureCli.den b) ->
  int64_range (PureCli.num a * PureCli.num b) ->
  int64_range (PureCli.den a * PureCli.num b) ->
  PureCli.r_add a b
  = PureCli.mkRational
      (PureCli.num a * PureCli.den b + PureCli.num b * PureCli.den a)
      (PureCli.den a * PureCli.den b)
  /\ PureCli.r_mul a b
     = PureCli.mkRational (PureCli.num a * PureCli.num b)
                          (PureCli.den a * PureCli.den b)
  /\ PureCli.r_div a b
     = PureCli.mkRational (PureCli.num a * PureCli.den b)
                          (PureCli.den a * PureCli.num b).
Proof.
  intros H1 H2 H3 H4 H5 H6. split; [|split].
  - apply r_add_exact; assumption.
  - apply r_mul_exact; assumption.
  - apply r_div_exact; assumption.
Qed.

Lemma pure_cli_arithmetic_is_structural_witness :
  let a := PureCli.mkRational 2 4 in
  let b := PureCli.mkRational 3 6 in
  PureCli.r_add a b = PureCli.mkRational 24 24
  /\ PureCli.r_mul a b = PureCli.mkRational 6 24
  /\ PureCli.r_div a b = PureCli.mkRational 12 12.
Proof.
  intros a b.
  apply (pure_cli_arithmetic_is_structural a b);
    vm_compute; split; discriminate || reflexivity.
Defined.

Example r_add_half_half :
  PureCli.r_add (PureCli.mkRational 1 2) (PureCli.mkRational 1 2)
  = PureCli.mkRational 4 4.
Proof. reflexivity. Qed.

(** C1. The rational type of the C++ engines reduces.  1/2 + 1/2 is 1/1,
    where cross-multiplication writes 4/4; and with the seeds 3/2 and 1/2
    the first microtick accumulates koppa = 1/1 + (3/2 - 1/2) to 2/1, where
    cross-multiplication writes 4/4 for the difference and 8/4 for the
    sum. *)
Theorem boost_rational_reduces :
  let half := mkRational 1 2 in
  let s :=
    Eff.final_state
      (TrtsC.initialize_state (mkRational 3 2) half
         (TrtsC.construct TrtsC.PSI_D TrtsC.KAPPA_A TrtsC.ENG_Q)) in
  (add half half = mkRational 1 1
   /\ structural_add half half = mkRational 4 4
   /\ numerator (add half half) <> 1 * 2 + 1 * 2)
  /\ (TrtsC.koppa
        (Eff.final_state
           (TrtsC.process_microtick TrtsC.is_miller_rabin_prime s))
      = mkRational 2 1
      /\ structural_add (of_int 1)
           (structural_sub (mkRational 3 2) half)
         = mkRational 8 4).
Proof. vm_compute. repeat split; discriminate. Qed.

End RationalFacts.

(** ** The primality test *)

Section PrimalityFacts.

Import Hardcore.

Lemma powm_spec (a d n : Z) : n <> 0 -> powm a d n = (a ^ d) mod n.
Proof. apply Zpow_mod_correct. Qed.

(** The loop that strips the factors of two leaves an odd number and the
    count of the factors. *)
Lemma halve_while_even_spec (p : positive) (s0 : nat) :
  exists d s,
    halve_while_even p s0 = (d, (s0 + s)%nat)
    /\ Z.odd d = true
    /\ Zpos p = d * 2 ^ Z.of_nat s.
Proof.
  revert s0. induction p as [p IH | p IH |]; intros s0.
  - exists (Zpos p~1), O. rewrite Nat.add_0_r.
    split; [reflexivity|]. split; [reflexivity|].
    change (2 ^ Z.of_nat 0) with 1. lia.
  - destruct (IH (Datatypes.S s0)) as (d & s & Hrun & Hodd & Hval).
    exists d, (Datatypes.S s). simpl halve_while_even. rewrite Hrun.
    split; [f_equal; lia|]. split; [exact Hodd|].
    rewrite Nat2Z.inj_succ, Z.pow_succ_r by lia.
    rewrite Pos2Z.inj_xO, Hval. ring.
  - exists 1, O. rewrite Nat.add_0_r.
    split; [reflexivity|]. split; reflexivity.
Qed.

(** X2. The test of [trts.h] does what its contract says: it reads |n|, rejects
    0 and 1, accepts 2 and 3, rejects the even numbers from 4 on, and for an
    odd |n| >= 5 writes |n| - 1 as d * 2^s with d odd and returns what the
    rounds over the ten fixed bases return. *)
Theorem miller_rabin_contract (n : Z) :
  is_miller_rabin_prime n = is_miller_rabin_prime (Z.abs n)
  /\ (Z.abs n <= 1 -> is_miller_rabin_prime n = false)
  /\ (Z.abs n = 2 \/ Z.abs n = 3 -> is_miller_rabin_prime n = true)
  /\ (4 <= Z.abs n -> Z.even (Z.abs n) = true ->
      is_miller_rabin_prime n = false)
  /\ (5 <= Z.abs n -> Z.odd (Z.abs n) = true ->
      exists d s,
        Z.abs n - 1 = d * 2 ^ Z.of_nat s /\ Z.odd d = true
        /\ is_miller_rabin_prime n
           = base_loop [2; 3; 5; 7; 11; 13; 17; 19; 23; 29]
               d s (Z.abs n) (Z.abs n - 1)).
Proof.
  split; [unfold is_miller_rabin_prime; rewrite Z.abs_idemp; reflexivity|].
  unfold is_miller_rabin_prime. set (m := Z.abs n).
  split; [intros H; destruct (Z.leb_spec m 1); [reflexivity | lia]|].
  split.
  { intros H. destruct (Z.leb_spec m 1); [lia|].
    destruct (Z.leb_spec m 3); [reflexivity | lia]. }
  split.
  { intros H4 He. destruct (Z.leb_spec m 1); [lia|].
    destruct (Z.leb_spec m 3); [lia|].
    rewrite Z.rem_mod_nonneg by lia.
    rewrite Zeven_mod in He. rewrite He. reflexivity. }
  intros H5 Ho. destruct (Z.leb_spec m 1); [lia|].
  destruct (Z.leb_spec m 3); [lia|].
  rewrite Z.rem_mod_nonneg by lia.
  rewrite Zodd_mod in Ho. apply Z.eqb_eq in Ho. rewrite Ho. simpl (1 =? 0).
  cbv iota.
  destruct (m - 1) as [| p | p] eqn:Hp; [lia | | lia].
  destruct (halve_while_even_spec p O) as (d & s & Hrun & Hodd & Hval).
  exists d, s. rewrite Hrun. simpl. auto.
Qed.

(** X3. On every number up to 3000 the test of [trts.h] agrees with trial
    division. *)
Lemma miller_rabin_agrees_with_trial_division :
  forallb (fun k => Bool.eqb (is_miller_rabin_prime (Z.of_nat k))
                             (trial_division (Z.of_nat k)))
          (seq 0 3001) = true.
Proof. vm_compute. reflexivity. Qed.

(** C4. The test the trts-c program is linked with returns [true] on every
    number: on 1, which the Miller-Rabin test of [trts.h] rejects, and on
    the composite 9; with the seed 9/7 the first microtick sets rho to 1,
    and to 0 when the engine runs with the test of [trts.h]. *)
Theorem placeholder_test_accepts_every_number :
  let s :=
    Eff.final_state
      (TrtsC.initialize_state
         (BoostRational.mkRational 9 7) (BoostRational.mkRational 89 11)
         (TrtsC.construct TrtsC.PSI_D TrtsC.KAPPA_A TrtsC.ENG_Q)) in
  (forall n, TrtsC.is_miller_rabin_prime n = true)
  /\ (TrtsC.is_miller_rabin_prime 1 = true
      /\ is_miller_rabin_prime 1 = false)
  /\ (TrtsC.is_miller_rabin_prime 9 = true
      /\ is_miller_rabin_prime 9 = false)
  /\ TrtsC.rho
       (Eff.final_state
          (TrtsC.process_microtick TrtsC.is_miller_rabin_prime s)) = 1
  /\ TrtsC.rho
       (Eff.final_state (TrtsC.process_microtick is_miller_rabin_prime s)) = 0.
Proof. vm_compute. repeat split. Qed.

End PrimalityFacts.

(** ** The engine of FIAT_LUX: step counts the ticks *)

Section FiatLuxFacts.

Import BoostRational Eff FiatLux.
Local Open Scope eff_scope.

Variable is_miller_rabin_prime : Z -> bool.
Variable psi_transform : M TRTS_Engine unit.

(** The transform works on the rationals: it leaves the two counters. *)
Hypothesis psi_transform_microtick : preserves microtick psi_transform.
Hypothesis psi_transform_step : preserves step psi_transform.

Lemma bind_returned {S A B : Type} (c : M S A) (k : A -> M S B)
      (s s' : S) (b : B) :
  bind c k s = Returned b s' ->
  exists a s1, c s = Returned a s1 /\ k a s1 = Returned b s'.
Proof.
  unfold bind. destruct (c s) as [a s1 | e s1]; [|discriminate].
  intros H. exists a, s1. auto.
Qed.

Lemma fiat_update_koppa_frame {A : Type} (f : TRTS_Engine -> A) :
  (forall v s, f (set_koppa v s) = f s) -> preserves f update_koppa.
Proof.
  intros Hf. unfold update_koppa.
  apply preserves_bind; [apply preserves_gets | intros mode].
  destruct mode;
    repeat first
      [ apply preserves_gets | apply preserves_lift | apply preserves_when
      | apply preserves_bind; [| intros ?]
      | apply preserves_modify; intros s; apply Hf ].
Qed.

Lemma fiat_propagation_microtick :
  preserves microtick apply_propagation_engine.
Proof. unfold apply_propagation_engine. frame. Qed.

Lemma fiat_propagation_step : preserves step apply_propagation_engine.
Proof. unfold apply_propagation_engine. frame. Qed.

Lemma emission_block_frame {A : Type} (f : TRTS_Engine -> A) (m : Z) :
  (forall v s, f (set_koppa v s) = f s) ->
  (forall v s, f (set_rho v s) = f s) ->
  preserves f (emission_block is_miller_rabin_prime m).
Proof.
  intros Hk Hr. unfold emission_block, is_prime_trigger. cbv zeta.
  repeat first
    [ apply preserves_ret | apply preserves_gets | apply preserves_when
    | apply fiat_update_koppa_frame; exact Hk
    | apply preserves_bind; [| intros ?]
    | apply preserves_modify; intros s; apply Hr ].
Qed.

Lemma propagation_block_frame {A : Type} (f : TRTS_Engine -> A) (m : Z) :
  preserves f apply_propagation_engine -> preserves f (propagation_block m).
Proof. intros H. apply preserves_when, H. Qed.

Lemma transformation_block_frame {A : Type} (f : TRTS_Engine -> A) (m : Z) :
  preserves f psi_transform ->
  preserves f (transformation_block psi_transform m).
Proof.
  intros H. unfold transformation_block. cbv zeta.
  apply preserves_when.
  apply preserves_bind; [apply preserves_gets | intros r].
  destruct (r >? 0); [exact H|].
  apply preserves_bind; [apply preserves_gets | intros m'].
  apply preserves_when, H.
Qed.

(** What a returning call did to an observation its blocks preserve. *)
Lemma returned_preserved {A B : Type} (f : TRTS_Engine -> A)
      (c : M TRTS_Engine B) (s s' : TRTS_Engine) (b : B) :
  preserves f c -> c s = Returned b s' -> f s' = f s.
Proof. intros Hp Hrun. specialize (Hp s). rewrite Hrun in Hp. exact Hp. Qed.

Lemma fiat_process_microtick_counters (s s' : TRTS_Engine) :
  process_microtick is_miller_rabin_prime psi_transform s = Returned tt s' ->
  let m := int_wrap (microtick s + 1) in
  microtick s' = (if m =? 11 then 0 else m)
  /\ step s' = (if m =? 11 then int_wrap (step s + 1) else step s).
Proof.
  intros Hrun m.
  change (process_microtick is_miller_rabin_prime psi_transform s)
    with ((emission_block is_miller_rabin_prime m ;;
           propagation_block m ;;
           transformation_block psi_transform m ;;
           close_tick)
            (set_rho 0 (set_microtick m s))) in Hrun.
  apply bind_returned in Hrun. destruct Hrun as ([] & s1 & H1 & Hrun).
  apply bind_returned in Hrun. destruct Hrun as ([] & s2 & H2 & Hrun).
  apply bind_returned in Hrun. destruct Hrun as ([] & s3 & H3 & Hfin).
  assert (Hm3 : microtick s3 = m).
  { rewrite (returned_preserved microtick _ _ _ _
               (transformation_block_frame microtick m psi_transform_microtick)
               H3).
    rewrite (returned_preserved microtick _ _ _ _
               (propagation_block_frame microtick m fiat_propagation_microtick)
               H2).
    rewrite (returned_preserved microtick _ _ _ _
               (emission_block_frame microtick m
                  (fun v s => eq_refl) (fun v s => eq_refl)) H1).
    reflexivity. }
  assert (Hs3 : step s3 = step s).
  { rewrite (returned_preserved step _ _ _ _
               (transformation_block_frame step m psi_transform_step) H3).
    rewrite (returned_preserved step _ _ _ _
               (propagation_block_frame step m fiat_propagation_step) H2).
    rewrite (returned_preserved step _ _ _ _
               (emission_block_frame step m
                  (fun v s => eq_refl) (fun v s => eq_refl)) H1).
    reflexivity. }
  revert Hfin. unfold close_tick. run. rewrite Hm3.
  destruct (m =? 11); intros H; inversion H; subst s'; simpl; auto.
  rewrite Hs3. auto.
Qed.

Lemma fiat_eleven_counters (n : nat) (s s' : TRTS_Engine) :
  (Z.of_nat n <= 11) ->
  microtick s = 11 - Z.of_nat n ->
  repeat_m n (process_microtick is_miller_rabin_prime psi_transform) s
  = Returned tt s' ->
  (n = O /\ s' = s)
  \/ (n <> O /\ microtick s' = 0 /\ step s' = int_wrap (step s + 1)).
Proof.
  revert s. induction n as [|n IH]; intros s Hn Hm Hrun.
  - left. inversion Hrun. auto.
  - right. split; [discriminate|].
    simpl in Hrun. apply bind_returned in Hrun.
    destruct Hrun as ([] & s1 & Hone & Hrest).
    destruct (fiat_process_microtick_counters _ _ Hone) as [Hm1 Hs1].
    rewrite Hm in Hm1, Hs1.
    rewrite int_wrap_id in Hm1, Hs1 by (apply int_range_small; lia).
    destruct (Z.eqb_spec (11 - Z.of_nat (Datatypes.S n) + 1) 11) as [E | E].
    + assert (n = O) by (clear - E; lia).
      subst n. inversion Hrest. subst s'. auto.
    + assert (Hn' : Z.of_nat n <= 11) by (clear - Hn; lia).
      assert (Hm1' : microtick s1 = 11 - Z.of_nat n) by (clear - Hm1; lia).
      destruct (IH s1 Hn' Hm1' Hrest) as [[-> _] | (_ & Hm' & Hs')].
      * contradiction E. reflexivity.
      * rewrite Hs', Hs1. auto.
Qed.

(** X1. In the FIAT_LUX engine step does count the ticks: from microtick 0,
    eleven microticks that return leave microtick at 0 for the next tick
    and have incremented step exactly once. *)
Theorem fiat_lux_step_counts_ticks (s s' : TRTS_Engine) :
  microtick s = 0 ->
  - 2 ^ 31 <= step s < 2 ^ 31 - 1 ->
  repeat_m 11 (process_microtick is_miller_rabin_prime psi_transform) s
  = Returned tt s' ->
  microtick s' = 0 /\ step s' = step s + 1.
Proof.
  intros Hm Hs Hrun.
  assert (H11 : Z.of_nat 11 <= 11) by (cbv; discriminate).
  assert (Hm0 : microtick s = 11 - Z.of_nat 11) by (rewrite Hm; reflexivity).
  destruct (fiat_eleven_counters 11 s s' H11 Hm0 Hrun)
    as [[E _] | (_ & Hm' & Hs')]; [discriminate|].
  split; [exact Hm'|]. rewrite Hs'. apply int_wrap_id.
  unfold int_range. change (2 ^ 31) with 2147483648 in *. lia.
Qed.

End FiatLuxFacts.

Lemma fiat_lux_step_counts_ticks_witness :
  exists s',
    Eff.repeat_m 11
      (FiatLux.process_microtick (fun _ => true) FiatLux.psi_dual)
      FiatLux.seeded_engine
    = Eff.Returned tt s'
    /\ FiatLux.microtick s' = 0
    /\ FiatLux.step s' = FiatLux.step FiatLux.seeded_engine + 1.
Proof.
  eexists. split; [vm_compute; reflexivity|].
  apply (fiat_lux_step_counts_ticks (fun _ => true) FiatLux.psi_dual).
  - unfold FiatLux.psi_dual. frame.
  - unfold FiatLux.psi_dual. frame.
  - reflexivity.
  - vm_compute. split; [discriminate | reflexivity].
  - vm_compute. reflexivity.
Defined.

(** ** The older engines: rotation and initialisation *)

Section OlderEngines.

(** X4. In the C engine ROTATIONAL writes the reciprocal of beta into upsilon
    and the reciprocal of upsilon into beta; twice, it gives the state
    back. *)
Theorem c_rotational_involution (s : CompleteSpec.TRTS_State) :
  CompleteSpec.engine_type s = CompleteSpec.ENGINE_ROTATIONAL ->
  let s1 := CompleteSpec.apply_propagation_engine s in
  CompleteSpec.upsilon s1
  = CompleteSpec.mkRational (CompleteSpec.den (CompleteSpec.beta s))
                            (CompleteSpec.num (CompleteSpec.beta s))
  /\ CompleteSpec.beta s1
     = CompleteSpec.mkRational (CompleteSpec.den (CompleteSpec.upsilon s))
                               (CompleteSpec.num (CompleteSpec.upsilon s))
  /\ CompleteSpec.apply_propagation_engine s1 = s.
Proof.
  intros He. destruct s as [[un ud] [bn bd] k r m st cr ec pb km et].
  simpl in He. subst et. repeat split.
Qed.

Lemma c_rotational_involution_witness :
  let s :=
    CompleteSpec.mkState
      (CompleteSpec.mkRational 2 3) (CompleteSpec.mkRational 5 13)
      (CompleteSpec.mkRational 1 1) 0 3 0 69 [0; 0; 0]
      CompleteSpec.PSI_FORCED CompleteSpec.KOPPA_ACCUMULATE
      CompleteSpec.ENGINE_ROTATIONAL in
  CompleteSpec.upsilon (CompleteSpec.apply_propagation_engine s)
  = CompleteSpec.mkRational 13 5
  /\ CompleteSpec.apply_propagation_engine
       (CompleteSpec.apply_propagation_engine s) = s.
Proof.
  intros s.
  destruct (c_rotational_involution s eq_refl) as (Hu & _ & Hinv).
  split; [exact Hu | exact Hinv].
Defined.

(** X5. In the first C++ engine [initialize_state()] does reset the counters:
    koppa 1/1, microtick 0, rho 0, and step one more than it was. *)
Theorem hardcore_initialize_state (u_num b_num : Z) (e : Hardcore.TRTS_Engine) :
  - 2 ^ 31 <= Hardcore.step e < 2 ^ 31 - 1 ->
  let e' := Hardcore.initialize_state u_num b_num e in
  Hardcore.koppa e' = BoostRational.mkRational 1 1
  /\ Hardcore.microtick e' = 0
  /\ Hardcore.rho e' = 0
  /\ Hardcore.step e' = Hardcore.step e + 1
  /\ Hardcore.upsilon e' = BoostRational.normalize u_num 7
  /\ Hardcore.beta e' = BoostRational.normalize b_num 11.
Proof.
  intros Hs e'. repeat split. unfold e'. simpl. apply int_wrap_id.
  unfold int_range. change (2 ^ 31) with 2147483648 in *. lia.
Qed.

Lemma hardcore_initialize_state_witness :
  let e :=
    Hardcore.mkEngine (BoostRational.of_int 1) (BoostRational.of_int 1)
      (BoostRational.mkRational 0 1) 0 0 0
      Hardcore.PSI_DUAL_RECIPROCAL Hardcore.KOPPA_RATIO_FEED
      Hardcore.ENGINE_QUIET_ADDITIVE in
  Hardcore.step (Hardcore.initialize_state 19 89 e) = 1
  /\ Hardcore.upsilon (Hardcore.initialize_state 19 89 e)
     = BoostRational.mkRational 19 7.
Proof.
  intros e.
  assert (Hs : - 2 ^ 31 <= Hardcore.step e < 2 ^ 31 - 1)
    by (vm_compute; split; [discriminate | reflexivity]).
  destruct (hardcore_initialize_state 19 89 e Hs) as (_ & _ & _ & H4 & H5 & _).
  split; [exact H4 | exact H5].
Defined.



(** In the first C++ engine the trigger reads upsilon itself, numerator or
    denominator: 4/7 triggers through its denominator. *)
Example hardcore_trigger_reads_the_denominator :
  Hardcore.is_prime_trigger
    (Hardcore.mkEngine (BoostRational.mkRational 4 7)
       (BoostRational.mkRational 89 11) (BoostRational.mkRational 1 1)
       0 1 0 Hardcore.PSI_DUAL_RECIPROCAL Hardcore.KOPPA_RATIO_FEED
       Hardcore.ENGINE_QUIET_ADDITIVE) = true
  /\ Hardcore.is_miller_rabin_prime 4 = false.
Proof. vm_compute. split; reflexivity. Qed.

End OlderEngines.

(** ** The trts-c engine: the unreduced ledger, the psi modes, the throws *)

Section TrtsCLedger.

Import BoostRational Eff TrtsC.
Local Open Scope eff_scope.

Variable isPrime : Z -> bool.

(** A member function that touches only what [f] ignores, and the two
    functions that do the arithmetic, leave [f] through a microtick. *)
Lemma process_microtick_frame {A : Type} (f : TRTS_Engine -> A) :
  (forall v s, f (set_koppa v s) = f s) ->
  (forall v s, f (set_rho v s) = f s) ->
  (forall v s, f (set_microtick v s) = f s) ->
  (forall v s, f (set_step v s) = f s) ->
  preserves f apply_propagation_engine ->
  preserves f psi_transform ->
  preserves f (process_microtick isPrime).
Proof.
  intros Hk Hr Hm Hs Hp Ht. unfold process_microtick, advance_counters.
  repeat first
    [ apply emission_phase_frame; assumption
    | apply propagation_phase_frame; assumption
    | apply transformation_phase_frame; assumption
    | apply preserves_bind; [| intros ?]
    | apply preserves_modify; intros s;
      first [apply Hm | apply Hs | apply Hr] ].
Qed.

Lemma apply_propagation_engine_ledger :
  preserves (fun s => upsilon_num_unreduced s + beta_num_unreduced s)
            apply_propagation_engine.
Proof.
  intros s. unfold apply_propagation_engine. run. rewrite div_eleven.
  destruct (engine_mode s); simpl; lia.
Qed.

(** X10. The two unreduced numerators always add up to the same number:
    whatever the modes, a microtick, and any number of microticks, returning
    or throwing, leave [upsilon_num_unreduced + beta_num_unreduced] as it
    was (the sum of the seeds' numerators). *)
Theorem unreduced_numerators_keep_their_sum (s : TRTS_Engine) :
  upsilon_num_unreduced (final_state (process_microtick isPrime s))
  + beta_num_unreduced (final_state (process_microtick isPrime s))
  = upsilon_num_unreduced s + beta_num_unreduced s
  /\ forall n,
      upsilon_num_unreduced (final_state (execute_tick isPrime n s))
      + beta_num_unreduced (final_state (execute_tick isPrime n s))
      = upsilon_num_unreduced s + beta_num_unreduced s.
Proof.
  assert (Hp : preserves
                 (fun s => upsilon_num_unreduced s + beta_num_unreduced s)
                 (process_microtick isPrime)).
  { apply process_microtick_frame;
      try (intros v []; reflexivity).
    - apply apply_propagation_engine_ledger.
    - unfold psi_transform. frame. }
  split; [apply Hp|].
  intros n. unfold execute_tick.
  apply (preserves_repeat_m _ _ _ Hp).
Qed.

(** The engine mode and the ledger, as one observation. *)
Lemma apply_propagation_engine_mode_and_ledger (s : TRTS_Engine) :
  engine_mode s <> ENG_Q ->
  apply_propagation_engine s
  = Returned tt (final_state (apply_propagation_engine s))
  /\ engine_mode (final_state (apply_propagation_engine s)) = engine_mode s
  /\ upsilon_num_unreduced (final_state (apply_propagation_engine s))
     = upsilon_num_unreduced s
  /\ beta_num_unreduced (final_state (apply_propagation_engine s))
     = beta_num_unreduced s.
Proof.
  intros Hq. unfold apply_propagation_engine. run. rewrite div_eleven.
  destruct (engine_mode s) eqn:He; simpl; rewrite ?He; auto; congruence.
Qed.

Lemma frozen_ledger_microtick (e : EngineType) (u b : Z) :
  e <> ENG_Q ->
  maintains (fun s => engine_mode s = e /\ upsilon_num_unreduced s = u
                      /\ beta_num_unreduced s = b)
            (process_microtick isPrime).
Proof.
  intros Hq.
  assert (Hprop : maintains
                    (fun s => engine_mode s = e /\ upsilon_num_unreduced s = u
                              /\ beta_num_unreduced s = b)
                    apply_propagation_engine).
  { intros s (He & Hu & Hb).
    destruct (apply_propagation_engine_mode_and_ledger s) as (_ & H1 & H2 & H3);
      [congruence|].
    rewrite H1, H2, H3. auto. }
  assert (Hpsi : maintains
                   (fun s => engine_mode s = e /\ upsilon_num_unreduced s = u
                             /\ beta_num_unreduced s = b)
                   psi_transform).
  { intros s H.
    assert (Hf : preserves
                   (fun s => (engine_mode s, upsilon_num_unreduced s,
                              beta_num_unreduced s)) psi_transform)
      by (unfold psi_transform; frame).
    specialize (Hf s). inversion Hf as [[H1 H2 H3]].
    rewrite H1, H2, H3. exact H. }
  assert (Hk : forall trigger,
             maintains
               (fun s => engine_mode s = e /\ upsilon_num_unreduced s = u
                         /\ beta_num_unreduced s = b)
               (update_koppa trigger)).
  { intros trigger s H.
    pose proof (update_koppa_frame
                  (fun s => (engine_mode s, upsilon_num_unreduced s,
                             beta_num_unreduced s)) trigger
                  (fun v s => match s with
                              | mkEngine _ _ _ _ _ _ _ _ _ _ _ => eq_refl
                              end) s) as Hf.
    inversion Hf as [[H1 H2 H3]]. rewrite H1, H2, H3. exact H. }
  unfold process_microtick, advance_counters, emission_phase,
    propagation_phase, transformation_phase, is_prime_trigger.
  repeat first
    [ apply maintains_ret | apply maintains_gets | apply maintains_when
    | apply Hk | exact Hprop | exact Hpsi
    | apply maintains_bind; [| intros ?]
    | apply maintains_modify; intros [] H; exact H ].
Qed.

(** X11. Only the QUIET engine moves the unreduced ledger.  With any other
    propagation engine the two unreduced numerators are, after any number of
    microticks, what they were; so the number printed by
    [get_psi_precursor_str()] is the same after every tick, and the prime
    trigger tests the same number at every emission microtick: rho after a
    microtick is 1 exactly when that microtick is an emission point and the
    starting numerator passes the test. *)
Theorem ledger_is_frozen_without_quiet (s : TRTS_Engine) (n : Z) :
  engine_mode s <> ENG_Q ->
  let s' := final_state (execute_tick isPrime n s) in
  upsilon_num_unreduced s' = upsilon_num_unreduced s
  /\ beta_num_unreduced s' = beta_num_unreduced s
  /\ psi_precursor s' = psi_precursor s
  /\ rho (final_state (process_microtick isPrime s'))
     = if is_emission_point (microtick (advanced s'))
          && isPrime (Z.abs (upsilon_num_unreduced s))
       then 1 else 0.
Proof.
  intros Hq s'.
  pose proof (maintains_repeat_m _ (Z.to_nat n) _
                (frozen_ledger_microtick (engine_mode s)
                   (upsilon_num_unreduced s) (beta_num_unreduced s) Hq)
                s (conj eq_refl (conj eq_refl eq_refl))) as (_ & Hu & Hb).
  fold (execute_tick isPrime n) in Hu, Hb. fold s' in Hu, Hb.
  split; [exact Hu|]. split; [exact Hb|].
  split; [unfold psi_precursor; rewrite Hu, Hb; reflexivity|].
  rewrite process_microtick_rho, Hu. reflexivity.
Qed.

End TrtsCLedger.

Lemma ledger_is_frozen_without_quiet_witness :
  let s := TrtsC.set_engine_mode TrtsC.ENG_A TrtsC.default_engine in
  let s' :=
    Eff.final_state (TrtsC.execute_tick TrtsC.is_miller_rabin_prime 22 s) in
  TrtsC.engine_mode s <> TrtsC.ENG_Q
  /\ TrtsC.upsilon_num_unreduced s' = 19
  /\ TrtsC.beta_num_unreduced s' = 89
  /\ TrtsC.psi_precursor s' = -70.
Proof.
  intros s s'. split; [discriminate|].
  destruct (ledger_is_frozen_without_quiet TrtsC.is_miller_rabin_prime s 22)
    as (Hu & Hb & Hp & _); [discriminate|].
  split; [exact Hu|]. split; [exact Hb | exact Hp].
Defined.

(** ** The trts-c engine: one microtick by cases *)

Section TrtsCCases.

Import BoostRational Eff TrtsC.
Local Open Scope eff_scope.

Variable isPrime : Z -> bool.

(** A microtick is its emission phase, or the propagation engine, or the
    psi transform under its test, or nothing, by the new microtick. *)
Lemma process_microtick_cases (s : TRTS_Engine) :
  process_microtick isPrime s
  = if is_emission_point (microtick (advanced s))
    then emission_phase isPrime (advanced s)
    else if is_propagation_point (microtick (advanced s))
    then apply_propagation_engine (advanced s)
    else if is_transformation_point (microtick (advanced s))
    then (if should_transform (advanced s)
          then psi_transform (advanced s) else Returned tt (advanced s))
    else Returned tt (advanced s).
Proof.
  destruct (is_emission_point (microtick (advanced s))) eqn:He.
  { apply process_microtick_at_emission, He. }
  destruct (is_propagation_point (microtick (advanced s))) eqn:Hp.
  { apply process_microtick_at_propagation, Hp. }
  destruct (is_transformation_point (microtick (advanced s))) eqn:Ht.
  { apply process_microtick_at_transformation, Ht. }
  rewrite process_microtick_unfold. unfold bind at 1.
  rewrite (emission_phase_off _ _ He).
  unfold propagation_phase, transformation_phase. run.
  rewrite Hp, Ht. reflexivity.
Qed.

Lemma set_psi_mode_twice (v w : PsiMode) (s : TRTS_Engine) :
  set_psi_mode v (set_psi_mode w s) = set_psi_mode v s.
Proof. reflexivity. Qed.

Lemma map_state_twice {A : Type} (f g : TRTS_Engine -> TRTS_Engine)
      (o : outcome TRTS_Engine A) :
  map_state f (map_state g o) = map_state (fun s => f (g s)) o.
Proof. destruct o; reflexivity. Qed.

Lemma update_koppa_ignores_psi (v : PsiMode) (trigger : Z) :
  commutes_with (set_psi_mode v) (update_koppa trigger).
Proof. unfold update_koppa. indep. Qed.

Lemma emission_phase_ignores_psi (v : PsiMode) :
  commutes_with (set_psi_mode v) (emission_phase isPrime).
Proof.
  unfold emission_phase, is_prime_trigger.
  repeat first
    [ apply commutes_ret | apply commutes_when
    | apply update_koppa_ignores_psi
    | apply commutes_gets; intros []; reflexivity
    | apply commutes_modify; intros []; reflexivity
    | apply commutes_bind; [| intros ?] ].
Qed.

Lemma apply_propagation_engine_ignores_psi (v : PsiMode) :
  commutes_with (set_psi_mode v) apply_propagation_engine.
Proof. unfold apply_propagation_engine. indep. Qed.

Lemma psi_transform_ignores_psi (v : PsiMode) :
  commutes_with (set_psi_mode v) psi_transform.
Proof. unfold psi_transform. indep. Qed.

(** With rho at zero, the modes D and F ask for the transform at the same
    microtick, and the mode R never asks. *)
Lemma should_transform_without_rho (s : TRTS_Engine) :
  rho s = 0 ->
  should_transform (set_psi_mode PSI_D s) = should_transform (set_psi_mode PSI_F s)
  /\ should_transform (set_psi_mode PSI_R s) = false.
Proof.
  intros Hr. unfold should_transform. simpl. rewrite Hr. simpl.
  destruct (microtick s =? 11); split; reflexivity.
Qed.

Lemma dual_as_forced_microtick (s : TRTS_Engine) :
  process_microtick isPrime (set_psi_mode PSI_D s)
  = map_state (set_psi_mode PSI_D)
      (process_microtick isPrime (set_psi_mode PSI_F s)).
Proof.
  rewrite !process_microtick_cases.
  change (advanced (set_psi_mode PSI_D s))
    with (set_psi_mode PSI_D (advanced s)).
  change (advanced (set_psi_mode PSI_F s))
    with (set_psi_mode PSI_F (advanced s)).
  change (microtick (set_psi_mode PSI_D (advanced s)))
    with (microtick (advanced s)).
  change (microtick (set_psi_mode PSI_F (advanced s)))
    with (microtick (advanced s)).
  destruct (is_emission_point (microtick (advanced s))).
  { rewrite !emission_phase_ignores_psi, map_state_twice. reflexivity. }
  destruct (is_propagation_point (microtick (advanced s))).
  { rewrite !apply_propagation_engine_ignores_psi, map_state_twice.
    reflexivity. }
  destruct (is_transformation_point (microtick (advanced s)));
    [|reflexivity].
  destruct (should_transform_without_rho (advanced s) eq_refl) as [Hdf _].
  rewrite Hdf.
  destruct (should_transform (set_psi_mode PSI_F (advanced s)));
    [|reflexivity].
  rewrite !psi_transform_ignores_psi, map_state_twice. reflexivity.
Qed.

Lemma process_microtick_psi_mode :
  preserves psi_mode (process_microtick isPrime).
Proof.
  apply process_microtick_frame; try (intros v []; reflexivity).
  - unfold apply_propagation_engine. frame.
  - unfold psi_transform. frame.
Qed.

Lemma set_psi_mode_same (s : TRTS_Engine) : set_psi_mode (psi_mode s) s = s.
Proof. destruct s; reflexivity. Qed.

(** X12. Rho is zero again before any transformation microtick, so the
    psi modes that look at it see nothing: with PSI_R no microtick ever
    calls the psi transform (a transformation microtick only moves the
    counters), and an engine configured PSI_D does at every microtick, and
    over any number of microticks, exactly what the engine configured PSI_F
    does. *)
Theorem rho_is_gone_before_the_transform (s : TRTS_Engine) :
  (psi_mode s = PSI_R ->
   is_transformation_point (microtick (advanced s)) = true ->
   process_microtick isPrime s = Returned tt (advanced s))
  /\ process_microtick isPrime (set_psi_mode PSI_D s)
     = map_state (set_psi_mode PSI_D)
         (process_microtick isPrime (set_psi_mode PSI_F s))
  /\ forall n,
      execute_tick isPrime n (set_psi_mode PSI_D s)
      = map_state (set_psi_mode PSI_D)
          (execute_tick isPrime n (set_psi_mode PSI_F s)).
Proof.
  split; [|split].
  - intros Hr Ht. rewrite process_microtick_cases.
    rewrite (transformation_not_emission _ Ht).
    rewrite (transformation_not_propagation _ Ht), Ht.
    destruct (should_transform_without_rho (advanced s) eq_refl) as [_ HR].
    rewrite <- (set_psi_mode_same (advanced s)) at 1.
    change (psi_mode (advanced s)) with (psi_mode s).
    rewrite Hr, HR. reflexivity.
  - apply dual_as_forced_microtick.
  - intros n. unfold execute_tick.
    generalize (Z.to_nat n) as k. clear n. intros k. revert s.
    induction k as [|k IH]; intros s; [reflexivity|].
    cbn [repeat_m]. unfold bind at 1 2.
    rewrite dual_as_forced_microtick.
    pose proof (process_microtick_psi_mode (set_psi_mode PSI_F s)) as Hm.
    destruct (process_microtick isPrime (set_psi_mode PSI_F s))
      as [[] s1 | e s1]; [|reflexivity].
    cbn [map_state]. change (psi_mode s1 = PSI_F) in Hm.
    rewrite IH. rewrite <- Hm, set_psi_mode_same. reflexivity.
Qed.

(** X13. Where a microtick can throw.  A [process_microtick()] that throws
    threw [bad_rational] either in the koppa update of microtick 7 or 10,
    with a prime trigger and a zero beta numerator, or in the psi transform
    of a transformation microtick, with a zero numerator in beta or koppa.
    So microticks 1, 3, 4, 6 and 9 never throw, and no microtick throws on
    an engine whose beta and koppa have non-zero numerators. *)
Theorem where_a_microtick_throws (s : TRTS_Engine) :
  (forall e s',
      process_microtick isPrime s = Thrown e s' ->
      let m := microtick (advanced s) in
      ((m = 7 \/ m = 10)
       /\ isPrime (Z.abs (upsilon_num_unreduced s)) = true
       /\ numerator (beta s) = 0)
      \/ (is_transformation_point m = true
          /\ should_transform (advanced s) = true
          /\ (numerator (beta s) = 0 \/ numerator (koppa s) = 0)))
  /\ (numerator (beta s) <> 0 -> numerator (koppa s) <> 0 ->
      returned (process_microtick isPrime s) = true).
Proof.
  assert (Hthrow : forall e s',
             process_microtick isPrime s = Thrown e s' ->
             ((microtick (advanced s) = 7 \/ microtick (advanced s) = 10)
              /\ isPrime (Z.abs (upsilon_num_unreduced s)) = true
              /\ numerator (beta s) = 0)
             \/ (is_transformation_point (microtick (advanced s)) = true
                 /\ should_transform (advanced s) = true
                 /\ (numerator (beta s) = 0 \/ numerator (koppa s) = 0))).
  { intros e s'. rewrite process_microtick_cases.
    destruct (is_emission_point (microtick (advanced s))) eqn:He.
    { rewrite emission_phase_run, He.
      change (upsilon_num_unreduced (advanced s))
        with (upsilon_num_unreduced s).
      destruct (isPrime (Z.abs (upsilon_num_unreduced s))) eqn:Hp;
        [|discriminate].
      intros H. left.
      pose proof (update_koppa_failure _ _ _ _ H) as [Hb _].
      rewrite update_koppa_refines in H by discriminate.
      change (microtick (set_rho 1 (advanced s)))
        with (microtick (advanced s)) in H.
      apply (proj1 (is_emission_point_spec isPrime _)) in He.
      change (numerator (beta s) = 0) in Hb.
      destruct He as [He | [He | [He | He]]]; rewrite He in H |- *;
        [ exfalso; cbn in H; discriminate H
        | exfalso; cbn in H; discriminate H
        | split; [left; reflexivity | split; [reflexivity | exact Hb]]
        | split; [right; reflexivity | split; [reflexivity | exact Hb]] ]. }
    destruct (is_propagation_point (microtick (advanced s))).
    { destruct (apply_propagation_engine_returns (advanced s)) as (x & Hx & _).
      rewrite Hx. discriminate. }
    destruct (is_transformation_point (microtick (advanced s)));
      [|discriminate].
    destruct (should_transform (advanced s)); [|discriminate].
    intros H. right. split; [reflexivity|]. split; [reflexivity|].
    destruct (psi_transform_failure _ _ _ H) as [[Hb _] | (_ & Hk & _)]; auto. }
  split; [exact Hthrow|].
  intros Hb Hk.
  destruct (process_microtick isPrime s) as [[] s1 | e s1] eqn:Hrun;
    [reflexivity|].
  destruct (Hthrow e s1 eq_refl) as [(_ & _ & H) | (_ & _ & [H | H])];
    contradiction.
Qed.




End TrtsCCases.


Lemma where_a_microtick_throws_witness :
  exists s1 s2,
    TrtsC.process_microtick TrtsC.is_miller_rabin_prime TrtsC.critical_engine
    = Eff.Returned tt s1
    /\ TrtsC.process_microtick TrtsC.is_miller_rabin_prime s1
       = Eff.Thrown BoostRational.bad_rational s2
    /\ TrtsC.is_transformation_point (TrtsC.microtick (TrtsC.advanced s1))
       = true
    /\ BoostRational.numerator (TrtsC.koppa s1) = 0.
Proof.
  eexists. eexists. split; [vm_compute; reflexivity|].
  split; [vm_compute; reflexivity|].
  match goal with
  | |- context [TrtsC.advanced ?s1] =>
      destruct (proj1 (where_a_microtick_throws
                         TrtsC.is_miller_rabin_prime s1)
                  BoostRational.bad_rational _ eq_refl)
        as [(_ & _ & H) | (Ht & _ & _)]
  end.
  - discriminate H.
  - split; [exact Ht | reflexivity].
Defined.

(** ** The numbers the rationals stand for *)

Section RationalValues.

Import BoostRational Eff TrtsC.
Local Open Scope eff_scope.

Lemma normalize_cross (n d : Z) :
  d <> 0 ->
  numerator (normalize n d) * d = n * denominator (normalize n d).
Proof.
  intros Hd. unfold normalize.
  destruct (Z.eqb_spec n 0) as [-> | Hn]; [reflexivity|].
  set (g := Z.gcd n d).
  assert (Hg : g <> 0)
    by (unfold g; intros E; apply Z.gcd_eq_0_l in E; lia).
  destruct (Z.gcd_divide_l n d) as [n' Hn'].
  destruct (Z.gcd_divide_r n d) as [d' Hd']. fold g in Hn', Hd'.
  assert (Hqn : Z.quot n g = n') by (rewrite Hn' at 1; apply Z.quot_mul; lia).
  assert (Hqd : Z.quot d g = d') by (rewrite Hd' at 1; apply Z.quot_mul; lia).
  cbv zeta. rewrite Hqn, Hqd.
  clearbody g.
  destruct (d' <? 0); cbn [numerator denominator]; subst n d; ring.
Qed.

Lemma value_fraction (r : Rational) :
  normalized r ->
  (value r == inject_Z (numerator r) / inject_Z (denominator r))%Q.
Proof.
  intros [Hd _]. unfold value. rewrite Qmake_Qdiv.
  rewrite Z2Pos.id by exact Hd. reflexivity.
Qed.

Lemma inject_Z_nonzero (d : Z) : d <> 0 -> ~ (inject_Z d == 0)%Q.
Proof.
  intros Hd H. apply Hd. unfold Qeq in H. simpl in H. lia.
Qed.

Lemma value_normalize (n d : Z) :
  d <> 0 -> (value (normalize n d) == inject_Z n / inject_Z d)%Q.
Proof.
  intros Hd.
  rewrite (value_fraction _ (normalize_normalized n d Hd)).
  pose proof (normalize_cross n d Hd) as Hc.
  destruct (normalize_normalized n d Hd) as [HD _].
  apply Qmult_inj_r with (z := (inject_Z d * inject_Z (denominator (normalize n d)))%Q).
  { intros H. apply Qmult_integral in H.
    destruct H as [H | H]; revert H; apply inject_Z_nonzero; lia. }
  transitivity (inject_Z (numerator (normalize n d) * d)).
  { rewrite inject_Z_mult. field. apply inject_Z_nonzero. lia. }
  rewrite Hc, inject_Z_mult. field. apply inject_Z_nonzero. lia.
Qed.

Lemma value_add (a b : Rational) :
  normalized a -> normalized b -> (value (add a b) == value a + value b)%Q.
Proof.
  intros Ha Hb. unfold add.
  destruct Ha as [Ha Ha'], Hb as [Hb Hb'].
  rewrite value_normalize by nia.
  rewrite (value_fraction a (conj Ha Ha')), (value_fraction b (conj Hb Hb')).
  rewrite inject_Z_plus, !inject_Z_mult.
  field. split; apply inject_Z_nonzero; lia.
Qed.

Lemma value_sub (a b : Rational) :
  normalized a -> normalized b -> (value (sub a b) == value a - value b)%Q.
Proof.
  intros Ha Hb. unfold sub.
  destruct Ha as [Ha Ha'], Hb as [Hb Hb'].
  rewrite value_normalize by nia.
  rewrite (value_fraction a (conj Ha Ha')), (value_fraction b (conj Hb Hb')).
  unfold Z.sub. rewrite inject_Z_plus, inject_Z_opp, !inject_Z_mult.
  field. split; apply inject_Z_nonzero; lia.
Qed.

Lemma value_mul (a b : Rational) :
  normalized a -> normalized b -> (value (mul a b) == value a * value b)%Q.
Proof.
  intros Ha Hb. unfold mul.
  destruct Ha as [Ha Ha'], Hb as [Hb Hb'].
  rewrite value_normalize by nia.
  rewrite (value_fraction a (conj Ha Ha')), (value_fraction b (conj Hb Hb')).
  rewrite !inject_Z_mult.
  field. split; apply inject_Z_nonzero; lia.
Qed.

Lemma value_zero_iff (r : Rational) :
  normalized r -> ((value r == 0)%Q <-> numerator r = 0).
Proof.
  intros _. unfold value, Qeq. simpl. lia.
Qed.

Lemma value_div (a b q : Rational) :
  normalized a -> normalized b -> div a b = Ok q ->
  ~ (value b == 0)%Q /\ (value q == value a / value b)%Q.
Proof.
  intros Ha Hb. unfold div.
  destruct (Z.eqb_spec (numerator b) 0) as [|Hn]; [discriminate|].
  intros H; inversion H; subst q; clear H.
  split; [rewrite (value_zero_iff b Hb); exact Hn|].
  destruct Ha as [Ha Ha'], Hb as [Hb Hb'].
  rewrite value_normalize by (apply Z.neq_mul_0; lia).
  rewrite (value_fraction a (conj Ha Ha')), (value_fraction b (conj Hb Hb')).
  rewrite !inject_Z_mult.
  field. repeat split; apply inject_Z_nonzero; lia.
Qed.

Lemma value_inj (a b : Rational) :
  normalized a -> normalized b -> (value a == value b)%Q -> a = b.
Proof.
  intros [Ha Ga] [Hb Gb] H. unfold value, Qeq in H. simpl in H.
  rewrite !Z2Pos.id in H by assumption.
  destruct a as [na da], b as [nb db]. simpl in *.
  assert (Hab : (da | db)).
  { apply Z.gauss with (m := na); [|rewrite Z.gcd_comm; exact Ga].
    exists nb. lia. }
  assert (Hba : (db | da)).
  { apply Z.gauss with (m := nb); [|rewrite Z.gcd_comm; exact Gb].
    exists na. lia. }
  assert (da = db) by (apply Z.divide_antisym_nonneg; try assumption; lia).
  subst db. f_equal. nia.
Qed.

Lemma delta_value (u b : Rational) :
  normalized u -> normalized b ->
  normalized (normalize (numerator (sub u b) * 1) (denominator (sub u b) * 11))
  /\ (value (normalize (numerator (sub u b) * 1) (denominator (sub u b) * 11))
      == (value u - value b) / 11)%Q.
Proof.
  intros Hu Hb.
  pose proof (sub_normalized u b Hu Hb) as Hd.
  pose proof (div_eleven (sub u b)) as He.
  split; [exact (div_normalized _ _ _ Hd He)|].
  destruct (value_div _ _ _ Hd (of_int_normalized 11) He) as [_ Hv].
  rewrite Hv, (value_sub u b Hu Hb). reflexivity.
Qed.

(** X15. The propagation engines as laws on the numbers upsilon and beta
    stand for.  QUIET and ADDITIVE conserve the sum upsilon + beta and
    stretch the difference upsilon - beta by 13/11 and by 3; ROTATIONAL
    exchanges the two; MULTIPLICATIVE does not conserve the sum: it grows by
    (upsilon - beta)^2 / 11. *)
Theorem propagation_laws (s : TRTS_Engine) :
  normalized (upsilon s) -> normalized (beta s) ->
  let s' := final_state (apply_propagation_engine s) in
  let u := value (upsilon s) in
  let b := value (beta s) in
  let u' := value (upsilon s') in
  let b' := value (beta s') in
  (match engine_mode s with
   | ENG_Q => u' + b' == u + b /\ u' - b' == (13 # 11) * (u - b)
   | ENG_A => u' + b' == u + b /\ u' - b' == 3 * (u - b)
   | ENG_M => u' + b' == u + b + (u - b) * (u - b) / 11
              /\ u' - b' == (u - b) * (1 + (u + b) / 11)
   | ENG_R => u' == b /\ b' == u
   end)%Q.
Proof.
  intros Hu Hb.
  destruct (delta_value _ _ Hu Hb) as [Hdn Hdv].
  pose proof (sub_normalized _ _ Hu Hb) as Hdiff.
  pose proof (value_sub _ _ Hu Hb) as Hdiffv.
  unfold apply_propagation_engine. run. rewrite div_eleven.
  destruct (engine_mode s); cbn -[normalize value Qplus Qminus Qmult Qdiv Qeq].
  - rewrite (value_add _ _ Hu Hdiff), (value_sub _ _ Hb Hdiff), Hdiffv.
    split; ring.
  - rewrite (value_add _ _ Hu (mul_normalized _ _ Hu Hdn)).
    rewrite (value_sub _ _ Hb (mul_normalized _ _ Hb Hdn)).
    rewrite (value_mul _ _ Hu Hdn), (value_mul _ _ Hb Hdn), Hdv.
    split; field.
  - split; reflexivity.
  - rewrite (value_add _ _ Hu Hdn), (value_sub _ _ Hb Hdn), Hdv.
    split; field.
Qed.


(** X16. The psi transform on the numbers.  It returns exactly when the
    numerators of beta and koppa are not zero, and then upsilon is
    koppa / beta, beta is the old upsilon / koppa, koppa is untouched, and
    the product of the new upsilon and beta is the old ratio
    upsilon / beta, whatever koppa holds. *)
Theorem psi_transform_values (s : TRTS_Engine) :
  rationals_normalized s ->
  (returned (psi_transform s) = true
   <-> numerator (beta s) <> 0 /\ numerator (koppa s) <> 0)
  /\ (returned (psi_transform s) = true ->
      let s' := final_state (psi_transform s) in
      (value (upsilon s') == value (koppa s) / value (beta s)
       /\ value (beta s') == value (upsilon s) / value (koppa s)
       /\ value (upsilon s') * value (beta s')
          == value (upsilon s) / value (beta s))%Q
      /\ koppa s' = koppa s).
Proof.
  intros (Hu & Hb & Hk).
  unfold psi_transform. run.
  destruct (div (koppa s) (beta s)) as [q | e] eqn:Hd.
  - change (koppa (set_upsilon q s)) with (koppa s).
    destruct (value_div _ _ _ Hk Hb Hd) as [Hb0 Hq].
    destruct (div (upsilon s) (koppa s)) as [q' | e] eqn:Hd'.
    + destruct (value_div _ _ _ Hu Hk Hd') as [Hk0 Hq'].
      cbn [returned final_state]. split.
      * split; [intros _ | reflexivity].
        split; [rewrite <- (value_zero_iff _ Hb); exact Hb0
               | rewrite <- (value_zero_iff _ Hk); exact Hk0].
      * intros _. cbn [upsilon beta koppa set_beta set_upsilon].
        split; [|destruct s; reflexivity].
        split; [exact Hq|]. split; [exact Hq'|].
        rewrite Hq, Hq'. field. split; assumption.
    + cbn [returned]. split; [|discriminate].
      split; [discriminate|]. intros [_ Hk0].
      destruct e. apply div_fails_iff in Hd'. contradiction.
  - cbn [returned]. split; [|discriminate].
    split; [discriminate|]. intros [Hb0 _].
    destruct e. apply div_fails_iff in Hd. contradiction.
Qed.

End RationalValues.

Lemma propagation_laws_witness :
  let s' := Eff.final_state (TrtsC.apply_propagation_engine TrtsC.default_engine) in
  (BoostRational.value (TrtsC.upsilon s') + BoostRational.value (TrtsC.beta s')
   == (19 # 7) + (89 # 11))%Q.
Proof.
  assert (Hu : BoostRational.normalized (TrtsC.upsilon TrtsC.default_engine))
    by (split; reflexivity).
  assert (Hb : BoostRational.normalized (TrtsC.beta TrtsC.default_engine))
    by (split; reflexivity).
  exact (proj1 (propagation_laws TrtsC.default_engine Hu Hb)).
Defined.

Lemma psi_transform_values_witness :
  let s' := Eff.final_state (TrtsC.psi_transform TrtsC.default_engine) in
  (BoostRational.value (TrtsC.upsilon s') * BoostRational.value (TrtsC.beta s')
   == (19 # 7) / (89 # 11))%Q.
Proof.
  assert (Hn : TrtsC.rationals_normalized TrtsC.default_engine)
    by (repeat split).
  destruct (psi_transform_values TrtsC.default_engine Hn) as [_ H].
  destruct (H eq_refl) as [(_ & _ & Hp) _].
  exact Hp.
Defined.

(** ** The trts-c engine: upsilon + beta between transforms *)

Section TrtsCConservation.

Import BoostRational Eff TrtsC.
Local Open Scope eff_scope.

Variable isPrime : Z -> bool.

Lemma process_microtick_normalized :
  maintains rationals_normalized (process_microtick isPrime).
Proof.
  unfold process_microtick, advance_counters, emission_phase,
    propagation_phase, transformation_phase, is_prime_trigger.
  repeat first
    [ apply maintains_ret | apply maintains_gets | apply maintains_when
    | apply update_koppa_normalized
    | apply apply_propagation_engine_normalized
    | apply psi_transform_normalized
    | apply maintains_bind; [| intros ?]
    | apply maintains_modify; intros [] H; exact H ].
Qed.

Lemma process_microtick_engine_mode :
  preserves engine_mode (process_microtick isPrime).
Proof.
  apply process_microtick_frame; try (intros v []; reflexivity).
  - unfold apply_propagation_engine. frame.
  - unfold psi_transform. frame.
Qed.

(** The propagation engines other than MULTIPLICATIVE add to upsilon what
    they take from beta, or exchange the two. *)
Lemma propagation_keeps_the_sum (s : TRTS_Engine) :
  normalized (upsilon s) -> normalized (beta s) ->
  engine_mode s <> ENG_M ->
  let s' := final_state (apply_propagation_engine s) in
  (value (upsilon s') + value (beta s') == value (upsilon s) + value (beta s))%Q.
Proof.
  intros Hu Hb Hm.
  destruct (delta_value _ _ Hu Hb) as [Hdn Hdv].
  pose proof (sub_normalized _ _ Hu Hb) as Hdiff.
  unfold apply_propagation_engine. run. rewrite div_eleven.
  destruct (engine_mode s); cbn -[normalize value Qplus Qminus Qmult Qdiv Qeq].
  - rewrite (value_add _ _ Hu Hdiff), (value_sub _ _ Hb Hdiff). ring.
  - contradiction.
  - ring.
  - rewrite (value_add _ _ Hu Hdn), (value_sub _ _ Hb Hdn). ring.
Qed.

(** The sum of upsilon and beta, as a number. *)
Lemma microtick_keeps_the_sum (s : TRTS_Engine) :
  rationals_normalized s ->
  engine_mode s <> ENG_M ->
  (is_transformation_point (microtick (advanced s)) = true ->
   should_transform (advanced s) = false) ->
  let s' := final_state (process_microtick isPrime s) in
  (value (upsilon s') + value (beta s') == value (upsilon s) + value (beta s))%Q.
Proof.
  intros (Hu & Hb & _) Hm Ht. cbv zeta.
  rewrite process_microtick_cases.
  destruct (is_emission_point (microtick (advanced s))).
  { rewrite (emission_phase_frame isPrime upsilon (fun _ _ => eq_refl)
               (fun _ _ => eq_refl) (advanced s)).
    rewrite (emission_phase_frame isPrime beta (fun _ _ => eq_refl)
               (fun _ _ => eq_refl) (advanced s)).
    reflexivity. }
  destruct (is_propagation_point (microtick (advanced s))).
  { exact (propagation_keeps_the_sum (advanced s) Hu Hb Hm). }
  destruct (is_transformation_point (microtick (advanced s)));
    [|reflexivity].
  rewrite (Ht eq_refl). reflexivity.
Qed.

Lemma no_transform_before_eleven (x : TRTS_Engine) :
  psi_mode x <> PSI_C -> rho x = 0 -> microtick x <> 11 ->
  should_transform x = false.
Proof.
  intros Hc Hr Hm. unfold should_transform. rewrite Hr.
  apply Z.eqb_neq in Hm. rewrite Hm.
  destruct (psi_mode x); try reflexivity. contradiction.
Qed.

Lemma ten_microticks_keep_the_sum (n : nat) :
  forall (x : TRTS_Engine) (j : Z),
    rationals_normalized x -> engine_mode x <> ENG_M -> psi_mode x <> PSI_C ->
    0 <= j -> j + Z.of_nat n <= 10 ->
    microtick x = j \/ (j = 0 /\ microtick x = 11) ->
    (value (upsilon (final_state (repeat_m n (process_microtick isPrime) x)))
     + value (beta (final_state (repeat_m n (process_microtick isPrime) x)))
     == value (upsilon x) + value (beta x))%Q.
Proof.
  induction n as [|n IH]; intros x j Hx He Hp Hj Hn Hm; [reflexivity|].
  assert (Hnext : microtick (advanced x) = j + 1).
  { change (microtick (advanced x)) with (next_microtick (microtick x)).
    destruct Hm as [Hm | [-> Hm]]; rewrite Hm.
    - destruct (next_microtick_cycle j) as [Hc _]; [lia|].
      rewrite Hc. destruct (Z.eqb_spec j 11); lia.
    - reflexivity. }
  assert (Hkeep :
            (value (upsilon (final_state (process_microtick isPrime x)))
             + value (beta (final_state (process_microtick isPrime x)))
             == value (upsilon x) + value (beta x))%Q).
  { apply microtick_keeps_the_sum; [exact Hx | exact He |].
    intros _. apply no_transform_before_eleven;
      [exact Hp | reflexivity | rewrite Hnext; lia]. }
  pose proof (process_microtick_normalized x Hx) as Hx1.
  pose proof (process_microtick_engine_mode x) as He1.
  pose proof (process_microtick_psi_mode isPrime x) as Hp1.
  pose proof (process_microtick_microtick isPrime x) as Hm1.
  cbn [repeat_m]. unfold bind.
  destruct (process_microtick isPrime x) as [[] x1 | e x1];
    cbn [final_state] in *; [|exact Hkeep].
  rewrite <- Hkeep. apply (IH x1 (j + 1)).
  - exact Hx1.
  - rewrite He1. exact He.
  - rewrite Hp1. exact Hp.
  - lia.
  - lia.
  - left. rewrite Hm1. exact Hnext.
Qed.

(** X17. The sum upsilon + beta is conserved between psi transforms.  With
    an engine type other than MULTIPLICATIVE, [execute_tick()] of any count
    leaves the number upsilon + beta as it was when the psi mode is PSI_R
    (the transform never fires), and so do the first ten microticks of a
    tick in the modes PSI_F and PSI_D (it fires at microtick 11 only);
    returning or throwing. *)
Theorem the_sum_is_kept_between_transforms (s : TRTS_Engine) (n : Z) :
  rationals_normalized s ->
  engine_mode s <> ENG_M ->
  psi_mode s = PSI_R
  \/ (psi_mode s <> PSI_C /\ (microtick s = 0 \/ microtick s = 11) /\ n <= 10) ->
  let s' := final_state (execute_tick isPrime n s) in
  (value (upsilon s') + value (beta s') == value (upsilon s) + value (beta s))%Q.
Proof.
  intros Hn Hm [Hp | (Hp & Hb & Hle)]; cbv zeta.
  - pose (I := fun x : TRTS_Engine =>
                 rationals_normalized x /\ engine_mode x = engine_mode s
                 /\ psi_mode x = PSI_R
                 /\ (value (upsilon x) + value (beta x)
                     == value (upsilon s) + value (beta s))%Q).
    assert (HI : maintains I (process_microtick isPrime)).
    { intros x (Hx & He & Hr & Hs). unfold I.
      split; [apply process_microtick_normalized, Hx|].
      split; [rewrite process_microtick_engine_mode; exact He|].
      split; [rewrite process_microtick_psi_mode; exact Hr|].
      rewrite <- Hs. apply microtick_keeps_the_sum.
      - exact Hx.
      - rewrite He. exact Hm.
      - intros _.
        destruct (should_transform_without_rho (advanced x) eq_refl)
          as [_ HR].
        rewrite <- (set_psi_mode_same (advanced x)).
        change (psi_mode (advanced x)) with (psi_mode x).
        rewrite Hr. exact HR. }
    assert (H0 : I s).
    { unfold I. split; [exact Hn|]. split; [reflexivity|].
      split; [exact Hp | reflexivity]. }
    destruct (maintains_repeat_m I (Z.to_nat n) _ HI s H0)
      as (_ & _ & _ & H).
    exact H.
  - unfold execute_tick.
    apply (ten_microticks_keep_the_sum (Z.to_nat n) s 0);
      try assumption; lia.
Qed.

End TrtsCConservation.

Lemma the_sum_is_kept_between_transforms_witness :
  let s' :=
    Eff.final_state
      (TrtsC.execute_tick TrtsC.is_miller_rabin_prime 10 TrtsC.default_engine) in
  (BoostRational.value (TrtsC.upsilon s') + BoostRational.value (TrtsC.beta s')
   == (19 # 7) + (89 # 11))%Q.
Proof.
  apply (the_sum_is_kept_between_transforms
           TrtsC.is_miller_rabin_prime TrtsC.default_engine 10).
  - repeat split.
  - discriminate.
  - right. split; [discriminate|]. split; [left; reflexivity | lia].
Defined.

(** ** The first C++ engine: steps and koppa modes *)

Section HardcoreEngine.

Import BoostRational Eff Hardcore.
Local Open Scope eff_scope.

(** *** The counters *)

Lemma hardcore_update_koppa_frame {A : Type} (f : TRTS_Engine -> A)
      (trigger : Z) :
  (forall v s, f (set_koppa v s) = f s) -> preserves f (update_koppa trigger).
Proof.
  intros Hk. unfold update_koppa.
  apply preserves_bind; [apply preserves_gets | intros u].
  apply preserves_bind; [apply preserves_gets | intros b].
  apply preserves_bind; [apply preserves_gets | intros km].
  destruct km;
    repeat first
      [ apply preserves_gets | apply preserves_lift | apply preserves_when
      | apply preserves_bind; [| intros ?]
      | apply preserves_modify; intros s; apply Hk ].
Qed.

Lemma hardcore_propagation_frame {A : Type} (f : TRTS_Engine -> A) :
  (forall v s, f (set_upsilon v s) = f s) ->
  (forall v s, f (set_beta v s) = f s) ->
  preserves f apply_propagation_engine.
Proof.
  intros Hu Hb. unfold apply_propagation_engine.
  apply preserves_bind; [apply preserves_gets | intros u].
  apply preserves_bind; [apply preserves_gets | intros b].
  apply preserves_bind; [apply preserves_gets | intros e].
  destruct e;
    repeat first
      [ apply preserves_gets | apply preserves_lift
      | apply preserves_bind; [| intros ?]
      | apply preserves_modify; intros s; first [apply Hu | apply Hb] ].
Qed.

Lemma hardcore_psi_frame {A : Type} (f : TRTS_Engine -> A) :
  (forall v s, f (set_upsilon v s) = f s) ->
  (forall v s, f (set_beta v s) = f s) ->
  preserves f psi_transform.
Proof.
  intros Hu Hb. unfold psi_transform.
  apply preserves_bind; [apply preserves_gets | intros p].
  destruct (PsiBehavior_eqb p PSI_DUAL_RECIPROCAL);
    repeat first
      [ apply preserves_gets | apply preserves_lift | apply preserves_when
      | apply preserves_bind; [| intros ?]
      | apply preserves_modify; intros s; first [apply Hu | apply Hb] ].
Qed.

Lemma hardcore_process_frame {A : Type} (f : TRTS_Engine -> A) :
  (forall v s, f (set_upsilon v s) = f s) ->
  (forall v s, f (set_beta v s) = f s) ->
  (forall v s, f (set_koppa v s) = f s) ->
  (forall v s, f (set_rho v s) = f s) ->
  (forall v s, f (set_microtick v s) = f s) ->
  preserves f process_microtick.
Proof.
  intros Hu Hb Hk Hr Hm.
  unfold process_microtick, emission_block, propagation_block,
    transformation_block.
  repeat first
    [ apply preserves_gets | apply preserves_when
    | apply hardcore_update_koppa_frame; exact Hk
    | apply hardcore_propagation_frame; assumption
    | apply hardcore_psi_frame; assumption
    | apply preserves_bind; [| intros ?]
    | apply preserves_modify; intros s; first [apply Hr | apply Hm] ].
Qed.

Lemma hardcore_process_microtick_counter (s : TRTS_Engine) :
  microtick (final_state (process_microtick s)) = int_wrap (microtick s + 1).
Proof.
  unfold process_microtick. unfold bind at 1. unfold modify at 1.
  unfold bind at 1. unfold modify at 1. unfold bind at 1. unfold gets at 1.
  set (s1 := set_rho 0 (set_microtick (int_wrap (microtick s + 1)) s)).
  change (int_wrap (microtick s + 1)) with (microtick s1).
  assert (He : preserves microtick (emission_block (microtick s1))).
  { unfold emission_block.
    repeat first
      [ apply preserves_gets | apply preserves_when
      | apply hardcore_update_koppa_frame; intros v []; reflexivity
      | apply preserves_bind; [| intros ?]
      | apply preserves_modify; intros []; reflexivity ]. }
  assert (Hp : preserves microtick (propagation_block (microtick s1))).
  { unfold propagation_block. apply preserves_when.
    apply hardcore_propagation_frame; intros v []; reflexivity. }
  assert (Ht : preserves microtick (transformation_block (microtick s1))).
  { unfold transformation_block.
    repeat first
      [ apply preserves_gets | apply preserves_when
      | apply hardcore_psi_frame; intros v []; reflexivity
      | apply preserves_bind; [| intros ?] ]. }
  apply (preserves_bind microtick _ _ He).
  intros _. apply (preserves_bind microtick _ _ Hp). intros _. exact Ht.
Qed.


(** *** Past microtick 11 *)

Lemma process_microtick_past_eleven (s : TRTS_Engine) :
  11 <= microtick s < 2 ^ 31 - 1 ->
  process_microtick s
  = Returned tt (set_rho 0 (set_microtick (microtick s + 1) s)).
Proof.
  intros Hm. unfold process_microtick. run.
  rewrite int_wrap_id by (unfold int_range; lia).
  cbn [microtick set_rho set_microtick].
  unfold emission_block, propagation_block, transformation_block.
  replace (microtick s + 1 =? 1) with false by (symmetry; apply Z.eqb_neq; lia).
  replace (microtick s + 1 =? 2) with false by (symmetry; apply Z.eqb_neq; lia).
  replace (microtick s + 1 =? 3) with false by (symmetry; apply Z.eqb_neq; lia).
  replace (microtick s + 1 =? 4) with false by (symmetry; apply Z.eqb_neq; lia).
  replace (microtick s + 1 =? 5) with false by (symmetry; apply Z.eqb_neq; lia).
  replace (microtick s + 1 =? 6) with false by (symmetry; apply Z.eqb_neq; lia).
  replace (microtick s + 1 =? 7) with false by (symmetry; apply Z.eqb_neq; lia).
  replace (microtick s + 1 =? 8) with false by (symmetry; apply Z.eqb_neq; lia).
  replace (microtick s + 1 =? 9) with false by (symmetry; apply Z.eqb_neq; lia).
  replace (microtick s + 1 =? 10) with false by (symmetry; apply Z.eqb_neq; lia).
  replace (microtick s + 1 =? 11) with false by (symmetry; apply Z.eqb_neq; lia).
  reflexivity.
Qed.

(** The engine with the counters [count] microticks further. *)
Lemma microticks_past_eleven (count : nat) :
  forall s,
    11 <= microtick s -> microtick s + Z.of_nat count < 2 ^ 31 ->
    exists s',
      repeat_m count process_microtick s = Returned tt s'
      /\ upsilon s' = upsilon s /\ beta s' = beta s /\ koppa s' = koppa s
      /\ microtick s' = microtick s + Z.of_nat count.
Proof.
  induction count as [|n IH]; intros s Hm Hn.
  - exists s. repeat split; try reflexivity. cbn. lia.
  - cbn [repeat_m]. unfold bind.
    rewrite process_microtick_past_eleven by lia.
    destruct (IH (set_rho 0 (set_microtick (microtick s + 1) s)))
      as (s' & Hrun & Hu & Hb & Hk & Hmt).
    + cbn. lia.
    + cbn [microtick set_rho set_microtick]. lia.
    + exists s'. split; [exact Hrun|].
      split; [exact Hu|]. split; [exact Hb|]. split; [exact Hk|].
      rewrite Hmt. cbn [microtick set_rho set_microtick]. lia.
Qed.

Lemma hardcore_execute_step_counter (count : nat) :
  forall s s',
    repeat_m count process_microtick s = Returned tt s' ->
    0 <= microtick s -> microtick s + Z.of_nat count < 2 ^ 31 ->
    microtick s' = microtick s + Z.of_nat count.
Proof.
  induction count as [|n IH]; intros s s' Hrun Hm Hn.
  - inversion Hrun. cbn. lia.
  - cbn [repeat_m] in Hrun. unfold bind in Hrun.
    pose proof (hardcore_process_microtick_counter s) as Hc.
    destruct (process_microtick s) as [[] s1 | e s1]; [|discriminate].
    cbn [final_state] in Hc.
    rewrite int_wrap_id in Hc by (unfold int_range; lia).
    rewrite (IH s1 s' Hrun) by lia. lia.
Qed.

(** X18. In the first C++ engine [process_microtick()] increments the
    microtick and nothing ever brings it back to 1, so only the first
    [execute_step()] after [initialize_state()] does anything: every later
    step of the command-line loop returns with upsilon, beta and koppa as the
    first step left them, and only moves the microtick counter. *)
Theorem only_the_first_step_runs (e : TRTS_Engine) (u_num b_num : Z)
        (s1 : TRTS_Engine) (ticks : nat) :
  execute_step 11 (initialize_state u_num b_num e) = Returned tt s1 ->
  Z.of_nat ticks < 10 ^ 8 ->
  exists s',
    run_ticks ticks s1 = Returned tt s'
    /\ upsilon s' = upsilon s1 /\ beta s' = beta s1 /\ koppa s' = koppa s1
    /\ microtick s' = 11 + 11 * Z.of_nat ticks.
Proof.
  intros Hfirst Hticks.
  assert (H11 : microtick s1 = 11).
  { apply (hardcore_execute_step_counter 11 _ _ Hfirst); cbn; lia. }
  clear Hfirst. unfold run_ticks.
  assert (Hgen : forall n s,
             11 <= microtick s -> microtick s + 11 * Z.of_nat n < 2 ^ 31 ->
             exists s',
               repeat_m n (execute_step 11) s = Returned tt s'
               /\ upsilon s' = upsilon s /\ beta s' = beta s
               /\ koppa s' = koppa s
               /\ microtick s' = microtick s + 11 * Z.of_nat n).
  { induction n as [|n IH]; intros s Hm Hn.
    - exists s. repeat split; try reflexivity. cbn. lia.
    - cbn [repeat_m]. unfold bind.
      destruct (microticks_past_eleven 11 s Hm) as (x & Hx & Hu & Hb & Hk & Hmt);
        [lia|].
      change (execute_step 11 s) with (repeat_m 11 process_microtick s).
      rewrite Hx.
      destruct (IH x) as (s' & Hrun & Hu' & Hb' & Hk' & Hmt'); [lia | lia |].
      exists s'. split; [exact Hrun|].
      rewrite Hu', Hb', Hk', Hmt', Hu, Hb, Hk, Hmt.
      repeat split; lia. }
  destruct (Hgen ticks s1) as (s' & Hrun & Hu & Hb & Hk & Hmt).
  - lia.
  - rewrite H11. change (2 ^ 31) with 2147483648.
    change (10 ^ 8) with 100000000 in Hticks. lia.
  - exists s'. split; [exact Hrun|]. split; [exact Hu|].
    split; [exact Hb|]. split; [exact Hk|]. rewrite Hmt, H11. reflexivity.
Qed.

(** *** DUMP *)

Lemma dump_as_accumulate_blind {B : Type} (c : M TRTS_Engine B) :
  (forall v, commutes_with (set_koppa_mode v) c) -> dump_as_accumulate c.
Proof.
  intros H s. rewrite !H. destruct (c s); reflexivity.
Qed.

Lemma dump_as_accumulate_bind {B C : Type} (c : M TRTS_Engine B)
      (k : B -> M TRTS_Engine C) :
  dump_as_accumulate c -> preserves koppa_mode c ->
  (forall b, dump_as_accumulate (k b)) ->
  dump_as_accumulate (bind c k).
Proof.
  intros Hc Hp Hk s. unfold bind. rewrite Hc.
  pose proof (Hp (set_koppa_mode KOPPA_ACCUMULATE s)) as Hm.
  destruct (c (set_koppa_mode KOPPA_ACCUMULATE s)) as [b y | e y];
    [|reflexivity].
  cbn [map_state]. cbn [final_state] in Hm.
  change (koppa_mode y = KOPPA_ACCUMULATE) in Hm.
  rewrite Hk. replace (set_koppa_mode KOPPA_ACCUMULATE y) with y; [reflexivity|].
  destruct y; cbn in Hm; subst; reflexivity.
Qed.

Lemma dump_as_accumulate_when (c : bool) (body : M TRTS_Engine unit) :
  dump_as_accumulate body -> dump_as_accumulate (when c body).
Proof. intros H. destruct c; [exact H | intros s; reflexivity]. Qed.

Lemma update_koppa_dump (trigger : Z) :
  dump_as_accumulate (update_koppa trigger).
Proof. intros s. reflexivity. Qed.

Lemma psi_transform_dump : dump_as_accumulate psi_transform.
Proof.
  unfold psi_transform.
  apply dump_as_accumulate_bind;
    [ apply dump_as_accumulate_blind; intros v;
      apply commutes_gets; intros []; reflexivity
    | apply preserves_gets | intros p ].
  destruct (PsiBehavior_eqb p PSI_DUAL_RECIPROCAL);
    repeat first
      [ match goal with
        | |- dump_as_accumulate _ => intros s; reflexivity
        end
      | apply dump_as_accumulate_bind; [| | intros ?]
      | apply dump_as_accumulate_blind; intros v;
        first [ apply commutes_gets; intros []; reflexivity
              | apply commutes_lift
              | apply commutes_modify; intros []; reflexivity ]
      | apply preserves_gets | apply preserves_lift
      | apply preserves_modify; intros []; reflexivity ].
Qed.

Ltac blind_step :=
  apply dump_as_accumulate_blind; intros ?;
  first [ apply commutes_gets; intros []; reflexivity
        | apply commutes_lift
        | apply commutes_modify; intros []; reflexivity ].

Lemma emission_block_dump (m : Z) : dump_as_accumulate (emission_block m).
Proof.
  unfold emission_block. apply dump_as_accumulate_when.
  apply dump_as_accumulate_bind; [blind_step | apply preserves_gets | intros p].
  apply dump_as_accumulate_bind;
    [ apply dump_as_accumulate_when; blind_step
    | apply preserves_when, preserves_modify; intros []; reflexivity
    | intros _ ].
  apply dump_as_accumulate_bind; [blind_step | apply preserves_gets | intros r].
  apply dump_as_accumulate_when, update_koppa_dump.
Qed.

Lemma propagation_block_dump (m : Z) :
  dump_as_accumulate (propagation_block m).
Proof.
  unfold propagation_block. apply dump_as_accumulate_when.
  apply dump_as_accumulate_blind. intros v.
  unfold apply_propagation_engine.
  apply commutes_bind; [apply commutes_gets; intros []; reflexivity | intros u].
  apply commutes_bind; [apply commutes_gets; intros []; reflexivity | intros b].
  apply commutes_bind; [apply commutes_gets; intros []; reflexivity | intros e].
  destruct e; indep.
Qed.

Lemma transformation_block_dump (m : Z) :
  dump_as_accumulate (transformation_block m).
Proof.
  unfold transformation_block. apply dump_as_accumulate_when.
  apply dump_as_accumulate_bind; [blind_step | apply preserves_gets | intros st].
  apply dump_as_accumulate_when, psi_transform_dump.
Qed.

Lemma process_microtick_dump : dump_as_accumulate process_microtick.
Proof.
  unfold process_microtick.
  apply dump_as_accumulate_bind;
    [blind_step | apply preserves_modify; intros []; reflexivity | intros _].
  apply dump_as_accumulate_bind;
    [blind_step | apply preserves_modify; intros []; reflexivity | intros _].
  apply dump_as_accumulate_bind; [blind_step | apply preserves_gets | intros m].
  apply dump_as_accumulate_bind; [apply emission_block_dump | | intros _].
  { unfold emission_block.
    repeat first
      [ apply preserves_gets | apply preserves_when
      | apply hardcore_update_koppa_frame; intros v []; reflexivity
      | apply preserves_bind; [| intros ?]
      | apply preserves_modify; intros []; reflexivity ]. }
  apply dump_as_accumulate_bind; [apply propagation_block_dump | | intros _].
  { unfold propagation_block. apply preserves_when.
    apply hardcore_propagation_frame; intros v []; reflexivity. }
  apply transformation_block_dump.
Qed.

(** X19. In the first C++ engine the koppa mode DUMP is the mode
    ACCUMULATE: [update_koppa()] falls from the DUMP label into the
    accumulation and nothing else tests for DUMP, so a microtick, and the
    whole loop of the command-line program, do on the engine configured DUMP
    exactly what they do on the engine configured ACCUMULATE. *)
Theorem dump_is_accumulate (s : TRTS_Engine) (ticks : nat) :
  process_microtick (set_koppa_mode KOPPA_DUMP s)
  = map_state (set_koppa_mode KOPPA_DUMP)
      (process_microtick (set_koppa_mode KOPPA_ACCUMULATE s))
  /\ run_ticks ticks (set_koppa_mode KOPPA_DUMP s)
     = map_state (set_koppa_mode KOPPA_DUMP)
         (run_ticks ticks (set_koppa_mode KOPPA_ACCUMULATE s)).
Proof.
  assert (Hrep : forall n c,
             dump_as_accumulate c -> preserves koppa_mode c ->
             dump_as_accumulate (repeat_m n c)).
  { intros n c Hc Hp. induction n as [|n IH].
    - intros x. reflexivity.
    - cbn [repeat_m]. apply dump_as_accumulate_bind;
        [exact Hc | exact Hp | intros _; exact IH]. }
  assert (Hp : preserves koppa_mode process_microtick)
    by (apply hardcore_process_frame; intros v []; reflexivity).
  split; [apply process_microtick_dump|].
  unfold run_ticks. apply Hrep.
  - apply Hrep; [apply process_microtick_dump | exact Hp].
  - apply preserves_repeat_m, Hp.
Qed.

End HardcoreEngine.

Lemma only_the_first_step_runs_witness :
  let e := Hardcore.construct Hardcore.PSI_DUAL_RECIPROCAL
             Hardcore.KOPPA_RATIO_FEED Hardcore.ENGINE_QUIET_ADDITIVE in
  let s1 := Eff.final_state
              (Hardcore.execute_step 11 (Hardcore.initialize_state 19 89 e)) in
  exists s',
    Hardcore.run_ticks 4 s1 = Eff.Returned tt s'
    /\ Hardcore.upsilon s' = Hardcore.upsilon s1
    /\ Hardcore.microtick s' = 55.
Proof.
  intros e s1.
  assert (H1 : Hardcore.execute_step 11 (Hardcore.initialize_state 19 89 e)
               = Eff.Returned tt s1) by (vm_compute; reflexivity).
  assert (H2 : Z.of_nat 4 < 10 ^ 8) by (vm_compute; reflexivity).
  destruct (only_the_first_step_runs e 19 89 s1 4 H1 H2)
    as (s' & Hrun & Hu & _ & _ & Hm).
  exists s'. split; [exact Hrun|]. split; [exact Hu | exact Hm].
Defined.

(** ** The engine of FIAT_LUX: when the psi transform is called *)

Section FiatLuxPsi.

Import BoostRational Eff FiatLux.
Local Open Scope eff_scope.

Variable is_miller_rabin_prime : Z -> bool.

Lemma fiat_transformation_block_without_rho
      (psi : M TRTS_Engine unit) (m : Z) (s : TRTS_Engine) :
  rho s = 0 -> microtick s <> 11 ->
  transformation_block psi m s = Returned tt s.
Proof.
  intros Hr Hm. unfold transformation_block. cbv zeta.
  destruct ((m =? 2) || (m =? 5) || (m =? 8) || (m =? 11)); [|reflexivity].
  run. rewrite Hr. cbn [Z.gtb Z.compare].
  apply Z.eqb_neq in Hm. rewrite Hm. reflexivity.
Qed.

Lemma fiat_close_tick_off (s : TRTS_Engine) :
  microtick s <> 11 -> close_tick s = Returned tt s.
Proof.
  intros Hm. unfold close_tick. run.
  apply Z.eqb_neq in Hm. rewrite Hm. reflexivity.
Qed.

(** X20. In the FIAT_LUX engine the immediate psi never fires: rho is
    reset at every microtick and set only at emission microticks, so the
    branch [if (rho > 0) psi_transform()] of a transformation microtick is
    never taken.  Unless the incremented microtick is 11,
    [process_microtick()] does the same whatever [psi_transform()] is, and at
    microticks 2, 5 and 8 it only moves the counters. *)
Theorem immediate_psi_never_fires (psi : M TRTS_Engine unit) (s : TRTS_Engine) :
  int_wrap (microtick s + 1) <> 11 ->
  let m := int_wrap (microtick s + 1) in
  (forall psi', process_microtick is_miller_rabin_prime psi s
                = process_microtick is_miller_rabin_prime psi' s)
  /\ (m = 2 \/ m = 5 \/ m = 8 ->
      process_microtick is_miller_rabin_prime psi s
      = Returned tt (set_rho 0 (set_microtick m s))).
Proof.
  intros Hm m.
  assert (Hgen : forall p,
             process_microtick is_miller_rabin_prime p s
             = (emission_block is_miller_rabin_prime m ;;
                propagation_block m)
                 (set_rho 0 (set_microtick m s))).
  { intros p. unfold process_microtick.
    unfold bind at 1. unfold modify at 1.
    unfold bind at 1. unfold modify at 1.
    unfold bind at 1. unfold gets at 1.
    change (microtick
              (set_rho 0 (set_microtick (int_wrap (microtick s + 1)) s)))
      with m.
    change (set_microtick (int_wrap (microtick s + 1)) s)
      with (set_microtick m s).
    set (s0 := set_rho 0 (set_microtick m s)).
    assert (Hm0 : microtick s0 = m) by reflexivity.
    assert (Hr0 : rho s0 = 0) by reflexivity.
    clearbody s0.
    destruct (Z.eq_dec m 2) as [E2 | N2];
      [|destruct (Z.eq_dec m 5) as [E5 | N5];
        [|destruct (Z.eq_dec m 8) as [E8 | N8]]].
    - rewrite E2. unfold bind, emission_block, propagation_block.
      cbn [Z.eqb Pos.eqb orb when ret].
      rewrite fiat_transformation_block_without_rho by congruence.
      apply fiat_close_tick_off. congruence.
    - rewrite E5. unfold bind, emission_block, propagation_block.
      cbn [Z.eqb Pos.eqb orb when ret].
      rewrite fiat_transformation_block_without_rho by congruence.
      apply fiat_close_tick_off. congruence.
    - rewrite E8. unfold bind, emission_block, propagation_block.
      cbn [Z.eqb Pos.eqb orb when ret].
      rewrite fiat_transformation_block_without_rho by congruence.
      apply fiat_close_tick_off. congruence.
    - assert (Hoff : forall x, transformation_block p m x = Returned tt x).
      { intros x. unfold transformation_block. cbv zeta.
        apply Z.eqb_neq in N2, N5, N8. rewrite N2, N5, N8.
        assert (H11 : (m =? 11) = false) by (apply Z.eqb_neq; exact Hm).
        rewrite H11. reflexivity. }
      assert (Hmt : preserves microtick
                      (emission_block is_miller_rabin_prime m ;;
                       propagation_block m)).
      { apply preserves_bind.
        - apply emission_block_frame; intros v []; reflexivity.
        - intros _. apply propagation_block_frame, fiat_propagation_microtick. }
      specialize (Hmt s0).
      unfold bind. unfold bind in Hmt.
      destruct (emission_block is_miller_rabin_prime m s0) as [[] s1 | e s1];
        [|reflexivity].
      destruct (propagation_block m s1) as [[] s2 | e s2]; [|reflexivity].
      cbn [final_state] in Hmt. rewrite Hoff.
      apply fiat_close_tick_off. rewrite Hmt, Hm0. exact Hm. }
  split.
  - intros psi'. rewrite (Hgen psi), (Hgen psi'). reflexivity.
  - intros H. rewrite Hgen.
    destruct H as [H | [H | H]]; rewrite H; reflexivity.
Qed.

End FiatLuxPsi.

Lemma immediate_psi_never_fires_witness :
  let s := FiatLux.set_microtick 4 FiatLux.seeded_engine in
  FiatLux.process_microtick (fun _ => true) FiatLux.psi_dual s
  = Eff.Returned tt (FiatLux.set_rho 0 (FiatLux.set_microtick 5 s)).
Proof.
  intros s.
  assert (H : int_wrap (FiatLux.microtick s + 1) <> 11)
    by (vm_compute; discriminate).
  apply (proj2 (immediate_psi_never_fires (fun _ => true) FiatLux.psi_dual s H)).
  right. left. reflexivity.
Defined.

(** ** Trial division *)

Section TrialDivision.

(** A number from 2 on with no divisor between 2 and its square root is
    prime. *)
Lemma prime_by_trial (n : Z) :
  2 <= n ->
  (forall d, 2 <= d -> d * d <= n -> ~ (d | n)) ->
  Z.prime n.
Proof.
  intros Hn Hno. split; [lia|].
  intros m Hm [q Hq].
  assert (Hq1 : 1 < q) by nia.
  destruct (Z_le_gt_dec (m * m) n) as [Hle | Hgt].
  - apply (Hno m); [lia | exact Hle | exists q; exact Hq].
  - apply (Hno q); [lia | nia | exists m; lia].
Qed.

Lemma proper_divisor_not_prime (n d : Z) :
  1 < d < n -> (d | n) -> ~ Z.prime n.
Proof. intros Hd Hdiv [_ Hp]. exact (Hp d Hd Hdiv). Qed.

(** Past the square root with no divisor found, the number is prime. *)
Lemma prime_past_the_root (n i : Z) :
  2 <= n -> 0 <= i -> n < i * i ->
  (forall d, 2 <= d < i -> ~ (d | n)) ->
  Z.prime n.
Proof.
  intros Hn Hi Hlt Hno. apply prime_by_trial; [exact Hn|].
  intros d Hd Hdd. apply Hno. split; [exact Hd|].
  destruct (Z_lt_le_dec d i) as [H | H]; [exact H|].
  assert (i * i <= d * d) by (apply Z.mul_le_mono_nonneg; lia). lia.
Qed.

Lemma sqrt_below (n i : Z) : 0 <= n -> Z.sqrt n < i -> n < i * i.
Proof.
  intros Hn Hs. pose proof (Z.sqrt_spec n Hn) as [_ Hu].
  unfold Z.succ in Hu.
  assert ((Z.sqrt n + 1) * (Z.sqrt n + 1) <= i * i)
    by (pose proof (Z.sqrt_nonneg n); apply Z.mul_le_mono_nonneg; lia).
  lia.
Qed.

Lemma root_of_small (n x : Z) :
  0 <= x -> x * x <= n -> n < 2 ^ 62 -> x < 2 ^ 31.
Proof.
  intros Hx Hxx Hn.
  destruct (Z_lt_le_dec x (2 ^ 31)) as [H | H]; [exact H|].
  assert (2 ^ 31 * 2 ^ 31 <= x * x)
    by (apply Z.mul_le_mono_nonneg; change (2 ^ 31) with 2147483648 in *; lia).
  change (2 ^ 31 * 2 ^ 31) with (2 ^ 62) in H0. lia.
Qed.

Lemma even_divisor (n d : Z) : (2 | d) -> (d | n) -> (2 | n).
Proof. intros H2 Hd. exact (Z.divide_trans _ _ _ H2 Hd). Qed.

End TrialDivision.

(** ** The primality test of the C engines *)

Section ExternalIsPrime.

Import CompleteSpec.

Lemma odd_divisor_loop_spec (bound : nat) :
  forall n i,
    3 <= n < 2 ^ 62 -> ~ (2 | n) ->
    3 <= i -> ~ (2 | i) -> (i - 2) * (i - 2) <= n ->
    Z.sqrt n < i + 2 * Z.of_nat bound ->
    (forall d, 2 <= d < i -> ~ (d | n)) ->
    (odd_divisor_loop bound n i = true <-> Z.prime n).
Proof.
  induction bound as [|bound IH]; intros n i Hn Hodd Hi Hiodd Hprev Hfuel Hno.
  - cbn [odd_divisor_loop]. split; [intros _ | reflexivity].
    apply (prime_past_the_root n i); [lia | lia | | exact Hno].
    apply sqrt_below; lia.
  - cbn [odd_divisor_loop].
    assert (Hi31 : i - 2 < 2147483648).
    { apply (root_of_small n); [lia | exact Hprev | exact (proj2 Hn)]. }
    assert (Hii : 0 <= i * i < 9223372036854775808).
    { assert (i * i <= 2147483650 * 2147483650)
        by (apply Z.mul_le_mono_nonneg; lia).
      clear - H Hi. nia. }
    rewrite (int64_wrap_id (i * i))
      by (unfold int64_range; change (2 ^ 63) with 9223372036854775808;
          clear - Hii; lia).
    rewrite (int64_wrap_id (i + 2))
      by (unfold int64_range; change (2 ^ 63) with 9223372036854775808;
          clear - Hi Hi31; lia).
    destruct (Z.leb_spec (i * i) n) as [Hle | Hgt].
    + destruct (Z.eqb_spec (Z.rem n i) 0) as [Hr | Hr].
      * split; [discriminate|]. intros Hp. exfalso.
        apply (proper_divisor_not_prime n i); [nia | | exact Hp].
        apply Z.rem_divide; [lia | exact Hr].
      * apply IH.
        -- exact Hn.
        -- exact Hodd.
        -- clear - Hi. lia.
        -- intros [q Hq]. apply Hiodd. exists (q - 1). clear - Hq. lia.
        -- replace (i + 2 - 2) with i by (clear; lia). exact Hle.
        -- clear - Hfuel. lia.
        -- intros d Hd.
           destruct (Z_lt_le_dec d i) as [Hlt | Hge]; [apply Hno; lia|].
           destruct (Z.eq_dec d i) as [-> | Hne].
           ++ intros Hdiv. apply Hr. apply Z.rem_divide; [lia | exact Hdiv].
           ++ assert (d = i + 1) by lia. subst d.
              intros Hdiv. apply Hodd. apply (even_divisor n (i + 1)); [|exact Hdiv].
              destruct (Z.even (i + 1)) eqn:He.
              ** apply Z.even_spec in He. destruct He as [q Hq].
                 exists q. lia.
              ** exfalso. apply Hiodd.
                 assert (Ho : Z.odd (i + 1) = true)
                   by (rewrite <- Z.negb_even, He; reflexivity).
                 apply Z.odd_spec in Ho. destruct Ho as [q Hq].
                 exists q. lia.
    + split; [intros _ | reflexivity].
      apply (prime_past_the_root n i); [lia | lia | lia | exact Hno].
Qed.

(** X21. [external_is_prime()] of the C engines is a correct primality
    test on every [int64_t] below 2^62: it returns true exactly on the
    primes.  A negative number is rejected by the first test, before
    [llabs] is reached. *)
Theorem external_is_prime_correct (n : Z) :
  - 2 ^ 63 <= n < 2 ^ 62 ->
  (external_is_prime n = true <-> Z.prime n).
Proof.
  intros Hn. unfold external_is_prime.
  destruct (Z.ltb_spec n 2) as [H2 | H2].
  { split; [discriminate|]. intros Hp. apply Z.prime_ge_2 in Hp. lia. }
  destruct (Z.eqb_spec n 2) as [-> | Hne].
  { split; [intros _; exact Z.prime_2 | reflexivity]. }
  destruct (Z.eqb_spec (Z.rem n 2) 0) as [Hr | Hr].
  { split; [discriminate|]. intros Hp. exfalso.
    apply (proper_divisor_not_prime n 2); [lia | | exact Hp].
    apply Z.rem_divide; [lia | exact Hr]. }
  cbv zeta. rewrite Z.abs_eq by lia.
  assert (Hodd : ~ (2 | n)).
  { intros Hd. apply Hr. apply Z.rem_divide; [lia | exact Hd]. }
  apply odd_divisor_loop_spec.
  - split; [clear - H2 Hne; lia | exact (proj2 Hn)].
  - exact Hodd.
  - clear. lia.
  - intros [q Hq]. clear - Hq. lia.
  - change ((3 - 2) * (3 - 2)) with 1. clear - H2. lia.
  - rewrite Z2Nat.id by apply Z.sqrt_nonneg.
    pose proof (Z.sqrt_nonneg n) as Hs. clear - Hs. lia.
  - intros d Hd. assert (d = 2) by (clear - Hd; lia). subst d. exact Hodd.
Qed.

End ExternalIsPrime.

Lemma external_is_prime_correct_witness : Z.prime 1597.
Proof.
  apply (external_is_prime_correct 1597).
  - split; [vm_compute; discriminate | vm_compute; reflexivity].
  - vm_compute. reflexivity.
Defined.

(** ** The primality test of the command-line C engine *)

Section PreserveSign.

Import PureCli.

Lemma multiple_of_six_plus (i r a : Z) :
  i mod 6 = 5 -> (5 + r) mod a = 0 -> (a | 6) -> 0 < a -> (a | i + r).
Proof.
  intros Hi Hr [c Hc] Ha.
  apply Z.mod_divide; [lia|].
  pose proof (Z.div_mod i 6 ltac:(lia)) as Hd. rewrite Hi in Hd.
  set (q := i / 6) in Hd. clearbody q. clear Hi.
  assert (E : 6 * q = c * q * a) by (rewrite Hc; ring).
  replace (i + r) with (5 + r + c * q * a) by (rewrite Hd, <- E; ring).
  rewrite Z.mod_add by lia. exact Hr.
Qed.

Lemma wheel_loop_spec (bound : nat) :
  forall n i,
    5 <= n < 2 ^ 62 -> ~ (2 | n) -> ~ (3 | n) ->
    5 <= i -> i mod 6 = 5 -> i - 6 <= Z.sqrt n ->
    Z.sqrt n < i + 6 * Z.of_nat bound ->
    (forall d, 2 <= d < i -> ~ (d | n)) ->
    (wheel_loop bound n i = true <-> Z.prime n).
Proof.
  induction bound as [|bound IH];
    intros n i Hn H2 H3 Hi Hmod Hprev Hfuel Hno.
  - cbn [wheel_loop]. split; [intros _ | reflexivity].
    apply (prime_past_the_root n i); [lia | lia | | exact Hno].
    apply sqrt_below; lia.
  - cbn [wheel_loop]. unfold mul64, add64.
    assert (Hs31 : Z.sqrt n < 2147483648).
    { apply (root_of_small n); [apply Z.sqrt_nonneg | | exact (proj2 Hn)].
      apply Z.sqrt_spec. lia. }
    assert (Hii : 0 <= i * i < 9223372036854775808).
    { assert (i * i <= 2147483654 * 2147483654)
        by (apply Z.mul_le_mono_nonneg; lia).
      clear - H Hi. nia. }
    rewrite (int64_wrap_id (i * i))
      by (unfold int64_range; change (2 ^ 63) with 9223372036854775808;
          clear - Hii; lia).
    rewrite (int64_wrap_id (i + 2))
      by (unfold int64_range; change (2 ^ 63) with 9223372036854775808;
          clear - Hi Hprev Hs31; lia).
    rewrite (int64_wrap_id (i + 6))
      by (unfold int64_range; change (2 ^ 63) with 9223372036854775808;
          clear - Hi Hprev Hs31; lia).
    destruct (Z.leb_spec (i * i) n) as [Hle | Hgt].
    + assert (Hin : i + 2 < n) by (clear - Hle Hi; nia).
      destruct (Z.eqb_spec (Z.rem n i) 0) as [Hr | Hr].
      { cbn [orb]. split; [discriminate|]. intros Hp. exfalso.
        apply (proper_divisor_not_prime n i); [clear - Hin Hi; lia | | exact Hp].
        apply Z.rem_divide; [clear - Hi; lia | exact Hr]. }
      destruct (Z.eqb_spec (Z.rem n (i + 2)) 0) as [Hr2 | Hr2].
      { cbn [orb]. split; [discriminate|]. intros Hp. exfalso.
        apply (proper_divisor_not_prime n (i + 2));
          [clear - Hin Hi; lia | | exact Hp].
        apply Z.rem_divide; [clear - Hi; lia | exact Hr2]. }
      cbn [orb]. apply IH.
      * exact Hn.
      * exact H2.
      * exact H3.
      * clear - Hi. lia.
      * replace (i + 6) with (i + 1 * 6) by (clear; lia).
        rewrite Z.mod_add by (clear; lia). exact Hmod.
      * replace (i + 6 - 6) with i by (clear; lia).
        apply Z.sqrt_le_square; [clear - Hn; lia | clear - Hi; lia | exact Hle].
      * clear - Hfuel. lia.
      * intros d Hd.
        destruct (Z_lt_le_dec d i) as [Hlt | Hge];
          [apply Hno; clear - Hd Hlt; lia|].
        assert (Hcases : d = i \/ d = i + 1 \/ d = i + 2 \/ d = i + 3
                         \/ d = i + 4 \/ d = i + 5) by (clear - Hd Hge; lia).
        destruct Hcases as [-> | [-> | [-> | [-> | [-> | ->]]]]].
        -- intros Hdiv. apply Hr. apply Z.rem_divide;
             [clear - Hi; lia | exact Hdiv].
        -- intros Hdiv. apply H2. apply (even_divisor n (i + 1)); [|exact Hdiv].
           apply multiple_of_six_plus; [exact Hmod | reflexivity | | lia].
           exists 3. reflexivity.
        -- intros Hdiv. apply Hr2. apply Z.rem_divide;
             [clear - Hi; lia | exact Hdiv].
        -- intros Hdiv. apply H2. apply (even_divisor n (i + 3)); [|exact Hdiv].
           apply multiple_of_six_plus; [exact Hmod | reflexivity | | lia].
           exists 3. reflexivity.
        -- intros Hdiv. apply H3.
           apply (Z.divide_trans 3 (i + 4) n); [|exact Hdiv].
           apply multiple_of_six_plus; [exact Hmod | reflexivity | | lia].
           exists 2. reflexivity.
        -- intros Hdiv. apply H2. apply (even_divisor n (i + 5)); [|exact Hdiv].
           apply multiple_of_six_plus; [exact Hmod | reflexivity | | lia].
           exists 3. reflexivity.
    + split; [intros _ | reflexivity].
      apply (prime_past_the_root n i); [lia | lia | lia | exact Hno].
Qed.

(** X24. [is_prime_preserve_sign()] is a correct primality test of the
    absolute value, for every [n] with |n| below 2^62. *)
Theorem is_prime_preserve_sign_correct (n : Z) :
  - 2 ^ 62 < n < 2 ^ 62 ->
  (is_prime_preserve_sign n = true <-> Z.prime (Z.abs n)).
Proof.
  intros Hn. unfold is_prime_preserve_sign.
  assert (Habs : (if n <? 0 then int64_wrap (- n) else n) = Z.abs n).
  { destruct (Z.ltb_spec n 0) as [Hneg | Hpos].
    - rewrite int64_wrap_id
        by (unfold int64_range; change (2 ^ 63) with 9223372036854775808;
            change (2 ^ 62) with 4611686018427387904 in Hn; lia).
      symmetry. apply Z.abs_neq. lia.
    - symmetry. apply Z.abs_eq. exact Hpos. }
  rewrite Habs. clear Habs.
  assert (Ha : 0 <= Z.abs n < 2 ^ 62).
  { split; [apply Z.abs_nonneg|].
    change (2 ^ 62) with 4611686018427387904 in *. lia. }
  generalize dependent (Z.abs n). clear n Hn. intros n Hn.
  cbv zeta.
  destruct (Z.leb_spec n 1) as [H1 | H1].
  { split; [discriminate|]. intros Hp. apply Z.prime_ge_2 in Hp.
    clear - Hp H1. lia. }
  destruct (Z.leb_spec n 3) as [H3 | H3].
  { split; [intros _ | reflexivity].
    assert (Hc : n = 2 \/ n = 3) by (clear - H1 H3; lia).
    destruct Hc as [-> | ->]; [exact Z.prime_2 | exact Z.prime_3]. }
  destruct (Z.eqb_spec (Z.rem n 2) 0) as [Hr2 | Hr2].
  { cbn [orb]. split; [discriminate|]. intros Hp. exfalso.
    apply (proper_divisor_not_prime n 2); [clear - H3; lia | | exact Hp].
    apply Z.rem_divide; [discriminate | exact Hr2]. }
  destruct (Z.eqb_spec (Z.rem n 3) 0) as [Hr3 | Hr3].
  { cbn [orb]. split; [discriminate|]. intros Hp. exfalso.
    apply (proper_divisor_not_prime n 3); [clear - H3; lia | | exact Hp].
    apply Z.rem_divide; [discriminate | exact Hr3]. }
  cbn [orb].
  assert (Hodd : ~ (2 | n)).
  { intros Hd. apply Hr2. apply Z.rem_divide; [discriminate | exact Hd]. }
  assert (Hno3 : ~ (3 | n)).
  { intros Hd. apply Hr3. apply Z.rem_divide; [discriminate | exact Hd]. }
  assert (H5 : 5 <= n).
  { destruct (Z.eq_dec n 4) as [-> | H4]; [|clear - H3 H4; lia].
    exfalso. apply Hodd. exists 2. reflexivity. }
  apply wheel_loop_spec.
  - split; [exact H5 | exact (proj2 Hn)].
  - exact Hodd.
  - exact Hno3.
  - clear. lia.
  - reflexivity.
  - pose proof (Z.sqrt_nonneg n) as Hs. clear - Hs. lia.
  - rewrite Z2Nat.id by apply Z.sqrt_nonneg.
    pose proof (Z.sqrt_nonneg n) as Hs. clear - Hs. lia.
  - intros d Hd.
    assert (Hc : d = 2 \/ d = 3 \/ d = 4) by (clear - Hd; lia).
    destruct Hc as [-> | [-> | ->]]; [exact Hodd | exact Hno3 |].
    intros Hdiv. apply Hodd. apply (even_divisor n 4); [|exact Hdiv].
    exists 2. reflexivity.
Qed.

End PreserveSign.

Lemma is_prime_preserve_sign_correct_witness :
  PureCli.is_prime_preserve_sign (- 91) = false /\ ~ Z.prime 91.
Proof.
  split; [vm_compute; reflexivity|].
  intros Hp.
  assert (Hr : - 2 ^ 62 < - 91 < 2 ^ 62)
    by (split; vm_compute; reflexivity).
  apply (proj2 (is_prime_preserve_sign_correct (- 91) Hr)) in Hp.
  vm_compute in Hp. discriminate Hp.
Defined.

(** ** The command-line C engine: the run *)

Section PureCliRun.

Import PureCli.

(** An invariant of the microtick body is an invariant of the run. *)
Lemma ticks_loop_invariant (I : Locals -> Prop) (config : TRTS_Config) :
  (forall mt st, I st -> I (microtick_body config mt st)) ->
  forall ticks st, I st -> I (ticks_loop ticks config st).
Proof.
  intros Hbody ticks. induction ticks as [|n IH]; intros st Hst; [exact Hst|].
  cbn [ticks_loop]. apply IH. unfold tick. cbn [fold_left].
  repeat apply Hbody. exact Hst.
Qed.

Lemma role_switch_k (config : TRTS_Config) (mt : Z) (st : Locals) :
  k (role_switch config mt st) = k st.
Proof.
  unfold role_switch.
  repeat match goal with
         | |- context [if ?c then _ else _] => destruct c
         end; reflexivity.
Qed.

Lemma role_switch_ignores_koppa_mode (mode : Z) (config : TRTS_Config)
      (mt : Z) (st : Locals) :
  role_switch (with_koppa_mode mode config) mt st = role_switch config mt st.
Proof. reflexivity. Qed.

Lemma microtick_body_keeps_the_seed (config : TRTS_Config) (mt : Z)
      (st : Locals) :
  koppa_mode config <> 2 ->
  k st = seed_k config ->
  k (microtick_body config mt st) = seed_k config
  /\ microtick_body config mt st = role_switch config mt st.
Proof.
  intros Hm Hk. unfold microtick_body, koppa_switch.
  pose proof (role_switch_k config mt st) as Hr. rewrite Hk in Hr.
  destruct (koppa_mode config =? 0).
  - destruct (mt =? 11).
    + split; [reflexivity|].
      destruct (role_switch config mt st) as [u1 b1 k1 r1].
      cbn in Hr |- *. rewrite Hr. reflexivity.
    + split; [exact Hr | reflexivity].
  - destruct (koppa_mode config =? 1); [split; [exact Hr | reflexivity]|].
    destruct (Z.eqb_spec (koppa_mode config) 2) as [E | _]; [contradiction|].
    split; [exact Hr | reflexivity].
Qed.

(** X25. In [run_trts()] koppa only moves in the pop mode: with any other
    koppa mode [k] is the seed when the loops are left, and the run is the
    run of the accumulate mode (the dump mode resets [k] to a value it never
    left). *)
Theorem koppa_is_the_seed_unless_pop (config : TRTS_Config) :
  koppa_mode config <> 2 ->
  k (run_trts config) = seed_k config
  /\ run_trts config = run_trts (with_koppa_mode 1 config).
Proof.
  intros Hm.
  assert (Hgen : forall ticks st,
             k st = seed_k config ->
             k (ticks_loop ticks config st) = seed_k config
             /\ ticks_loop ticks config st
                = ticks_loop ticks (with_koppa_mode 1 config) st).
  { induction ticks as [|n IH]; intros st Hk; [split; [exact Hk | reflexivity]|].
    cbn [ticks_loop].
    assert (Htick : k (tick config st) = seed_k config
                    /\ tick config st = tick (with_koppa_mode 1 config) st).
    { unfold tick.
      assert (Hlist : forall l st,
                 k st = seed_k config ->
                 k (fold_left (fun st mt => microtick_body config mt st) l st)
                 = seed_k config
                 /\ fold_left (fun st mt => microtick_body config mt st) l st
                    = fold_left
                        (fun st mt =>
                           microtick_body (with_koppa_mode 1 config) mt st)
                        l st).
      { induction l as [|mt l IHl]; intros x Hx;
          [split; [exact Hx | reflexivity]|].
        cbn [fold_left].
        destruct (microtick_body_keeps_the_seed config mt x Hm Hx)
          as [Hk1 Hb1].
        destruct (IHl _ Hk1) as [Hk2 Hb2]. split; [exact Hk2|].
        rewrite Hb2. f_equal. rewrite Hb1. reflexivity. }
      apply Hlist. exact Hk. }
    destruct Htick as [Hk1 Ht1]. destruct (IH _ Hk1) as [Hk2 Hl2].
    split; [exact Hk2|]. rewrite Hl2, Ht1. reflexivity. }
  unfold run_trts. apply Hgen. reflexivity.
Qed.

(** *** Psi behaviour 2 *)

Lemma mu_mode_body (config : TRTS_Config) (mt : Z) (st : Locals) :
  psi_behavior config = 2 ->
  rho st = 0 /\ u st = seed_u config /\ k st = seed_k config ->
  let st' := microtick_body config mt st in
  rho st' = 0 /\ u st' = seed_u config /\ k st' = seed_k config.
Proof.
  intros Hp (Hr & Hu & Hk). cbv zeta.
  assert (Hrole : rho (role_switch config mt st) = 0
                  /\ u (role_switch config mt st) = seed_u config
                  /\ k (role_switch config mt st) = seed_k config).
  { unfold role_switch.
    destruct (is_epsilon mt) eqn:He.
    - assert (Hc : epsilon_condition config mt st = false).
      { unfold epsilon_condition. rewrite Hp. cbn [Z.eqb Pos.eqb orb andb].
        unfold is_epsilon in He.
        destruct (Z.eqb_spec mt 2) as [-> | _]; [discriminate He|].
        destruct (Z.eqb_spec mt 5) as [-> | _]; [discriminate He|].
        destruct (Z.eqb_spec mt 8) as [-> | _]; [discriminate He|].
        destruct (Z.eqb_spec mt 11) as [-> | _]; [discriminate He|].
        reflexivity. }
      rewrite Hc. auto.
    - destruct (is_mu mt).
      + rewrite Hr. cbn. auto.
      + destruct (is_phi mt); [|auto].
        destruct (engine_type config =? 0); [cbn; auto|].
        destruct (engine_type config =? 1); [cbn; auto|].
        destruct (engine_type config =? 2); cbn; auto. }
  destruct Hrole as (Hr1 & Hu1 & Hk1).
  unfold microtick_body, koppa_switch.
  destruct (koppa_mode config =? 0).
  - destruct (mt =? 11); cbn; auto.
  - destruct (koppa_mode config =? 1); [auto|].
    destruct (koppa_mode config =? 2); [|auto].
    rewrite Hr1. rewrite andb_false_r. auto.
Qed.

(** X26. Psi behaviour 2 of [run_trts()] never emits: its test on the
    microtick stands inside the EPSILON case, where it is false, so rho
    stays 0, upsilon stays the seed and koppa stays the seed, whatever the
    engine type, the koppa mode and the number of ticks. *)
Theorem mu_mode_never_emits (config : TRTS_Config) :
  psi_behavior config = 2 ->
  rho (run_trts config) = 0
  /\ u (run_trts config) = seed_u config
  /\ k (run_trts config) = seed_k config.
Proof.
  intros Hp. unfold run_trts.
  apply (ticks_loop_invariant
           (fun st => rho st = 0 /\ u st = seed_u config
                      /\ k st = seed_k config)).
  - intros mt st H. apply (mu_mode_body config mt st Hp H).
  - cbn. auto.
Qed.

(** *** Rho *)

Lemma next_rho (r : Z) :
  0 <= r <= 4 ->
  int_wrap (Z.rem r 4 + 1) = (if r =? 4 then 1 else r + 1).
Proof.
  intros Hr.
  assert (Hc : r = 0 \/ r = 1 \/ r = 2 \/ r = 3 \/ r = 4) by lia.
  destruct Hc as [-> | [-> | [-> | [-> | ->]]]]; reflexivity.
Qed.

Lemma microtick_body_rho (config : TRTS_Config) (mt : Z) (st : Locals) :
  rho (microtick_body config mt st)
  = if is_epsilon mt && epsilon_condition config mt st
    then int_wrap (Z.rem (rho st) 4 + 1) else rho st.
Proof.
  unfold microtick_body.
  assert (Hk : forall x, rho (koppa_switch config mt x) = rho x).
  { intros x. unfold koppa_switch.
    repeat match goal with
           | |- context [if ?c then _ else _] => destruct c
           end; reflexivity. }
  rewrite Hk. unfold role_switch.
  destruct (is_epsilon mt); cbn [andb].
  - destruct (epsilon_condition config mt st); reflexivity.
  - repeat match goal with
           | |- context [if ?c then _ else _] => destruct c
           end; reflexivity.
Qed.

Lemma forced_tick_rho (config : TRTS_Config) (st : Locals) :
  psi_behavior config = 0 ->
  rho st = 0 \/ rho st = 4 ->
  rho (tick config st) = 4.
Proof.
  intros Hp Hr. unfold tick. cbn [fold_left].
  assert (Hc : forall mt x, epsilon_condition config mt x = true).
  { intros mt x. unfold epsilon_condition. rewrite Hp. reflexivity. }
  rewrite !microtick_body_rho, !Hc.
  cbn [is_epsilon Z.eqb Pos.eqb orb andb].
  destruct Hr as [-> | ->]; reflexivity.
Qed.

(** X27. Rho of [run_trts()] stays among 0..4, and with psi behaviour 0
    it is 4 when the loops are left, after any positive number of ticks. *)
Theorem rho_cycle (config : TRTS_Config) :
  0 <= rho (run_trts config) <= 4
  /\ (psi_behavior config = 0 -> 0 < total_ticks config ->
      rho (run_trts config) = 4).
Proof.
  split.
  - unfold run_trts.
    apply (ticks_loop_invariant (fun st => 0 <= rho st <= 4)); [|cbn; lia].
    intros mt st Hst. rewrite microtick_body_rho.
    destruct (is_epsilon mt && epsilon_condition config mt st); [|exact Hst].
    rewrite next_rho by exact Hst.
    destruct (Z.eqb_spec (rho st) 4); lia.
  - intros Hp Ht. unfold run_trts.
    assert (Hgen : forall n st,
               rho st = 0 \/ rho st = 4 ->
               rho (ticks_loop (S n) config st) = 4).
    { induction n as [|n IH]; intros st Hst.
      - cbn [ticks_loop]. apply forced_tick_rho; assumption.
      - change (ticks_loop (S (S n)) config st)
          with (ticks_loop (S n) config (tick config st)).
        apply IH. right. apply forced_tick_rho; assumption. }
    destruct (Z.to_nat (total_ticks config)) as [|n] eqn:E; [lia|].
    apply Hgen. left. reflexivity.
Qed.

End PureCliRun.

Lemma koppa_is_the_seed_unless_pop_witness :
  let config :=
    PureCli.mkConfig (PureCli.mkRational 2 7) (PureCli.mkRational 3 11)
                     (PureCli.mkRational 1 1) 0 0 0 3 1 0 in
  PureCli.k (PureCli.run_trts config) = PureCli.mkRational 1 1.
Proof.
  intros config.
  assert (H : PureCli.koppa_mode config <> 2) by discriminate.
  exact (proj1 (koppa_is_the_seed_unless_pop config H)).
Defined.

Lemma mu_mode_never_emits_witness :
  let config :=
    PureCli.mkConfig (PureCli.mkRational 2 7) (PureCli.mkRational 3 11)
                     (PureCli.mkRational 1 1) 2 2 0 3 1 0 in
  PureCli.rho (PureCli.run_trts config) = 0
  /\ PureCli.u (PureCli.run_trts config) = PureCli.mkRational 2 7.
Proof.
  intros config.
  assert (H : PureCli.psi_behavior config = 2) by reflexivity.
  destruct (mu_mode_never_emits config H) as (Hr & Hu & _).
  split; [exact Hr | exact Hu].
Defined.

(** ** The C engine of the "complete specification" *)

Section CompleteSpecFacts.

Import CompleteSpec.

(** *** The psi transform *)

Lemma psi_transform_correct_run (s : TRTS_State) :
  psi_transform_correct s
  = with_pair (mkRational (den (beta s)) (num (upsilon s)))
              (mkRational (den (upsilon s)) (num (beta s))) s.
Proof.
  unfold psi_transform_correct. cbv zeta. cbn [num den].
  rewrite (Z.mul_comm (den (beta s)) (den (upsilon s))).
  rewrite (Z.mul_comm (int64_wrap (num (upsilon s) * num (beta s)))).
  rewrite Z.eqb_refl. reflexivity.
Qed.

(** X22. The product test of [psi_transform_correct()] never fails: its
    two sides are the same product, so the pair (a/b, c/d) always becomes
    (d/a, b/c), also when that writes a zero denominator.  Applied twice the
    transform exchanges upsilon and beta, applied four times it gives the
    state back. *)
Theorem psi_check_never_fails (s : TRTS_State) :
  let s1 := psi_transform_correct s in
  let s2 := psi_transform_correct s1 in
  upsilon s1 = mkRational (den (beta s)) (num (upsilon s))
  /\ beta s1 = mkRational (den (upsilon s)) (num (beta s))
  /\ upsilon s2 = beta s /\ beta s2 = upsilon s
  /\ psi_transform_correct (psi_transform_correct s2) = s.
Proof.
  cbv zeta. rewrite !psi_transform_correct_run.
  destruct s as [[a b] [c d] kp r m st role counts psi km eng].
  cbn. repeat split; reflexivity.
Qed.

(** *** Rho *)

Lemma c_update_koppa_frame (ev : Z) (s : TRTS_State) :
  rho (update_koppa ev s) = rho s /\ microtick (update_koppa ev s) = microtick s
  /\ upsilon (update_koppa ev s) = upsilon s.
Proof.
  unfold update_koppa. cbv zeta.
  destruct (koppa_mode s);
    repeat match goal with
           | |- context [if ?c then _ else _] => destruct c
           end; repeat split; reflexivity.
Qed.

Lemma c_propagation_rho (s : TRTS_State) :
  rho (apply_propagation_engine s) = rho s.
Proof. unfold apply_propagation_engine. destruct (engine_type s); reflexivity. Qed.

Lemma mu_block_rho (s : TRTS_State) : rho (mu_block s) = rho s.
Proof.
  unfold mu_block. cbv zeta.
  destruct (match psi_behavior s with
            | PSI_FORCED => microtick s =? 11
            | PSI_RHO => rho s >? 0
            | PSI_MU => true
            | PSI_RHO_MSTEP =>
                (rho s >? 0) || ((microtick s =? 5) || (microtick s =? 8))
            end); [|reflexivity].
  rewrite psi_transform_correct_run. reflexivity.
Qed.

Lemma epsilon_block_rho (s : TRTS_State) :
  rho (epsilon_block s)
  = epsilon_rho (external_is_prime (num (upsilon s)))
                (external_is_prime (den (upsilon s)))
                (microtick s) (rho s).
Proof.
  unfold epsilon_block, epsilon_rho. cbv zeta.
  destruct (external_is_prime (num (upsilon s))),
           (external_is_prime (den (upsilon s)));
    cbn [orb andb count_emission set_rho set_emission_count rho microtick].
  - destruct (microtick s =? 10); cbn [andb Z.eqb Z.gtb Z.compare];
      destruct (c_update_koppa_frame 3
                  (count_emission (set_rho 3 s))) as (H & _); exact H.
  - destruct (microtick s =? 10); cbn [andb Z.eqb Z.gtb Z.compare];
      destruct (c_update_koppa_frame 1
                  (count_emission (set_rho 1 s))) as (H & _); exact H.
  - destruct (microtick s =? 10); cbn [andb Z.eqb Z.gtb Z.compare];
      destruct (c_update_koppa_frame 2
                  (count_emission (set_rho 2 s))) as (H & _); exact H.
  - destruct ((microtick s =? 10) && (rho s =? 0)).
    + cbn [count_emission set_rho set_emission_count rho Z.gtb Z.compare].
      destruct (c_update_koppa_frame 4 (count_emission (set_rho 4 s)))
        as (H & _); exact H.
    + destruct (rho s >? 0); [|reflexivity].
      destruct (c_update_koppa_frame (rho s) s) as (H & _); exact H.
Qed.

Lemma process_microtick_complete_rho (s : TRTS_State) :
  rho (process_microtick_complete s)
  = if (microtick s =? 1) || (microtick s =? 4) || (microtick s =? 7)
       || (microtick s =? 10)
    then epsilon_rho (external_is_prime (num (upsilon s)))
                     (external_is_prime (den (upsilon s)))
                     (microtick s) (rho s)
    else rho s.
Proof.
  unfold process_microtick_complete. cbv zeta.
  cbn [microtick set_current_role].
  set (role := if microtick s <=? 4 then role_E
               else if microtick s <=? 8 then role_M else role_R).
  destruct ((microtick s =? 1) || (microtick s =? 4) || (microtick s =? 7)
            || (microtick s =? 10)).
  - assert (He : rho (epsilon_block (set_current_role role s))
                 = epsilon_rho (external_is_prime (num (upsilon s)))
                     (external_is_prime (den (upsilon s)))
                     (microtick s) (rho s))
      by (rewrite epsilon_block_rho; reflexivity).
    destruct ((microtick s =? 3) || (microtick s =? 6) || (microtick s =? 9)),
             ((microtick s =? 2) || (microtick s =? 5) || (microtick s =? 8)
              || (microtick s =? 11));
      rewrite ?mu_block_rho, ?c_propagation_rho; exact He.
  - destruct ((microtick s =? 3) || (microtick s =? 6) || (microtick s =? 9)),
             ((microtick s =? 2) || (microtick s =? 5) || (microtick s =? 8)
              || (microtick s =? 11));
      rewrite ?mu_block_rho, ?c_propagation_rho; reflexivity.
Qed.

Lemma c_update_koppa_shape (ev : Z) (s : TRTS_State) :
  exists k', update_koppa ev s = set_koppa k' s.
Proof.
  unfold update_koppa. cbv zeta.
  destruct (koppa_mode s);
    repeat match goal with
           | |- context [if ?c then _ else _] => destruct c
           end; eexists; reflexivity.
Qed.

Lemma epsilon_block_shape (s : TRTS_State) :
  exists r c k',
    epsilon_block s = set_koppa k' (set_emission_count c (set_rho r s)).
Proof.
  assert (Hid : s = set_koppa (koppa s)
                      (set_emission_count (emission_count s)
                         (set_rho (rho s) s)))
    by (destruct s; reflexivity).
  unfold epsilon_block. cbv zeta.
  set (s1 := if external_is_prime (num (upsilon s))
                || external_is_prime (den (upsilon s))
             then count_emission
                    (set_rho
                       (if external_is_prime (num (upsilon s))
                           && external_is_prime (den (upsilon s))
                        then 3
                        else if external_is_prime (num (upsilon s))
                             then 1 else 2) s)
             else s).
  assert (H1 : exists r c, s1 = set_emission_count c (set_rho r s)).
  { unfold s1.
    destruct (external_is_prime (num (upsilon s))
              || external_is_prime (den (upsilon s))).
    - eexists. eexists. reflexivity.
    - exists (rho s), (emission_count s). destruct s; reflexivity. }
  clearbody s1. destruct H1 as (r1 & c1 & ->).
  set (s2 := if (microtick (set_emission_count c1 (set_rho r1 s)) =? 10)
                && (rho (set_emission_count c1 (set_rho r1 s)) =? 0)
             then count_emission
                    (set_rho 4 (set_emission_count c1 (set_rho r1 s)))
             else set_emission_count c1 (set_rho r1 s)).
  assert (H2 : exists r c, s2 = set_emission_count c (set_rho r s)).
  { unfold s2.
    destruct ((microtick (set_emission_count c1 (set_rho r1 s)) =? 10)
              && (rho (set_emission_count c1 (set_rho r1 s)) =? 0)).
    - eexists. eexists. reflexivity.
    - eexists. eexists. reflexivity. }
  clearbody s2. destruct H2 as (r2 & c2 & ->).
  destruct (rho (set_emission_count c2 (set_rho r2 s)) >? 0).
  - destruct (c_update_koppa_shape
                (rho (set_emission_count c2 (set_rho r2 s)))
                (set_emission_count c2 (set_rho r2 s))) as (k' & ->).
    exists r2, c2, k'. reflexivity.
  - exists r2, c2, (koppa s). destruct s; reflexivity.
Qed.

Lemma under_flag {A : Type} (f : TRTS_State -> A)
      (g : TRTS_State -> TRTS_State) (c : bool) (s : TRTS_State) :
  (forall x, f (g x) = f x) -> f (if c then g s else s) = f s.
Proof. intros H. destruct c; [apply H | reflexivity]. Qed.

Lemma process_microtick_complete_microtick (s : TRTS_State) :
  microtick (process_microtick_complete s) = microtick s.
Proof.
  unfold process_microtick_complete. cbv zeta.
  rewrite (under_flag microtick mu_block).
  2:{ intros x. unfold mu_block. cbv zeta.
      destruct (match psi_behavior x with
                | PSI_FORCED => _ | PSI_RHO => _ | PSI_MU => _
                | PSI_RHO_MSTEP => _ end); [|reflexivity].
      rewrite psi_transform_correct_run. reflexivity. }
  rewrite (under_flag microtick apply_propagation_engine).
  2:{ intros x. unfold apply_propagation_engine.
      destruct (engine_type x); reflexivity. }
  rewrite (under_flag microtick epsilon_block).
  2:{ intros x. destruct (epsilon_block_shape x) as (r & c & k' & ->).
      reflexivity. }
  reflexivity.
Qed.

(** Rho after one microtick stays a code of the engine, and once an
    emission has set it nothing brings it back to zero. *)
Lemma epsilon_rho_range (pn pd : bool) (m r : Z) :
  (0 <= r <= 4 -> 0 <= epsilon_rho pn pd m r <= 4)
  /\ (1 <= r <= 3 -> 1 <= epsilon_rho pn pd m r <= 3)
  /\ (0 <= r -> m = 10 -> 1 <= epsilon_rho pn pd m r)
  /\ (pn = true -> pd = true -> epsilon_rho pn pd m r = 3).
Proof.
  unfold epsilon_rho. cbv zeta.
  destruct pn, pd; cbn [orb andb];
    destruct (Z.eqb_spec m 10); cbn [andb];
    try destruct (Z.eqb_spec r 0); repeat split; intros; try lia;
    try discriminate; try reflexivity.
Qed.

(** X23. Rho in the "complete specification" engine.  A microtick keeps
    rho among the codes 0..4, never takes a prime code 1..3 back to zero or
    to the forced code, and leaves microtick 10 with rho positive.  In a
    tick as [main] and the test suite run it, the seeds are Fibonacci
    primes, so microtick 1 sets rho to 3 and the tick ends with a prime code:
    the forced emission never happens. *)
Theorem rho_is_never_taken_back (s : TRTS_State) :
  let s' := process_microtick_complete s in
  (0 <= rho s <= 4 -> 0 <= rho s' <= 4)
  /\ (1 <= rho s <= 3 -> 1 <= rho s' <= 3)
  /\ (0 <= rho s -> microtick s = 10 -> 1 <= rho s')
  /\ (forall tick,
         0 <= tick -> 1 <= rho (run_tick tick s) <= 3).
Proof.
  cbv zeta.
  assert (Hstep : forall x,
             (0 <= rho x <= 4 ->
              0 <= rho (process_microtick_complete x) <= 4)
             /\ (1 <= rho x <= 3 ->
                 1 <= rho (process_microtick_complete x) <= 3)
             /\ (0 <= rho x -> microtick x = 10 ->
                 1 <= rho (process_microtick_complete x))).
  { intros x. rewrite process_microtick_complete_rho.
    pose proof (epsilon_rho_range
                  (external_is_prime (num (upsilon x)))
                  (external_is_prime (den (upsilon x)))
                  (microtick x) (rho x)) as (Ha & Hb & Hc & _).
    destruct ((microtick x =? 1) || (microtick x =? 4) || (microtick x =? 7)
              || (microtick x =? 10)) eqn:E.
    - split; [exact Ha|]. split; [exact Hb | exact Hc].
    - split; [auto|]. split; [auto|]. intros _ Hm. rewrite Hm in E.
      discriminate E. }
  destruct (Hstep s) as (Ha & Hb & Hc).
  split; [exact Ha|]. split; [exact Hb|]. split; [exact Hc|].
  intros tick Htick. unfold run_tick.
  assert (Hloop : forall n x,
             1 <= rho x <= 3 -> 1 <= rho (microtick_loop n x) <= 3).
  { induction n as [|n IH]; intros x Hx; [exact Hx|].
    cbn [microtick_loop]. destruct (microtick x <=? 11); [|exact Hx].
    apply IH. cbn [rho set_microtick]. apply Hstep, Hx. }
  set (s0 := set_microtick 1 (initialize_state tick s)).
  assert (Hseed : external_is_prime (num (upsilon s0)) = true
                  /\ external_is_prime (den (upsilon s0)) = true).
  { unfold s0, initialize_state. cbv zeta.
    assert (Hidx : Z.rem tick 7 = 0 \/ Z.rem tick 7 = 1 \/ Z.rem tick 7 = 2
                   \/ Z.rem tick 7 = 3 \/ Z.rem tick 7 = 4
                   \/ Z.rem tick 7 = 5 \/ Z.rem tick 7 = 6).
    { pose proof (Z.rem_bound_pos tick 7 Htick ltac:(lia)). lia. }
    destruct (KoppaMode_eqb _ _ || _);
      cbn [upsilon set_microtick set_step set_rho set_koppa with_pair num den];
      destruct Hidx as [-> | [-> | [-> | [-> | [-> | [-> | ->]]]]]];
      split; vm_compute; reflexivity. }
  assert (Hm0 : microtick s0 = 1) by reflexivity.
  clearbody s0.
  assert (Hfirst : forall n x,
             microtick x = 1 ->
             microtick_loop (S n) x
             = microtick_loop n
                 (set_microtick
                    (int_wrap (microtick (process_microtick_complete x) + 1))
                    (process_microtick_complete x))).
  { intros n x Hx. cbn [microtick_loop]. rewrite Hx. reflexivity. }
  rewrite (Hfirst 10%nat s0 Hm0).
  apply Hloop. cbn [rho set_microtick].
  rewrite process_microtick_complete_rho.
  rewrite Hm0. cbn [Z.eqb Pos.eqb orb].
  destruct Hseed as [Hn Hd].
  destruct (epsilon_rho_range
              (external_is_prime (num (upsilon s0)))
              (external_is_prime (den (upsilon s0))) 1 (rho s0))
    as (_ & _ & _ & H3).
  rewrite (H3 Hn Hd). lia.
Qed.

End CompleteSpecFacts.

(** ** The C engine of [trtssm.c] *)

Section SmModelFacts.

Import CompleteSpec SmModel.

Lemma within_mul (X Y x y : Z) :
  within X x -> within Y y -> within (X * Y) (x * y).
Proof.
  unfold within. intros Hx Hy.
  apply Z.abs_le. rewrite Z.abs_mul.
  apply Z.abs_le in Hx. apply Z.abs_le in Hy.
  apply Z.mul_le_mono_nonneg; try apply Z.abs_nonneg; assumption.
Qed.

Lemma within_add (X Y x y : Z) :
  within X x -> within Y y -> within (X + Y) (x + y).
Proof. unfold within. lia. Qed.

Lemma within_wrap (B z : Z) :
  within B z -> B < 2 ^ 63 -> int64_wrap z = z.
Proof.
  unfold within. intros Hz HB. apply int64_wrap_id. unfold int64_range.
  change (2 ^ 63) with 9223372036854775808 in *. lia.
Qed.

Lemma product_test (a b c d : Z) :
  a * c * (b * 2 * (d * 2 + a)) = (a * 2 + d) * (c * 2) * (b * d)
  <-> b = 0 \/ c = 0 \/ a = d \/ a = - d.
Proof.
  assert (E : a * c * (b * 2 * (d * 2 + a)) - (a * 2 + d) * (c * 2) * (b * d)
              = 2 * (b * (c * ((a - d) * (a + d))))) by ring.
  split.
  - intros H.
    assert (H0 : 2 * (b * (c * ((a - d) * (a + d)))) = 0) by lia.
    apply Z.mul_eq_0 in H0. destruct H0 as [H0 | H0]; [discriminate|].
    apply Z.mul_eq_0 in H0. destruct H0 as [H0 | H0]; [auto|].
    apply Z.mul_eq_0 in H0. destruct H0 as [H0 | H0]; [auto|].
    apply Z.mul_eq_0 in H0. destruct H0 as [H0 | H0]; [right; right; left|right; right; right]; lia.
  - intros H.
    assert (H0 : 2 * (b * (c * ((a - d) * (a + d)))) = 0).
    { destruct H as [-> | [-> | [-> | ->]]]; ring. }
    lia.
Qed.

(** X28. The product test of [psi_transform()] in [trtssm.c] passes only
    on degenerate pairs: for fields within 2^14 of zero the pair (a/b, c/d)
    is rewritten exactly when b = 0, c = 0, a = d or a = -d, and left as it
    is otherwise. *)
Theorem psi_product_test (s : TRTS_State) :
  within (2 ^ 14) (num (upsilon s)) -> within (2 ^ 14) (den (upsilon s)) ->
  within (2 ^ 14) (num (beta s)) -> within (2 ^ 14) (den (beta s)) ->
  let a := num (upsilon s) in
  let b := den (upsilon s) in
  let c := num (beta s) in
  let d := den (beta s) in
  psi_transform s
  = if (b =? 0) || (c =? 0) || (a =? d) || (a =? - d)
    then mkState (mkRational (a * 2 + d) (b * 2))
                 (mkRational (c * 2) (d * 2 + a))
                 (koppa s) (rho s) (microtick s) (step s) (current_role s)
    else s.
Proof.
  intros Ha Hb Hc Hd a b c d.
  fold a in Ha. fold b in Hb. fold c in Hc. fold d in Hd.
  unfold psi_transform. cbv zeta. fold a b c d.
  assert (H2 : within 2 2) by (unfold within; lia).
  pose proof (within_mul _ _ _ _ Ha H2) as Ha2.
  pose proof (within_mul _ _ _ _ Hb H2) as Hb2.
  pose proof (within_mul _ _ _ _ Hc H2) as Hc2.
  pose proof (within_mul _ _ _ _ Hd H2) as Hd2.
  pose proof (within_add _ _ _ _ Ha2 Hd) as Hun.
  pose proof (within_add _ _ _ _ Hd2 Ha) as Hbd.
  pose proof (within_mul _ _ _ _ Ha Hc) as Hac.
  pose proof (within_mul _ _ _ _ Hb Hd) as Hbdp.
  pose proof (within_mul _ _ _ _ Hun Hc2) as Hnn.
  pose proof (within_mul _ _ _ _ Hb2 Hbd) as Hnd.
  pose proof (within_mul _ _ _ _ Hac Hnd) as Hl.
  pose proof (within_mul _ _ _ _ Hnn Hbdp) as Hr.
  rewrite (within_wrap _ _ Ha2) by reflexivity.
  rewrite (within_wrap _ _ Hb2) by reflexivity.
  rewrite (within_wrap _ _ Hc2) by reflexivity.
  rewrite (within_wrap _ _ Hd2) by reflexivity.
  rewrite (within_wrap _ _ Hun) by reflexivity.
  rewrite (within_wrap _ _ Hbd) by reflexivity.
  rewrite (within_wrap _ _ Hac) by reflexivity.
  rewrite (within_wrap _ _ Hbdp) by reflexivity.
  rewrite (within_wrap _ _ Hnn) by reflexivity.
  rewrite (within_wrap _ _ Hnd) by reflexivity.
  rewrite (within_wrap _ _ Hl) by reflexivity.
  rewrite (within_wrap _ _ Hr) by reflexivity.
  pose proof (product_test a b c d) as Ht.
  destruct (Z.eqb_spec (a * c * (b * 2 * (d * 2 + a)))
                       ((a * 2 + d) * (c * 2) * (b * d))) as [E | E].
  - apply Ht in E.
    destruct E as [E | [E | [E | E]]]; rewrite E;
      rewrite ?Z.eqb_refl, ?orb_true_r; reflexivity.
  - destruct (Z.eqb_spec b 0) as [E0 | _]; [exfalso; apply E, Ht; auto|].
    destruct (Z.eqb_spec c 0) as [E0 | _]; [exfalso; apply E, Ht; auto|].
    destruct (Z.eqb_spec a d) as [E0 | _]; [exfalso; apply E, Ht; auto|].
    destruct (Z.eqb_spec a (- d)) as [E0 | _]; [exfalso; apply E, Ht; auto|].
    reflexivity.
Qed.

(** X29. Every step of [trts_propagation_loop()] ends the same: the
    product test rejects the transform for each seed pair, so the final
    upsilon and beta are the seeds of the step, koppa is 44/2 and rho is
    3. *)
Theorem every_step_ends_the_same (tick : Z) (s : TRTS_State) :
  0 <= tick ->
  let s' := run_step tick s in
  let idx := Z.rem tick 7 in
  upsilon s' = mkRational (fib_prime idx) (fib_prime (Z.rem (idx + 1) 7))
  /\ beta s' = mkRational (fib_prime (Z.rem (idx + 2) 7))
                          (fib_prime (Z.rem (idx + 3) 7))
  /\ koppa s' = mkRational 44 2
  /\ rho s' = 3
  /\ microtick s' = 12.
Proof.
  intros Htick. cbv zeta.
  assert (Hidx : Z.rem tick 7 = 0 \/ Z.rem tick 7 = 1 \/ Z.rem tick 7 = 2
                 \/ Z.rem tick 7 = 3 \/ Z.rem tick 7 = 4
                 \/ Z.rem tick 7 = 5 \/ Z.rem tick 7 = 6).
  { pose proof (Z.rem_bound_pos tick 7 Htick ltac:(lia)). lia. }
  unfold run_step, initialize_fibonacci_prime_seeds.
  cbn [step set_step].
  destruct Hidx as [-> | [-> | [-> | [-> | [-> | [-> | ->]]]]]];
    vm_compute; repeat split; reflexivity.
Qed.

End SmModelFacts.

Lemma psi_product_test_witness :
  let s :=
    SmModel.mkState (CompleteSpec.mkRational 2 3) (CompleteSpec.mkRational 5 13)
                    (CompleteSpec.mkRational 1 1) 0 11 0 82 in
  SmModel.psi_transform s = s.
Proof.
  intros s.
  assert (Ha : within (2 ^ 14) (CompleteSpec.num (SmModel.upsilon s)))
    by (split; vm_compute; discriminate).
  assert (Hb : within (2 ^ 14) (CompleteSpec.den (SmModel.upsilon s)))
    by (split; vm_compute; discriminate).
  assert (Hc : within (2 ^ 14) (CompleteSpec.num (SmModel.beta s)))
    by (split; vm_compute; discriminate).
  assert (Hd : within (2 ^ 14) (CompleteSpec.den (SmModel.beta s)))
    by (split; vm_compute; discriminate).
  exact (psi_product_test s Ha Hb Hc Hd).
Defined.

Lemma every_step_ends_the_same_witness :
  let s :=
    SmModel.mkState (CompleteSpec.mkRational 0 0) (CompleteSpec.mkRational 0 0)
                    (CompleteSpec.mkRational 0 0) 0 0 0 0 in
  SmModel.upsilon (SmModel.run_step 4 s) = CompleteSpec.mkRational 89 233
  /\ SmModel.koppa (SmModel.run_step 4 s) = CompleteSpec.mkRational 44 2.
Proof.
  intros s.
  assert (H : 0 <= 4) by discriminate.
  destruct (every_step_ends_the_same 4 s H) as (Hu & _ & Hk & _).
  split; [exact Hu | exact Hk].
Defined.

(** ** The output helper *)

Section CliFacts.

Import Stdlib.Strings.String Cli.
Local Open Scope string_scope.
Local Open Scope nat_scope.

Lemma append_length (s1 s2 : string) :
  length (s1 ++ s2) = length s1 + length s2.
Proof. induction s1 as [|c s1 IH]; cbn; [reflexivity | rewrite IH; reflexivity]. Qed.

Lemma substring_length (s : string) :
  forall n m, n + m <= length s -> length (substring n m s) = m.
Proof.
  induction s as [|c s IH]; intros n m H; cbn in H.
  - assert (n = 0) by lia. assert (m = 0) by lia. subst. reflexivity.
  - destruct n as [|n].
    + destruct m as [|m]; [reflexivity|]. cbn. rewrite IH by lia. reflexivity.
    + cbn. apply IH. lia.
Qed.

Lemma substring_of_append (s1 s2 : string) (m : nat) :
  m <= length s1 -> substring 0 m (s1 ++ s2) = substring 0 m s1.
Proof.
  revert m. induction s1 as [|c s1 IH]; intros m H; cbn in H.
  - assert (m = 0) by lia. subst. destruct s2; reflexivity.
  - destruct m as [|m]; [reflexivity|]. cbn. rewrite IH by lia. reflexivity.
Qed.

Lemma substring_twice (s : string) (m : nat) :
  substring 0 m (substring 0 m s) = substring 0 m s.
Proof.
  revert m. induction s as [|c s IH]; intros m.
  - destruct m; reflexivity.
  - destruct m as [|m]; [reflexivity|]. cbn. rewrite IH. reflexivity.
Qed.

Lemma succ_not_nil (d : Decimal.uint) :
  Decimal.Little.succ d <> Decimal.Nil.
Proof. destruct d; discriminate. Qed.

Lemma to_little_uint_not_nil (n : nat) :
  forall acc, acc <> Decimal.Nil -> Nat.to_little_uint n acc <> Decimal.Nil.
Proof.
  induction n as [|n IH]; intros acc H; [exact H|].
  cbn. apply IH, succ_not_nil.
Qed.

Lemma revapp_not_nil (d : Decimal.uint) :
  forall acc, acc <> Decimal.Nil -> Decimal.revapp d acc <> Decimal.Nil.
Proof.
  induction d; intros acc H; cbn; try exact H; apply IHd; discriminate.
Qed.

Lemma to_string_not_empty (n : nat) : 1 <= length (to_string n).
Proof.
  unfold to_string, Nat.to_uint, Decimal.rev.
  pose proof (to_little_uint_not_nil n Decimal.zero ltac:(discriminate)) as H.
  destruct (Nat.to_little_uint n Decimal.zero) as [|d|d|d|d|d|d|d|d|d|d];
    [contradiction | | | | | | | | | | ];
    cbn [Decimal.revapp];
    match goal with
    | |- context [Decimal.revapp d ?acc] =>
        pose proof (revapp_not_nil d acc ltac:(discriminate)) as H';
        destruct (Decimal.revapp d acc); [contradiction | | | | | | | | | | ];
        cbn; lia
    end.
Qed.

(** X30. [truncate()] does not always truncate.  A string of at most 60
    characters is returned as it is; the result for a longer one starts with
    its first 30 characters and has 75 characters plus the digits of the
    count of those left out, never less than 76: a string of 61 to 75
    characters comes back longer than it was. *)
Theorem truncate_lengthens (s : string) :
  (length s <= 60 -> truncate s = s)
  /\ (60 < length s ->
      length (truncate s) = 75 + length (to_string (length s - 60))
      /\ 76 <= length (truncate s)
      /\ substring 0 30 (truncate s) = substring 0 30 s)
  /\ (60 < length s <= 75 -> length s < length (truncate s)).
Proof.
  assert (Hlong : 60 < length s ->
                  length (truncate s)
                  = 75 + length (to_string (length s - 60))).
  { intros H. unfold truncate.
    apply Nat.ltb_lt in H. rewrite H. apply Nat.ltb_lt in H.
    rewrite !append_length.
    rewrite !substring_length by lia. cbn [length]. lia. }
  split; [|split].
  - intros H. unfold truncate.
    assert (E : (60 <? length s) = false) by (apply Nat.ltb_ge; exact H).
    rewrite E. reflexivity.
  - intros H. split; [exact (Hlong H)|]. split.
    + rewrite (Hlong H). pose proof (to_string_not_empty (length s - 60)). lia.
    + unfold truncate. apply Nat.ltb_lt in H. rewrite H. apply Nat.ltb_lt in H.
      rewrite substring_of_append
        by (rewrite substring_length by lia; lia).
      apply substring_twice.
  - intros [H1 H2]. rewrite (Hlong H1).
    pose proof (to_string_not_empty (length s - 60)). lia.
Qed.

End CliFacts.
